(** * RRC client syncing server: the [POST /api/sync] handler

    A shallow embedding of the Express handler found, in four revisions, in
    [src/server.js], [src/unnamed/part_000] (two files) and
    [src/unnamed/part_001], together with the part of the JavaScript
    run time and of the PostgreSQL client it relies on.

    - [JS]       values of a parsed JSON body and the built-ins the handler
                 calls on them ([ToString], [trim], [parseInt], [parseFloat],
                 strict equality, truthiness);
    - [Regex]    a derivative matcher, enough for [/^[a-zA-Z0-9_]+$/];
    - [Pg]       a transactional table store behind [client.query], on a
                 server that may refuse a connection or a statement, and
                 the parameters as the client library sends them;
    - [Http]     the effects of a request: log lines, pool traffic, queries
                 and the response, recorded in order;
    - [Spec]     the notions of the specification, in its words;
    - [Sync]     the four handlers, the error middleware and what the
                 framework makes of a handler that throws, and the shape
                 the handlers share;
    - [Observe]  what is read off the record of a request;
    - [Example]  a deployment and some requests;
    - the properties of the specification, proved over these;
    - further properties of the handlers: what a record contributes to the
      parameters, the statements of a transaction whatever its outcome,
      the tables, the answers and the log. *)

From Stdlib Require Import ZArith String Ascii List Bool Lia SpecFloat DecimalString.
From stdpp Require Import gmap strings list fin_maps.
From Equations Require Import Equations.

Set Warnings "-register-all".
Local Open Scope string_scope.
Local Open Scope list_scope.
Local Open Scope nat_scope.

(** ** JavaScript values and built-ins *)

Module JS.

(** A JavaScript Number is an IEEE 754 binary64 value. *)
Definition number := spec_float.
Definition prec : Z := 53.
Definition emax : Z := 1024.
Definition NaN : number := S754_nan.

(** What [JSON.parse] can produce, plus [undefined] for an absent property.
    A string is a sequence of code units; code units above 255 are outside
    this model. An object lists its own properties. *)
Inductive value :=
| Undefined
| Null
| Bool (b : bool)
| Num (n : number)
| Str (s : string)
| Arr (elements : list value)
| Obj (properties : list (string * value)).

(** An abrupt completion carries the thrown [Error]; the handler reads
    nothing of it but [err.message]. *)
Inductive completion (A : Type) :=
| Normal (a : A)
| Throw (message : string).
Arguments Normal {A} a.
Arguments Throw {A} message.

#[export] Instance completion_ret : MRet completion := @Normal.
#[export] Instance completion_bind : MBind completion :=
  fun A B f c => match c with Normal a => f a | Throw m => Throw m end.

Definition quote : string := String "034" "".
Definition apostrophe : string := String "039" "".
Definition backslash : string := String "092" "".

(** A non-negative integer in a template literal. *)
Definition decimal (n : nat) : string := NilZero.string_of_uint (Nat.to_uint n).

(** [Array.prototype.join] over already converted elements. *)
Fixpoint join (sep : string) (parts : list string) : string :=
  match parts with
  | [] => ""
  | [p] => p
  | p :: rest => p +:+ sep +:+ join sep rest
  end.

(** [typeof v === "number"] *)
Definition typeof_number (v : value) : bool :=
  match v with Num _ => true | _ => false end.

Definition isArray (v : value) : bool :=
  match v with Arr _ => true | _ => false end.

Definition is_zero (n : number) : bool :=
  match n with S754_zero _ => true | _ => false end.

Definition is_nan (n : number) : bool :=
  match n with S754_nan => true | _ => false end.

(** ToBoolean *)
Definition truthy (v : value) : bool :=
  match v with
  | Undefined | Null => false
  | Bool b => b
  | Num n => negb (is_zero n || is_nan n)
  | Str s => negb (String.eqb s "")
  | Arr _ | Obj _ => true
  end.

(** [x === y] where at least one side is a primitive: an array or object
    taken from the request body is never identical to anything else. *)
Definition strict_equals (x y : value) : bool :=
  match x, y with
  | Undefined, Undefined => true
  | Null, Null => true
  | Bool a, Bool b => Bool.eqb a b
  | Num a, Num b => SFeqb a b
  | Str a, Str b => String.eqb a b
  | _, _ => false
  end.

(** [a || b] *)
Definition or_else (a b : value) : value := if truthy a then a else b.

(** [v === undefined ? null : v] *)
Definition or_null (v : value) : value :=
  match v with Undefined => Null | _ => v end.

Fixpoint own_property (name : string) (properties : list (string * value)) : option value :=
  match properties with
  | [] => None
  | (k, v) :: rest => if String.eqb k name then Some v else own_property name rest
  end.

(** V8's message for a property read on [null] or [undefined]. *)
Definition cannot_read (what name : string) : string :=
  "Cannot read properties of " +:+ what +:+ " (reading " +:+ apostrophe +:+ name
  +:+ apostrophe +:+ ")".

(** [v[name]] and [v.name], for a [name] that none of the built-in
    prototypes defines (as is the case of every property the handlers read):
    a primitive, an array or an object without it gives [undefined]; [null]
    and [undefined] have no properties at all. The message is V8's. *)
Definition get (v : value) (name : string) : completion value :=
  match v with
  | Undefined => Throw (cannot_read "undefined" name)
  | Null => Throw (cannot_read "null" name)
  | Obj properties => Normal (default Undefined (own_property name properties))
  | _ => Normal Undefined
  end.

Section NumberToString.

(** [Number::toString] (radix 10) is left to the engine. *)
Variable Number_toString : number -> string.

(** The abstract operation ToString. A plain object answers
    ["[object Object]"] through [Object.prototype.toString] unless an own
    property shadows [toString]: a JSON value is never callable, and
    [Object.prototype.valueOf] returns the object itself, so
    OrdinaryToPrimitive throws. An array goes through [join], where
    [null] and [undefined] elements give the empty string. *)
Fixpoint ToString (v : value) : completion string :=
  match v with
  | Undefined => Normal "undefined"
  | Null => Normal "null"
  | Bool true => Normal "true"
  | Bool false => Normal "false"
  | Num n => Normal (Number_toString n)
  | Str s => Normal s
  | Arr elements =>
      (fix elems (l : list value) : completion (list string) :=
         match l with
         | [] => Normal []
         | e :: rest =>
             match (match e with
                    | Undefined | Null => Normal ""
                    | _ => ToString e
                    end) with
             | Normal s =>
                 match elems rest with
                 | Normal ss => Normal (s :: ss)
                 | Throw m => Throw m
                 end
             | Throw m => Throw m
             end
         end) elements ≫= λ parts, Normal (join "," parts)
  | Obj properties =>
      match own_property "toString" properties with
      | Some _ => Throw "Cannot convert object to primitive value"
      | None => Normal "[object Object]"
      end
  end.

(** The method call [recv.toString()], [recv] being neither [null] nor
    [undefined] at both call sites; [what] is the source text of the
    receiver, which V8 repeats in its message. *)
Definition toString_method (what : string) (recv : value) : completion string :=
  match recv with
  | Undefined => Throw (cannot_read "undefined" "toString")
  | Null => Throw (cannot_read "null" "toString")
  | Obj properties =>
      match own_property "toString" properties with
      | Some _ => Throw (what +:+ ".toString is not a function")
      | None => Normal "[object Object]"
      end
  | _ => ToString recv
  end.

(** *** JSON.stringify

    Nothing in a value parsed from JSON is callable, so no [toJSON] is
    called. An object lists its properties in the order in which the
    engine enumerates them, and of two properties of one name the first is
    the property. A property whose value is [undefined] is left out; in
    an array [undefined] is written [null], as is a number that is not
    finite. *)

Definition hex_digit (n : nat) : ascii :=
  nth n ["0"; "1"; "2"; "3"; "4"; "5"; "6"; "7"; "8"; "9"; "a"; "b"; "c"; "d"; "e"; "f"]%char
    "0"%char.

Definition json_escape (c : ascii) : string :=
  let n := nat_of_ascii c in
  if (n =? 8)%nat then backslash +:+ "b"
  else if (n =? 9)%nat then backslash +:+ "t"
  else if (n =? 10)%nat then backslash +:+ "n"
  else if (n =? 12)%nat then backslash +:+ "f"
  else if (n =? 13)%nat then backslash +:+ "r"
  else if (n =? 34)%nat then backslash +:+ quote
  else if (n =? 92)%nat then backslash +:+ backslash
  else if (n <? 32)%nat then
    backslash +:+ "u00" +:+ String (hex_digit (n / 16)) (String (hex_digit (n mod 16)) "")
  else String c "".

Fixpoint json_escaped (s : string) : string :=
  match s with
  | EmptyString => ""
  | String c rest => json_escape c +:+ json_escaped rest
  end.

Definition QuoteJSONString (s : string) : string := quote +:+ json_escaped s +:+ quote.

Definition is_finite (n : number) : bool :=
  match n with S754_zero _ | S754_finite _ _ _ => true | _ => false end.

(** [JSON.stringify(v)], which is [undefined] for [undefined]. *)
Fixpoint JSON_stringify (v : value) : option string :=
  match v with
  | Undefined => None
  | Null => Some "null"
  | Bool true => Some "true"
  | Bool false => Some "false"
  | Num n => Some (if is_finite n then Number_toString n else "null")
  | Str s => Some (QuoteJSONString s)
  | Arr elements =>
      Some ("[" +:+ join ","
              ((fix elems (l : list value) : list string :=
                  match l with
                  | [] => []
                  | e :: rest => default "null" (JSON_stringify e) :: elems rest
                  end) elements) +:+ "]")
  | Obj properties =>
      Some ("{" +:+ join ","
              ((fix members (seen : list string) (l : list (string * value)) : list string :=
                  match l with
                  | [] => []
                  | (k, x) :: rest =>
                      if existsb (String.eqb k) seen then members seen rest
                      else
                        match JSON_stringify x with
                        | Some text =>
                            (QuoteJSONString k +:+ ":" +:+ text) :: members (k :: seen) rest
                        | None => members (k :: seen) rest
                        end
                  end) [] properties) +:+ "}")
  end.

End NumberToString.

(** *** String.prototype.trim *)

(** WhiteSpace and LineTerminator code units below 256: TAB, LF, VT, FF, CR,
    SP and NBSP. *)
Definition is_white_space (c : ascii) : bool :=
  let n := nat_of_ascii c in
  ((n =? 9) || (n =? 10) || (n =? 11) || (n =? 12) || (n =? 13) || (n =? 32) || (n =? 160))%nat.

Fixpoint trimStart (s : string) : string :=
  match s with
  | EmptyString => EmptyString
  | String c rest => if is_white_space c then trimStart rest else s
  end.

Definition trimEnd (s : string) : string := String.rev (trimStart (String.rev s)).

Definition trim (s : string) : string := trimEnd (trimStart s).

(** *** parseInt and parseFloat *)

Definition digit (radix : Z) (c : ascii) : option Z :=
  let n := Z.of_nat (nat_of_ascii c) in
  let d :=
    (if (48 <=? n) && (n <=? 57) then Some (n - 48)
     else if (97 <=? n) && (n <=? 122) then Some (n - 87)
     else if (65 <=? n) && (n <=? 90) then Some (n - 55)
     else None)%Z in
  match d with
  | Some k => if (k <? radix)%Z then Some k else None
  | None => None
  end.

(** The longest run of radix-[radix] digits at the head of [s], read as an
    integer, with their number and what follows them. *)
Fixpoint digits (radix : Z) (s : string) (acc : Z) (count : nat) : Z * nat * string :=
  match s with
  | EmptyString => (acc, count, s)
  | String c rest =>
      match digit radix c with
      | Some d => digits radix rest (radix * acc + d)%Z (S count)
      | None => (acc, count, s)
      end
  end.

Definition sign_prefix (s : string) : bool * string :=
  match s with
  | String "-" rest => (true, rest)
  | String "+" rest => (false, rest)
  | _ => (false, s)
  end.

(** The Number nearest to [m * 10 ^ e] (ties to even), signed. *)
Definition round_decimal (negative : bool) (m e : Z) : number :=
  match m with
  | Zpos p =>
      if (0 <=? e)%Z then binary_round prec emax negative (p * Z.to_pos (10 ^ e)) 0
      else
        let '(q, e2, l) := SFdiv_core_binary prec emax m 0 (10 ^ (- e))%Z 0 in
        binary_round_aux prec emax negative q e2 l
  | _ => S754_zero negative
  end.

(** [parseInt(string)] on an already converted argument, no radix given. *)
Definition parseInt (input : string) : number :=
  let '(negative, s) := sign_prefix (trimStart input) in
  let '(radix, s) :=
    match s with
    | String "0" (String "x" rest) => (16%Z, rest)
    | String "0" (String "X" rest) => (16%Z, rest)
    | _ => (10%Z, s)
    end in
  let '(mathInt, count, _) := digits radix s 0 0 in
  match count with
  | O => NaN
  | _ => round_decimal negative mathInt 0
  end.

Definition starts_with (p s : string) : bool := String.prefix p s.

Definition exponent_part (s : string) : Z :=
  match s with
  | String c rest =>
      if Ascii.eqb c "e" || Ascii.eqb c "E" then
        let '(negative, rest) := sign_prefix rest in
        let '(x, count, _) := digits 10 rest 0 0 in
        match count with
        | O => 0%Z
        | _ => if negative then (- x)%Z else x
        end
      else 0%Z
  | EmptyString => 0%Z
  end.

(** [parseFloat(string)] on an already converted argument: the value of the
    longest prefix of the trimmed input that is a StrDecimalLiteral. *)
Definition parseFloat (input : string) : number :=
  let '(negative, s) := sign_prefix (trimStart input) in
  if starts_with "Infinity" s then S754_infinity negative
  else
    let '(int, n_int, s) := digits 10 s 0 0 in
    let '(mantissa, n_frac, s) :=
      match s with
      | String "." rest =>
          let '(m, n, rest') := digits 10 rest int 0 in
          match n_int, n with
          | O, O => (int, O, s)
          | _, _ => (m, n, rest')
          end
      | _ => (int, O, s)
      end in
    match n_int, n_frac with
    | O, O => NaN
    | _, _ => round_decimal negative mantissa (exponent_part s - Z.of_nat n_frac)%Z
    end.

End JS.

(** ** Regular expressions *)

Module Regex.

(** The fragment of the pattern language the server uses: character
    classes given by ranges, sequencing and repetition, with the two
    constants that derivatives need. A pattern anchored by [^] and [$]
    (no flag) matches the whole input or nothing. *)
Inductive regex :=
| Never
| Empty
| Class (ranges : list (ascii * ascii))
| Seq (r1 r2 : regex)
| Alt (r1 r2 : regex)
| Star (r : regex).

(** [r+] *)
Definition Plus (r : regex) : regex := Seq r (Star r).

Definition in_range (c : ascii) (range : ascii * ascii) : bool :=
  ((nat_of_ascii (fst range) <=? nat_of_ascii c)
   && (nat_of_ascii c <=? nat_of_ascii (snd range)))%nat.

Definition in_class (ranges : list (ascii * ascii)) (c : ascii) : bool :=
  existsb (in_range c) ranges.

Fixpoint nullable (r : regex) : bool :=
  match r with
  | Never => false
  | Empty => true
  | Class _ => false
  | Seq r1 r2 => nullable r1 && nullable r2
  | Alt r1 r2 => nullable r1 || nullable r2
  | Star _ => true
  end.

Fixpoint derivative (c : ascii) (r : regex) : regex :=
  match r with
  | Never => Never
  | Empty => Never
  | Class ranges => if in_class ranges c then Empty else Never
  | Seq r1 r2 =>
      if nullable r1 then Alt (Seq (derivative c r1) r2) (derivative c r2)
      else Seq (derivative c r1) r2
  | Alt r1 r2 => Alt (derivative c r1) (derivative c r2)
  | Star r1 => Seq (derivative c r1) (Star r1)
  end.

(** [/^r$/.test(s)] *)
Fixpoint test (r : regex) (s : string) : bool :=
  match s with
  | EmptyString => nullable r
  | String c rest => test (derivative c r) rest
  end.

(** The words of a pattern, for reasoning. *)
Inductive matches : regex -> string -> Prop :=
| matches_empty : matches Empty ""
| matches_class ranges c : in_class ranges c = true -> matches (Class ranges) (String c "")
| matches_seq r1 r2 s1 s2 : matches r1 s1 -> matches r2 s2 -> matches (Seq r1 r2) (s1 +:+ s2)
| matches_alt_l r1 r2 s : matches r1 s -> matches (Alt r1 r2) s
| matches_alt_r r1 r2 s : matches r2 s -> matches (Alt r1 r2) s
| matches_star_nil r : matches (Star r) ""
| matches_star_cons r c s1 s2 :
    matches r (String c s1) -> matches (Star r) s2 -> matches (Star r) (String c s1 +:+ s2).

End Regex.

(** ** The store behind [client.query] *)

Module Pg.
Import JS.

(** A stored tuple: the bound parameters of one row, in column order. *)
Abbreviation row := (list value).

(** The statements the handlers send. An INSERT is kept in structured
    form: the target, the column list, one list of parameter numbers per
    row of the VALUES clause (3 for [$3]) and the parameter array. *)
Inductive statement :=
| BEGIN
| COMMIT
| ROLLBACK
| DELETE_FROM (table : string)
| TRUNCATE (table : string)
| INSERT_INTO (table : string) (columns : list string)
    (valuePlaceholders : list (list nat)) (values : list value).

(** A statement written out, for reading: the handlers build their own
    text, with the same words in the same order but laid out over several
    indented lines, and send the values apart from it. *)
Definition sql (q : statement) : string :=
  match q with
  | BEGIN => "BEGIN"
  | COMMIT => "COMMIT"
  | ROLLBACK => "ROLLBACK"
  | DELETE_FROM table => "DELETE FROM " +:+ table
  | TRUNCATE table => "TRUNCATE " +:+ table
  | INSERT_INTO table columns valuePlaceholders _ =>
      "INSERT INTO " +:+ table +:+ " (" +:+ join ", " columns +:+ ") VALUES "
      +:+ join ", " ((λ row, "(" +:+ join ", " ((λ k, "$" +:+ decimal k) <$> row) +:+ ")")
                       <$> valuePlaceholders)
  end.

(** Tables by name as the server last committed them, and the working copy
    of the transaction open on the connection, if any. *)
Record database := {
  committed : gmap string (list row);
  transaction : option (gmap string (list row))
}.

Definition current (d : database) : gmap string (list row) :=
  default (committed d) (transaction d).

Definition store (tables : gmap string (list row)) (d : database) : database :=
  match transaction d with
  | Some _ => {| committed := committed d; transaction := Some tables |}
  | None => {| committed := tables; transaction := None |}
  end.

Definition aborted (d : database) : database :=
  {| committed := committed d; transaction := None |}.

(** *** The parameters of a statement

    The client sends every parameter as text, or as NULL: [prepareValue]
    of the [pg] library gives NULL for [null] and [undefined], the string
    conversion of a number, a boolean and a string, an array literal for
    an array, and [JSON.stringify] of it for any other object. *)

Section Parameters.

Variable Number_toString : number -> string.

(** [escapeElement] *)
Fixpoint escaped (s : string) : string :=
  match s with
  | EmptyString => ""
  | String c rest =>
      (if Ascii.eqb c "092" || Ascii.eqb c "034" then backslash +:+ String c ""
       else String c "") +:+ escaped rest
  end.

Definition escapeElement (s : string) : string := quote +:+ escaped s +:+ quote.

(** The text of a parameter, [None] for NULL; an array goes through
    [arrayString]. *)
Fixpoint text (v : value) : option string :=
  match v with
  | Undefined | Null => None
  | Bool true => Some "true"
  | Bool false => Some "false"
  | Num n => Some (Number_toString n)
  | Str s => Some s
  | Arr elements =>
      Some ("{" +:+ join ","
              ((fix items (l : list value) : list string :=
                  match l with
                  | [] => []
                  | e :: rest =>
                      match e with
                      | Undefined | Null => "NULL"
                      | Arr _ => default "" (text e)
                      | _ => escapeElement (default "" (text e))
                      end :: items rest
                  end) elements) +:+ "}")
  | Obj _ => JSON_stringify Number_toString v
  end.

Definition prepareValue (v : value) : value :=
  match text v with Some s => Str s | None => Null end.

(** The tuples that given rows of parameters are stored as: what the
    server receives, the types of the columns being no part of the
    repository. *)
Definition stored (rows : list (list value)) : list row :=
  (λ r : list value, prepareValue <$> r) <$> rows.

(** [$k] denotes the k-th element of the parameter array. *)
Definition parameter (values : list value) (k : nat) : option value :=
  match k with
  | O => None
  | S k' => prepareValue <$> values !! k'
  end.

Definition bind_parameters (valuePlaceholders : list (list nat)) (values : list value)
  : option (list row) :=
  mapM (mapM (parameter values)) valuePlaceholders.

End Parameters.

Definition undefined_table (table : string) : string :=
  "relation " +:+ quote +:+ table +:+ quote +:+ " does not exist".

(** *** The server, as the handlers meet it

    What a request cannot know in advance: whether the pool hands out a
    connection, whether the server (or the connection to it) answers a
    statement with an error, which table a name written in a statement
    denotes (the server folds an unquoted name to lower case and cuts it
    at 63 bytes), and what the schema of a table refuses. *)
Record server := {
  (** the error [pool.connect()] rejects with, if it does *)
  connecting : option string;
  (** the error a statement is answered with whatever the tables hold: a
      syntax error, a lost connection, a time-out, a lock; the same
      statement is answered the same way for as long as a property looks
      at the server *)
  refusal : statement -> option string;
  (** the table that a name denotes *)
  relation : string -> string;
  (** given a table, its rows and the rows of one INSERT, the error of the
      first violated constraint *)
  violation : string -> list row -> list row -> option string
}.

Section Store.

Variable Number_toString : number -> string.
Variable pg : server.

(** One statement: the error it is answered with, if any, and the database
    after it. A statement that fails changes no table; a COMMIT or
    ROLLBACK that fails leaves no transaction open, the server aborting
    the transaction of a connection it has lost. *)
Definition execute (q : statement) (d : database) : option string * database :=
  match refusal pg q with
  | Some e => (Some e, match q with COMMIT | ROLLBACK => aborted d | _ => d end)
  | None =>
      match q with
      | BEGIN => (None, {| committed := committed d; transaction := Some (current d) |})
      | COMMIT => (None, {| committed := current d; transaction := None |})
      | ROLLBACK => (None, aborted d)
      | DELETE_FROM table | TRUNCATE table =>
          match current d !! relation pg table with
          | Some _ => (None, store (<[relation pg table := []]> (current d)) d)
          | None => (Some (undefined_table (relation pg table)), d)
          end
      | INSERT_INTO table columns valuePlaceholders values =>
          match current d !! relation pg table with
          | None => (Some (undefined_table (relation pg table)), d)
          | Some rows =>
              match bind_parameters Number_toString valuePlaceholders values with
              | None => (Some "could not bind the parameters of the statement", d)
              | Some new =>
                  if forallb (λ r : row, length r =? length columns)%nat new then
                    match violation pg (relation pg table) rows new with
                    | Some e => (Some e, d)
                    | None =>
                        (None, store (<[relation pg table := rows ++ new]> (current d)) d)
                    end
                  else (Some "INSERT has more expressions than target columns", d)
              end
          end
      end
  end.

End Store.

End Pg.

(** ** The effects of a request *)

Module Http.
Import JS Pg.

Inductive level := info | warn | error.

(** The JSON body of a response. *)
Record reply := {
  success : bool;
  message : option string;
  insertedCount : option nat
}.

(** What a request does, in the order it does it: a line logged, a
    connection taken from the pool or refused by it, the connection
    released, a statement and the error it was answered with, a response
    of the application, and an error page of the framework's own. *)
Inductive event :=
| Log (l : level) (line : string)
| Connect
| Release
| Query (q : statement) (failure : option string)
| Respond (status : nat) (body : reply)
| Unavailable (message : string)
| Page (status : nat).

(** A computation over the database that records its events and may
    throw. *)
Definition io (A : Type) : Type := database -> completion A * database * list event.

#[export] Instance io_ret : MRet io := λ A a d, (Normal a, d, []).
#[export] Instance io_bind : MBind io := λ A B f m d,
  match m d with
  | (Normal a, d1, e1) => let '(r, d2, e2) := f a d1 in (r, d2, e1 ++ e2)
  | (Throw msg, d1, e1) => (Throw msg, d1, e1)
  end.

Definition emit (e : event) : io unit := λ d, (Normal tt, d, [e]).

Definition lift {A} (c : completion A) : io A := λ d, (c, d, []).

Definition say (events : list event) : io unit := λ d, (Normal tt, d, events).

(** Some lines logged at level [info]. *)
Definition lines (l : list string) : io unit := say (Log info <$> l).

Definition log (l : level) (line : string) : io unit := emit (Log l line).

(** [res.status(status).json(body)] *)
Definition respond (status : nat) (body : reply) : io unit := emit (Respond status body).

(** [try { body } catch (err) { handler } finally { final }] *)
Definition try_catch_finally (body : io unit) (handler : string -> io unit) (final : io unit)
  : io unit := λ d,
  let '(r, d1, e1) :=
    match body d with
    | (Normal _, d1, e1) => (Normal tt, d1, e1)
    | (Throw msg, d1, e1) => let '(r, d2, e2) := handler msg d1 in (r, d2, e1 ++ e2)
    end in
  match final d1 with
  | (Normal _, d2, e2) => (r, d2, e1 ++ e2)
  | (Throw msg, d2, e2) => (Throw msg, d2, e1 ++ e2)
  end.

(** [for (let i = i0; i < length; i += step) s = body(i, s)] *)
Section ForLoop.
Context {T : Type} (length_ step : nat) (positive : 0 < step) (body : nat -> T -> io T).

Equations for_loop (i : nat) (s : T) (d : database) : completion T * database * list event
  by wf (length_ - i) lt :=
  for_loop i s d with lt_dec i length_ := {
    | left _ => (s' ← body i s; (λ d', for_loop (i + step) s' d') : io T) d
    | right _ => (mret s : io T) d }.
Next Obligation. lia. Qed.

End ForLoop.

(** [array.forEach((x, idx) => ...)] over a state that the callback
    updates. *)
Fixpoint forEach {A T} (f : A -> nat -> T -> completion T) (l : list A) (idx : nat) (s : T)
  : completion T :=
  match l with
  | [] => Normal s
  | x :: rest => f x idx s ≫= forEach f rest (idx + 1)
  end.

(** [array.slice(i, j)] for [i <= j] *)
Definition slice {A} (l : list A) (i j : nat) : list A := take (j - i) (drop i l).

(** The same loop over chunks already cut: [f i chunk] for each chunk, [i]
    being the index of its first element. *)
Fixpoint for_each_chunk {A T} (step : nat) (f : nat -> list A -> T -> io T) (i : nat)
    (l : list (list A)) (s : T) : io T :=
  match l with
  | [] => mret s
  | chunk :: rest => s' ← f i chunk s; for_each_chunk step f (i + step) rest s'
  end.

Section Client.
Variable Number_toString : number -> string.
Variable pg : server.

(** [await pool.connect()], which rejects when the pool has no connection
    to give in time, and [client.release()]. *)
Definition connect : io unit := λ d,
  match connecting pg with
  | None => (Normal tt, d, [Connect])
  | Some msg => (Throw msg, d, [Unavailable msg])
  end.

Definition release : io unit := emit Release.

(** [await client.query(...)]: a failed statement rejects with the
    database's message. *)
Definition query (q : statement) : io unit := λ d,
  match execute Number_toString pg q d with
  | (None, d') => (Normal tt, d', [Query q None])
  | (Some msg, d') => (Throw msg, d', [Query q (Some msg)])
  end.

End Client.

End Http.

(** ** What the specification says, in its own words *)

Module Spec.
Import JS Pg Http.

(** "ASCII letters, digits, or underscores" *)
Definition word_char (c : ascii) : bool :=
  let n := nat_of_ascii c in
  ((65 <=? n) && (n <=? 90) || (97 <=? n) && (n <=? 122) || (48 <=? n) && (n <=? 57)
   || (n =? 95))%nat.

Fixpoint all_chars (p : ascii -> bool) (s : string) : bool :=
  match s with
  | EmptyString => true
  | String c rest => p c && all_chars p rest
  end.

(** "one or more ASCII letters, digits, or underscores, and nothing else" *)
Definition allowed (candidate : string) : bool :=
  negb (String.eqb candidate "") && all_chars word_char candidate.

(** "partitions records into contiguous chunks of at most chunk-size
    length": the first [n] records, then the chunks of the others; a list
    has no more chunks than records. *)
Fixpoint chunks_upto {A} (fuel n : nat) (l : list A) : list (list A) :=
  match fuel, l with
  | S fuel', _ :: _ => take n l :: chunks_upto fuel' n (drop n l)
  | _, _ => []
  end.

Definition chunks {A} (n : nat) (l : list A) : list (list A) := chunks_upto (length l) n l.

(** "one positional parameter per (row, column) pair": row [r] (from 0) of a
    statement over [columns] columns is bound to the parameters
    [r * columns + 1 .. r * columns + columns]. *)
Definition placeholders (rows columns : nat) : list (list nat) :=
  (λ r, (λ k, r * columns + k + 1) <$> seq 0 columns) <$> seq 0 rows.


(** The scalars of the data model: "string, number, boolean, null", and
    [undefined] for a missing field. *)
Definition scalar (v : value) : bool :=
  match v with Arr _ | Obj _ => false | _ => true end.

(** "already-numeric value passes through; missing/empty -> null; otherwise
    parse ..., and if parsing fails or yields a falsy zero ..., fall back
    to null"; what is parsed is the text of the value. *)
Definition parse_or_null (text : value -> completion string) (parse : string -> number)
    (v : value) : completion value :=
  match v with
  | Num n => Normal (Num n)
  | Undefined | Null | Str "" => Normal Null
  | _ =>
      s ← text v;
      let n := parse s in
      Normal (if is_nan n || is_zero n then Null else Num n)
  end.

(** The integer [z] as a Number. *)
Definition of_Z (z : Z) : number := binary_normalize prec emax z 0 false.

(** 3.14 as a Number: 0x40091EB851EB851F. *)
Definition three_point_fourteen : number := S754_finite false 7070651414971679 (-51).

End Spec.


(** ** The sync endpoint *)

Module Sync.
Import JS Regex Pg Http.

(** The part of [process.env] the handlers read. *)
Record process_env := {
  API_KEY : option string;
  RRC_CLIENTS_TABLE : option string
}.

(** [process.env.NAME] *)
Definition env_value (o : option string) : value :=
  match o with Some s => Str s | None => Undefined end.

(** A request as the JSON body parser hands it over: [req.body] is an
    object, given by its own properties. *)
Record request := {
  ip : string;
  body : list (string * value)
}.

(** [const { name } = req.body] *)
Definition field (name : string) (properties : list (string * value)) : value :=
  default Undefined (own_property name properties).

(** [/^[a-zA-Z0-9_]+$/] *)
Definition identifier : regex :=
  Plus (Class [("a", "z"); ("A", "Z"); ("0", "9"); ("_", "_")]%char).

Definition invalid_api_key : reply :=
  {| success := false; message := Some "Invalid API key"; insertedCount := None |}.

Definition invalid_data_format : reply :=
  {| success := false; message := Some "Invalid data format"; insertedCount := None |}.

Definition failed (message : string) : reply :=
  {| success := false; message := Some message; insertedCount := None |}.

Definition succeeded (inserted : nat) : reply :=
  {| success := true; message := None; insertedCount := Some inserted |}.

Definition internal_server_error : reply :=
  {| success := false; message := Some "Internal server error"; insertedCount := None |}.

Definition narrow_columns : list string := ["code"; "name"; "address"; "branch"].

Definition wide_columns : list string :=
  ["code"; "name"; "address"; "branch"; "district"; "state"; "software"; "mobile";
   "installationdate"; "priorty"; "directdealing"; "rout"; "amc"; "amcamt";
   "accountcode"; "address3"; "lictype"; "clients"; "sp"; "nature"].

(** [array.includes(x)] on strings *)
Definition includes (l : list string) (x : string) : bool := existsb (String.eqb x) l.

Section Server.

Variable Number_toString : number -> string.
Variable pg : server.
Variable env : process_env.

(** [process.env.RRC_CLIENTS_TABLE || "rrc_clients"] *)
Definition DEFAULT_TABLE : string :=
  match RRC_CLIENTS_TABLE env with
  | Some s => if String.eqb s "" then "rrc_clients" else s
  | None => "rrc_clients"
  end.

Definition isValidIdentifier (name : value) : completion bool :=
  s ← ToString Number_toString name; mret (test identifier s).

(** [tableName && isValidIdentifier(tableName) ? tableName : DEFAULT_TABLE] *)
Definition targetTable (tableName : value) : completion value :=
  if truthy tableName then
    valid ← isValidIdentifier tableName;
    mret (if valid : bool then tableName else Str DEFAULT_TABLE)
  else mret (Str DEFAULT_TABLE).

(** *** [src/server.js]: four columns, DELETE, trimmed strings *)

(** The text of the receiver in [(row.name || "").toString()]. *)
Definition receiver (name : string) : string :=
  "(row." +:+ name +:+ " || " +:+ quote +:+ quote +:+ ")".

(** [(row.name || "").toString().trim()] *)
Definition sanitized (row : value) (name : string) : completion value :=
  v ← get row name;
  s ← toString_method Number_toString (receiver name) (or_else v (Str ""));
  mret (Str (trim s)).

Definition sanitized_row (row : value) (idx : nat) (acc : list (list nat) * list value)
  : completion (list (list nat) * list value) :=
  let '(valuePlaceholders, values) := acc in
  let base := idx * 4 in
  let valuePlaceholders := valuePlaceholders ++ [[base + 1; base + 2; base + 3; base + 4]] in
  code ← sanitized row "code";
  name ← sanitized row "name";
  address ← sanitized row "address";
  branch ← sanitized row "branch";
  mret (valuePlaceholders, values ++ [code; name; address; branch]).

Definition sync_server_js (req : request) : io unit :=
  let data := field "data" (body req) in
  let apiKey := field "apiKey" (body req) in
  let tableName := field "tableName" (body req) in
  if negb (strict_equals apiKey (env_value (API_KEY env))) then
    log warn ("Bad API key from " +:+ ip req);;
    respond 401 invalid_api_key
  else
    match data with
    | Arr data =>
        targetTable ← lift (targetTable tableName ≫= ToString Number_toString);
        log info ("Sync received " +:+ decimal (length data) +:+ " records for table "
                  +:+ quote +:+ targetTable +:+ quote);;
        connect pg;;
        try_catch_finally
          (query Number_toString pg BEGIN;;
           query Number_toString pg (DELETE_FROM targetTable);;
           log info ("Cleared existing data from table " +:+ quote +:+ targetTable +:+ quote);;
           inserted ← for_loop (length data) 500 (Nat.lt_0_succ 499)
             (λ i inserted,
                let chunk := slice data i (i + 500) in
                '(valuePlaceholders, values) ← lift (forEach sanitized_row chunk 0 ([], []));
                query Number_toString pg
                  (INSERT_INTO targetTable narrow_columns valuePlaceholders values);;
                mret (inserted + length chunk)) 0 0;
           query Number_toString pg COMMIT;;
           log info ("Sync complete: inserted " +:+ decimal inserted +:+ " rows into "
                     +:+ targetTable);;
           respond 200 (succeeded inserted))
          (λ message,
             query Number_toString pg ROLLBACK;;
             log error ("Sync failed: " +:+ message);;
             respond 500 (failed message))
          release
    | _ =>
        log warn "Sync request missing data array";;
        respond 400 invalid_data_format
    end.

(** *** [src/unnamed/part_000], first file: twenty columns, DELETE, coercion
    by column *)

Definition coerce (col : string) (v : value) : completion value :=
  let value := if strict_equals v Undefined then Null else v in
  if negb (strict_equals value Null) && String.eqb col "installationdate" then
    mret value
  else if negb (strict_equals value Null) && includes ["amcamt"] col then
    if typeof_number value then mret value
    else if strict_equals value Null || strict_equals value (Str "") then mret Null
    else s ← ToString Number_toString value; mret (or_else (Num (parseFloat s)) Null)
  else if negb (strict_equals value Null) && includes ["priorty"; "clients"; "sp"] col then
    if typeof_number value then mret value
    else if strict_equals value Null || strict_equals value (Str "") then mret Null
    else s ← ToString Number_toString value; mret (or_else (Num (parseInt s)) Null)
  else if negb (strict_equals value Null) then
    s ← toString_method Number_toString "value" value;
    let value := Str (trim s) in
    mret (if strict_equals value (Str "") then Null else value)
  else mret value.

Definition coerced_column (row : value) (col : string) (_ : nat)
    (acc : nat * list nat * list value) : completion (nat * list nat * list value) :=
  let '(placeholderCounter, rowPlaceholders, values) := acc in
  v ← get row col;
  value ← coerce col v;
  mret (placeholderCounter + 1, rowPlaceholders ++ [placeholderCounter], values ++ [value]).

Definition coerced_row (row : value) (_ : nat) (acc : nat * list (list nat) * list value)
  : completion (nat * list (list nat) * list value) :=
  let '(placeholderCounter, valuePlaceholders, values) := acc in
  '(placeholderCounter, rowPlaceholders, values) ←
    forEach (coerced_column row) wide_columns 0 (placeholderCounter, [], values);
  mret (placeholderCounter, valuePlaceholders ++ [rowPlaceholders], values).

Definition sync_wide (req : request) : io unit :=
  let data := field "data" (body req) in
  let apiKey := field "apiKey" (body req) in
  let tableName := field "tableName" (body req) in
  if negb (strict_equals apiKey (env_value (API_KEY env))) then
    log warn ("Bad API key from " +:+ ip req);;
    respond 401 invalid_api_key
  else
    match data with
    | Arr data =>
        targetTable ← lift (targetTable tableName ≫= ToString Number_toString);
        log info ("Sync received " +:+ decimal (length data) +:+ " records for table "
                  +:+ quote +:+ targetTable +:+ quote);;
        connect pg;;
        try_catch_finally
          (query Number_toString pg BEGIN;;
           query Number_toString pg (DELETE_FROM targetTable);;
           log info ("Cleared existing data from table " +:+ quote +:+ targetTable +:+ quote);;
           inserted ← for_loop (length data) 100 (Nat.lt_0_succ 99)
             (λ i inserted,
                let chunk := slice data i (i + 100) in
                '(_, valuePlaceholders, values) ←
                  lift (forEach coerced_row chunk 0 (1, [], []));
                query Number_toString pg
                  (INSERT_INTO targetTable wide_columns valuePlaceholders values);;
                log info ("Inserted batch " +:+ decimal (i / 100 + 1) +:+ ": "
                          +:+ decimal (length chunk) +:+ " rows");;
                mret (inserted + length chunk)) 0 0;
           query Number_toString pg COMMIT;;
           log info ("Sync complete: inserted " +:+ decimal inserted +:+ " rows into "
                     +:+ targetTable);;
           respond 200 (succeeded inserted))
          (λ message,
             query Number_toString pg ROLLBACK;;
             log error ("Sync failed: " +:+ message);;
             respond 500 (failed message))
          release
    | _ =>
        log warn "Sync request missing data array";;
        respond 400 invalid_data_format
    end.

(** *** [src/unnamed/part_000], second file: four columns, TRUNCATE on
    request, values as received *)

Definition raw_row (row : value) (idx : nat) (acc : list (list nat) * list value)
  : completion (list (list nat) * list value) :=
  let '(valuePlaceholders, values) := acc in
  let base := idx * 4 in
  let valuePlaceholders := valuePlaceholders ++ [[base + 1; base + 2; base + 3; base + 4]] in
  code ← get row "code";
  name ← get row "name";
  address ← get row "address";
  branch ← get row "branch";
  mret (valuePlaceholders, values ++ [code; name; address; branch]).

Definition sync_truncateFirst (req : request) : io unit :=
  let data := field "data" (body req) in
  let apiKey := field "apiKey" (body req) in
  let tableName := field "tableName" (body req) in
  let truncateFirst :=
    let v := field "truncateFirst" (body req) in
    if strict_equals v Undefined then Bool false else v in
  if negb (strict_equals apiKey (env_value (API_KEY env))) then
    log warn ("Bad API key from " +:+ ip req);;
    respond 401 invalid_api_key
  else
    match data with
    | Arr data =>
        targetTable ← lift (targetTable tableName ≫= ToString Number_toString);
        log info ("Sync received " +:+ decimal (length data) +:+ " records for table "
                  +:+ quote +:+ targetTable +:+ quote);;
        connect pg;;
        try_catch_finally
          (query Number_toString pg BEGIN;;
           (if truthy truncateFirst then
              log info ("Truncating table " +:+ quote +:+ targetTable +:+ quote
                        +:+ " as requested");;
              query Number_toString pg (TRUNCATE targetTable)
            else mret tt);;
           inserted ← for_loop (length data) 500 (Nat.lt_0_succ 499)
             (λ i inserted,
                let chunk := slice data i (i + 500) in
                '(valuePlaceholders, values) ← lift (forEach raw_row chunk 0 ([], []));
                query Number_toString pg
                  (INSERT_INTO targetTable narrow_columns valuePlaceholders values);;
                mret (inserted + length chunk)) 0 0;
           query Number_toString pg COMMIT;;
           log info ("Sync complete: inserted " +:+ decimal inserted +:+ " rows into "
                     +:+ targetTable);;
           respond 200 (succeeded inserted))
          (λ message,
             query Number_toString pg ROLLBACK;;
             log error ("Sync failed: " +:+ message);;
             respond 500 (failed message))
          release
    | _ =>
        log warn "Sync request missing data array";;
        respond 400 invalid_data_format
    end.

(** *** [src/unnamed/part_001]: four columns, TRUNCATE of [rrc_clients],
    values as received *)

Definition sync_truncate (req : request) : io unit :=
  let data := field "data" (body req) in
  let apiKey := field "apiKey" (body req) in
  if negb (strict_equals apiKey (env_value (API_KEY env))) then
    log warn ("Bad API key from " +:+ ip req);;
    respond 401 invalid_api_key
  else
    match data with
    | Arr data =>
        log info ("Sync received " +:+ decimal (length data) +:+ " records");;
        connect pg;;
        try_catch_finally
          (query Number_toString pg BEGIN;;
           query Number_toString pg (TRUNCATE "rrc_clients");;
           inserted ← for_loop (length data) 500 (Nat.lt_0_succ 499)
             (λ i inserted,
                let chunk := slice data i (i + 500) in
                '(valuePlaceholders, values) ← lift (forEach raw_row chunk 0 ([], []));
                query Number_toString pg
                  (INSERT_INTO "rrc_clients" narrow_columns valuePlaceholders values);;
                mret (inserted + length chunk)) 0 0;
           query Number_toString pg COMMIT;;
           log info ("Sync complete: inserted " +:+ decimal inserted +:+ " rows");;
           respond 200 (succeeded inserted))
          (λ message,
             query Number_toString pg ROLLBACK;;
             log error ("Sync failed: " +:+ message);;
             respond 500 (failed message))
          release
    | _ =>
        log warn "Sync request missing data array";;
        respond 400 invalid_data_format
    end.

(** The four revisions of the endpoint. *)
Inductive revision := ServerJs | Wide | TruncateFirst | TruncateAlways.

Definition sync (r : revision) : request -> io unit :=
  match r with
  | ServerJs => sync_server_js
  | Wide => sync_wide
  | TruncateFirst => sync_truncateFirst
  | TruncateAlways => sync_truncate
  end.

(** *** Around the handler

    [src/server.js] and the wide revision end with an error-handling
    middleware; the two other files have none. *)

Definition error_middleware (message : string) : io unit :=
  log error ("Unhandled error: " +:+ message);;
  respond 500 internal_server_error.

Definition has_error_middleware (r : revision) : bool :=
  match r with ServerJs | Wide => true | _ => false end.

(** What becomes of a handler whose promise rejects is the framework's
    business, and no file says which framework it runs on: Express 4 does
    nothing with the rejection, so that the request gets no answer;
    Express 5 passes the error on, to the error-handling middleware where
    there is one, and else to its own handler, which answers 500 with a
    page of its own. *)
Inductive express := Express4 | Express5.

Definition app_post (version : express) (r : revision) (req : request) : io unit := λ d,
  match sync r req d with
  | (Throw msg, d1, e1) =>
      match version with
      | Express4 => (Throw msg, d1, e1)
      | Express5 =>
          let '(c, d2, e2) :=
            (if has_error_middleware r then error_middleware msg else emit (Page 500)) d1 in
          (c, d2, e1 ++ e2)
      end
  | run => run
  end.

(** *** The shape the four revisions share

    Past the two checks every revision announces the request, takes a
    connection and, inside a transaction, clears the table (or not),
    inserts chunk after chunk, commits and answers; it differs in the
    table, the columns, the chunk size, what a record contributes to the
    parameters, and the log lines. *)

Inductive clearing_mode := delete_all | truncate.

Record plan := {
  table : string;
  columns : list string;
  chunkSize : nat;
  row_values : value -> completion (list value);
  announce : string;
  clearing : option (list string * clearing_mode * list string);
  batch_lines : nat -> nat -> list string;
  done_line : nat -> string
}.

Definition insert_statement (p : plan) (rows : list (list value)) : statement :=
  INSERT_INTO (table p) (columns p)
    (Spec.placeholders (length rows) (length (columns p))) (concat rows).

Definition insert_chunk (p : plan) (i : nat) (chunk : list value) (inserted : nat) : io nat :=
  rows ← lift (mapM (row_values p) chunk);
  query Number_toString pg (insert_statement p rows);;
  lines (batch_lines p i (length chunk));;
  mret (inserted + length chunk).

Definition each_chunk (p : plan) : nat -> list (list value) -> nat -> io nat :=
  for_each_chunk (chunkSize p) (insert_chunk p).

Definition clear_statement (p : plan) (m : clearing_mode) : statement :=
  match m with
  | delete_all => DELETE_FROM (table p)
  | truncate => TRUNCATE (table p)
  end.

Definition clear (p : plan) : io unit :=
  match clearing p with
  | Some (before, m, after) =>
      lines before;; query Number_toString pg (clear_statement p m);; lines after
  | None => mret tt
  end.

(** The [try] block up to the COMMIT. *)
Definition attempt (p : plan) (data : list value) : io nat :=
  query Number_toString pg BEGIN;;
  clear p;;
  each_chunk p 0 (Spec.chunks (chunkSize p) data) 0.

Definition run_plan (p : plan) (data : list value) : io unit :=
  log info (announce p);;
  connect pg;;
  try_catch_finally
    (inserted ← attempt p data;
     query Number_toString pg COMMIT;;
     log info (done_line p inserted);;
     respond 200 (succeeded inserted))
    (λ message,
       query Number_toString pg ROLLBACK;;
       log error ("Sync failed: " +:+ message);;
       respond 500 (failed message))
    release.

(** Where the [catch] block and the [finally] after it lead, entered with
    the error [message] after [events]. *)
Definition rolled_back (message : string) (d : database) (events : list event)
  : completion unit * database * list event :=
  match refusal pg ROLLBACK with
  | None =>
      (Normal tt, aborted d,
       events ++ [Query ROLLBACK None; Log error ("Sync failed: " +:+ message);
                  Respond 500 (failed message); Release])
  | Some msg => (Throw msg, aborted d, events ++ [Query ROLLBACK (Some msg); Release])
  end.

Definition sanitized_values (row : value) : completion (list value) :=
  code ← sanitized row "code";
  name ← sanitized row "name";
  address ← sanitized row "address";
  branch ← sanitized row "branch";
  mret [code; name; address; branch].

Definition coerced_values (row : value) : completion (list value) :=
  mapM (λ col, get row col ≫= coerce col) wide_columns.

Definition raw_values (row : value) : completion (list value) :=
  code ← get row "code";
  name ← get row "name";
  address ← get row "address";
  branch ← get row "branch";
  mret [code; name; address; branch].

(** [const { truncateFirst = false } = req.body] *)
Definition truncateFirst (req : request) : value :=
  let v := field "truncateFirst" (body req) in
  if strict_equals v Undefined then Bool false else v.

(** The table a revision writes to: the resolved [tableName], or
    [rrc_clients] where the request cannot choose. *)
Definition resolved (r : revision) (req : request) : completion string :=
  match r with
  | TruncateAlways => Normal "rrc_clients"
  | _ => targetTable (field "tableName" (body req)) ≫= ToString Number_toString
  end.

(** The columns parsed as numbers by [coerce], with their parser. *)
Definition numeric_parser (col : string) : option (string -> number) :=
  if includes ["amcamt"] col then Some parseFloat
  else if includes ["priorty"; "clients"; "sp"] col then Some parseInt
  else None.

(** The columns [coerce] converts to trimmed strings. *)
Definition string_column (col : string) : bool :=
  negb (includes ["installationdate"; "amcamt"; "priorty"; "clients"; "sp"] col).

(** Whether a revision clears the table for this request. *)
Definition clears (r : revision) (req : request) : bool :=
  match r with
  | TruncateFirst => truthy (truncateFirst req)
  | _ => true
  end.

(** What a record contributes to the parameters, by revision. *)
Definition values_of (r : revision) : value -> completion (list value) :=
  match r with
  | ServerJs => sanitized_values
  | Wide => coerced_values
  | _ => raw_values
  end.

Definition columns_of (r : revision) : list string :=
  match r with Wide => wide_columns | _ => narrow_columns end.

Definition chunkSize_of (r : revision) : nat :=
  match r with Wide => 100 | _ => 500 end.

Definition received (r : revision) (n : nat) (t : string) : string :=
  match r with
  | TruncateAlways => "Sync received " +:+ decimal n +:+ " records"
  | _ => "Sync received " +:+ decimal n +:+ " records for table " +:+ quote +:+ t +:+ quote
  end.

Definition complete (r : revision) (t : string) (inserted : nat) : string :=
  match r with
  | TruncateAlways => "Sync complete: inserted " +:+ decimal inserted +:+ " rows"
  | _ => "Sync complete: inserted " +:+ decimal inserted +:+ " rows into " +:+ t
  end.

Definition plan_of (r : revision) (req : request) (t : string) (n : nat) : plan :=
  {| table := t;
     columns := columns_of r;
     chunkSize := chunkSize_of r;
     row_values := values_of r;
     announce := received r n t;
     clearing :=
       match r with
       | ServerJs | Wide =>
           Some ([], delete_all,
                 ["Cleared existing data from table " +:+ quote +:+ t +:+ quote])
       | TruncateFirst =>
           if truthy (truncateFirst req) then
             Some (["Truncating table " +:+ quote +:+ t +:+ quote +:+ " as requested"],
                   truncate, [])
           else None
       | TruncateAlways => Some ([], truncate, [])
       end;
     batch_lines :=
       match r with
       | Wide => λ i n, ["Inserted batch " +:+ decimal (i / 100 + 1) +:+ ": "
                        +:+ decimal n +:+ " rows"]
       | _ => λ _ _, []
       end;
     done_line := complete r t |}.

(** The endpoint, read through the common shape. *)
Definition sync_as_planned (r : revision) (req : request) : io unit :=
  if negb (strict_equals (field "apiKey" (body req)) (env_value (API_KEY env))) then
    log warn ("Bad API key from " +:+ ip req);;
    respond 401 invalid_api_key
  else
    match field "data" (body req) with
    | Arr data =>
        t ← lift (resolved r req);
        run_plan (plan_of r req t (length data)) data
    | _ =>
        log warn "Sync request missing data array";;
        respond 400 invalid_data_format
    end.

End Server.

(** The statement a revision clears table [t] with for this request, if
    it does. *)
Definition cleared_with (r : revision) (req : request) (t : string) : list statement :=
  if clears r req then
    [match r with ServerJs | Wide => DELETE_FROM t | _ => TRUNCATE t end]
  else [].

End Sync.

(** ** Reading the record of a request *)

Module Observe.
Import JS Pg Http.

(** The three parts of a run. *)
Definition completion_of {A} (run : completion A * database * list event) : completion A :=
  run.1.1.
Definition database_after {A} (run : completion A * database * list event) : database :=
  run.1.2.
Definition events_of {A} (run : completion A * database * list event) : list event :=
  run.2.

Definition failure_of (e : event) : option string :=
  match e with Query _ failure => failure | _ => None end.

(** The messages of the statements that failed. *)
Definition failures (events : list event) : list string := omap failure_of events.

Definition statement_of (e : event) : option statement :=
  match e with Query q _ => Some q | _ => None end.

(** The statements sent, in order. *)
Definition statements (events : list event) : list statement := omap statement_of events.

Definition is_insert (q : statement) : bool :=
  match q with INSERT_INTO _ _ _ _ => true | _ => false end.

Definition is_clearing (q : statement) : bool :=
  match q with DELETE_FROM _ | TRUNCATE _ => true | _ => false end.

Definition inserts (events : list event) : list statement :=
  filter (λ q, is_insert q = true) (statements events).

Definition response_of (e : event) : option (nat * reply) :=
  match e with Respond status body => Some (status, body) | _ => None end.

(** The responses sent (at most one), with their status. *)
Definition responses (events : list event) : list (nat * reply) := omap response_of events.

Definition touches_pool (e : event) : bool :=
  match e with Connect | Release | Query _ _ | Unavailable _ => true | _ => false end.

(** The status of every answer sent, by the application or by the
    framework. *)
Definition status_of (e : event) : option nat :=
  match e with Respond status _ | Page status => Some status | _ => None end.

Definition answers (events : list event) : list nat := omap status_of events.

(** What the [try] block may do before its COMMIT: log, and send
    statements other than COMMIT and ROLLBACK. *)
Definition inside (e : event) : Prop :=
  match e with
  | Log _ _ => True
  | Query q _ => q ≠ COMMIT ∧ q ≠ ROLLBACK
  | _ => False
  end.

(** The table a statement names, if it names one. *)
Definition table_of (q : statement) : option string :=
  match q with
  | DELETE_FROM table | TRUNCATE table | INSERT_INTO table _ _ _ => Some table
  | _ => None
  end.

(** The rows and the parameters of an INSERT. *)
Definition rows_of (q : statement) : nat :=
  match q with INSERT_INTO _ _ valuePlaceholders _ => length valuePlaceholders | _ => 0 end.

Definition parameters_of (q : statement) : nat :=
  match q with INSERT_INTO _ _ _ values => length values | _ => 0 end.

(** [row.name] where a record that has no properties gives [undefined]. *)
Definition property (row : value) (name : string) : value :=
  match get row name with Normal v => v | Throw _ => Undefined end.

(** The lines logged, with their level. *)
Definition line_of (e : event) : option (level * string) :=
  match e with Log l line => Some (l, line) | _ => None end.

Definition logged (events : list event) : list (level * string) := omap line_of events.

(** What a request does to the pool and to its caller, the log left
    aside. *)
Definition is_log (e : event) : bool :=
  match e with Log _ _ => true | _ => false end.

Definition quiet (events : list event) : list event :=
  filter (λ e, is_log e = false) events.

(** No white space is left to trim at either end. *)
Definition trimmed (s : string) : Prop := trimStart s = s ∧ trimEnd s = s.

End Observe.

(** ** A deployment to run the endpoint on *)

Module Example.
Import JS Pg Http Sync Observe.

(** *** Number::toString, radix 10

    For a finite [x] other than zero the engine takes the integers [n],
    [k] and [s] with [k] as small as possible such that [s] has [k]
    digits and [s * 10 ^ (n - k)] is a decimal that reads back as [x]; of
    several such [s] the one nearest to [x], the even one of two equally
    near. It then writes the digits of [s] plainly when [-6 < n <= 21] and
    with an exponent otherwise. *)

(** The value of a positive finite Number, as a fraction. *)
Definition fraction_of (m : positive) (e : Z) : Z * Z :=
  if (0 <=? e)%Z then (Z.pos m * 2 ^ e, 1)%Z else (Z.pos m, 2 ^ (- e))%Z.

(** A fraction times [10 ^ n], for [n] of either sign. *)
Definition times_power_of_ten (f : Z * Z) (n : Z) : Z * Z :=
  let '(num, den) := f in
  if (0 <=? n)%Z then (num * 10 ^ n, den)%Z else (num, den * 10 ^ (- n))%Z.

Definition below_power_of_ten (f : Z * Z) (n : Z) : bool :=
  let '(num, den) := times_power_of_ten f (- n) in (num <? den)%Z.

Fixpoint up_to_magnitude (fuel : nat) (f : Z * Z) (n : Z) : Z :=
  match fuel with
  | O => n
  | S fuel' => if below_power_of_ten f n then n else up_to_magnitude fuel' f (n + 1)
  end.

Fixpoint down_to_magnitude (fuel : nat) (f : Z * Z) (n : Z) : Z :=
  match fuel with
  | O => n
  | S fuel' =>
      if below_power_of_ten f (n - 1) then down_to_magnitude fuel' f (n - 1) else n
  end.

(** The [n] with [10 ^ (n - 1) <= f < 10 ^ n], looked for from an estimate
    by the binary logarithm. *)
Definition magnitude (f : Z * Z) : Z :=
  let '(num, den) := f in
  let estimate := ((Z.log2 num - Z.log2 den) * 30103 / 100000)%Z in
  down_to_magnitude 700 f (up_to_magnitude 700 f estimate).

(** The decimals of [k] digits next to [f] on either side, the nearer first
    (of two equally near the even one), each with its [n]. *)
Definition neighbours (f : Z * Z) (n k : Z) : list (Z * Z) :=
  let '(num, den) := times_power_of_ten f (k - n) in
  let low := (num / den)%Z in
  let high := (low + 1)%Z in
  let below := (low, n) in
  let above := if (high =? 10 ^ k)%Z then (10 ^ (k - 1), n + 1)%Z else (high, n) in
  if (num mod den =? 0)%Z then [below]
  else
    match (2 * num ?= (low + high) * den)%Z with
    | Lt => [below; above]
    | Gt => [above; below]
    | Eq => if Z.even low then [below; above] else [above; below]
    end.

Definition reads_back (x : number) (k : Z) (candidate : Z * Z) : bool :=
  let '(s, n) := candidate in SFeqb (round_decimal false s (n - k)) x.

Fixpoint shortest (fuel : nat) (x : number) (f : Z * Z) (n k : Z) : Z * Z * Z :=
  match fuel with
  | O => (0, 0, k)%Z
  | S fuel' =>
      match List.filter (reads_back x k) (neighbours f n k) with
      | (s, n') :: _ => (s, n', k)
      | [] => shortest fuel' x f n (k + 1)
      end
  end.

Definition digits_of (z : Z) : string := NilZero.string_of_int (Z.to_int z).

Fixpoint zeros (n : nat) : string :=
  match n with
  | O => ""
  | S n' => String "0" (zeros n')
  end.

Definition exponent_of (n : Z) : string :=
  (if (n - 1 <? 0)%Z then "-" else "+") +:+ digits_of (Z.abs (n - 1)).

Definition notation (s n k : Z) : string :=
  let d := digits_of s in
  if ((k <=? n) && (n <=? 21))%Z then d +:+ zeros (Z.to_nat (n - k))
  else if ((0 <? n) && (n <=? 21))%Z then
    String.substring 0 (Z.to_nat n) d +:+ "." +:+
    String.substring (Z.to_nat n) (Z.to_nat (k - n)) d
  else if ((-6 <? n) && (n <=? 0))%Z then "0." +:+ zeros (Z.to_nat (- n)) +:+ d
  else if (k =? 1)%Z then d +:+ "e" +:+ exponent_of n
  else
    String.substring 0 1 d +:+ "." +:+ String.substring 1 (Z.to_nat (k - 1)) d
    +:+ "e" +:+ exponent_of n.

Definition Number_toString (x : number) : string :=
  match x with
  | S754_nan => "NaN"
  | S754_zero _ => "0"
  | S754_infinity false => "Infinity"
  | S754_infinity true => "-Infinity"
  | S754_finite negative m e =>
      let f := fraction_of m e in
      let '(s, n, k) := shortest 20 (S754_finite false m e) f (magnitude f) 1 in
      (if negative then "-" else "") +:+ notation s n k
  end.

(** A name as the server reads it when it is not quoted: in lower case,
    cut at 63 bytes. *)
Definition to_lower (c : ascii) : ascii :=
  let n := nat_of_ascii c in
  if ((65 <=? n) && (n <=? 90))%nat then ascii_of_nat (n + 32) else c.

Fixpoint lower_case (s : string) : string :=
  match s with
  | EmptyString => ""
  | String c rest => String (to_lower c) (lower_case rest)
  end.

Definition folded (name : string) : string := String.substring 0 63 (lower_case name).

Definition code_is_null_in (table : string) : string :=
  "null value in column " +:+ quote +:+ "code" +:+ quote +:+ " of relation " +:+ quote
  +:+ table +:+ quote +:+ " violates not-null constraint".

Definition code_is_null : string := code_is_null_in "rrc_clients".

Definition connection_lost : string := "Connection terminated unexpectedly".

(** A server that refuses nothing, over a schema without constraints, and
    one whose tables have a first column that is NOT NULL. *)
Definition unconstrained : server :=
  {| connecting := None;
     refusal := λ _, None;
     relation := folded;
     violation := λ _ _ _, None |}.

Definition code_not_null : server :=
  {| connecting := None;
     refusal := λ _, None;
     relation := folded;
     violation := λ table _ new,
       if forallb (λ r : row, match r with Null :: _ => false | _ => true end) new then None
       else Some (code_is_null_in table) |}.

(** A connection that is lost once the transaction has begun, one that is
    lost after the first failure, a server that does not begin a
    transaction, and a pool that has no connection to give. *)
Definition lost_connection : server :=
  {| connecting := None;
     refusal := λ q, match q with BEGIN => None | _ => Some connection_lost end;
     relation := folded;
     violation := λ _ _ _, None |}.

Definition lost_at_rollback : server :=
  {| connecting := None;
     refusal := λ q, match q with ROLLBACK => Some connection_lost | _ => None end;
     relation := folded;
     violation := violation code_not_null |}.

Definition refusing_begin : server :=
  {| connecting := None;
     refusal := λ q, match q with BEGIN => Some connection_lost | _ => None end;
     relation := folded;
     violation := λ _ _ _, None |}.

Definition exhausted_pool : server :=
  {| connecting := Some "timeout exceeded when trying to connect";
     refusal := λ _, None;
     relation := folded;
     violation := λ _ _ _, None |}.

Definition env : process_env :=
  {| API_KEY := Some "secret"; RRC_CLIENTS_TABLE := None |}.

Definition env_without_secret : process_env :=
  {| API_KEY := None; RRC_CLIENTS_TABLE := None |}.

(** One table, holding a row of an earlier sync. *)
Definition db : database :=
  {| committed := {[ "rrc_clients" := [[Str "0"; Str "Old"; Str "Y"; Str "C"]] ]};
     transaction := None |}.

Definition record : value :=
  Obj [("code", Str "1"); ("name", Str "  Acme  "); ("address", Str "X"); ("branch", Str "B")].

Definition request_of (fields : list (string * value)) : request :=
  {| ip := "10.0.0.7"; body := fields |}.

Definition one_record : request :=
  request_of [("data", Arr [record]); ("apiKey", Str "secret")].

Definition one_record_truncating : request :=
  request_of [("data", Arr [record]); ("apiKey", Str "secret"); ("truncateFirst", Bool true)].

Definition many_records : request :=
  request_of [("data", Arr (replicate 1234 record)); ("apiKey", Str "secret")].

Definition no_key : request := request_of [("data", Str "not an array")].

Definition only_data : request := request_of [("data", Arr [record])].

Definition wrong_key : request :=
  request_of [("data", Arr [record]); ("apiKey", Str "Secret")].

Definition not_an_array : request :=
  request_of [("data", Obj [("0", record)]); ("apiKey", Str "secret")].

Definition codeless : value := Obj [("code", Null); ("name", Str "N")].

Definition codeless_record : request :=
  request_of [("data", Arr [record; codeless]); ("apiKey", Str "secret")].

Definition nameless : value := Obj [("code", Str "7")].

Definition textless_priority : request :=
  request_of [("data", Arr [Obj [("code", Str "1"); ("priorty", Obj [("toString", Null)])]]);
              ("apiKey", Str "secret")].

Definition null_record : request :=
  request_of [("data", Arr [Null]); ("apiKey", Str "secret")].

Definition string_record : request :=
  request_of [("data", Arr [Str "row"]); ("apiKey", Str "secret")].

(** The revision with [truncateFirst], asked twice without the flag. *)
Definition first_sync : completion unit * database * list event :=
  sync Number_toString unconstrained env TruncateFirst one_record db.

Definition second_sync : completion unit * database * list event :=
  sync Number_toString unconstrained env TruncateFirst one_record (database_after first_sync).

(** An empty snapshot. *)
Definition empty_snapshot : request :=
  request_of [("data", Arr []); ("apiKey", Str "secret")].

(** A table name that has no string conversion. *)
Definition unprintable_table : request :=
  request_of [("data", Arr [record]); ("apiKey", Str "secret");
              ("tableName", Obj [("toString", Null)])].

(** The flag sent as the text "false". *)
Definition flag_as_text : request :=
  request_of [("data", Arr [record]); ("apiKey", Str "secret");
              ("truncateFirst", Str "false")].

Definition named_table : request :=
  request_of [("data", Arr [record]); ("apiKey", Str "secret");
              ("tableName", Str "clients_2024")].

(** The same table, named in capitals. *)
Definition capital_table : request :=
  request_of [("data", Arr [record]); ("apiKey", Str "secret");
              ("tableName", Str "RRC_Clients")].

(** Two tables, each holding a row. *)
Definition two_tables : database :=
  {| committed := {[ "rrc_clients" := [[Str "0"; Str "Old"; Str "Y"; Str "C"]];
                     "invoices" := [[Str "INV-1"]] ]};
     transaction := None |}.

(** A record of the wide revision with a date, and the parameters it gives. *)
Definition dated : value :=
  Obj [("code", Str "1"); ("installationdate", Str " 2024-01-01 ")].

Definition dated_values : list value :=
  [Str "1"; Null; Null; Null; Null; Null; Null; Null; Str " 2024-01-01 ";
   Null; Null; Null; Null; Null; Null; Null; Null; Null; Null; Null].

(** The INSERT of [record] and [codeless] in the revisions that take the
    fields as they are. *)
Definition refused_insert : statement :=
  INSERT_INTO "rrc_clients" narrow_columns (Spec.placeholders 2 4)
    [Str "1"; Str "  Acme  "; Str "X"; Str "B"; Null; Str "N"; Undefined; Undefined].

(** A record whose fields are not all strings. *)
Definition mixed_record : value :=
  Obj [("code", Num (Spec.of_Z 7)); ("name", Str "  Acme  "); ("branch", Bool true)].

Definition mixed_records : request :=
  request_of [("data", Arr [mixed_record; Str "row"]); ("apiKey", Str "secret")].

End Example.

(** * Properties *)

(** ** The matcher decides the words of a pattern *)

Section RegexFacts.
Import Regex.

Lemma app_nil (s : string) : "" +:+ s = s.
Proof. reflexivity. Qed.

Lemma app_cons (c : ascii) (s1 s2 : string) : String c s1 +:+ s2 = String c (s1 +:+ s2).
Proof. reflexivity. Qed.

Lemma app_eq_empty (s1 s2 : string) : s1 +:+ s2 = "" → s1 = "" ∧ s2 = "".
Proof. destruct s1; [rewrite app_nil; tauto | rewrite app_cons; discriminate]. Qed.

Lemma nullable_matches (r : regex) : nullable r = true ↔ matches r "".
Proof.
  induction r as [| |ranges|r1 IH1 r2 IH2|r1 IH1 r2 IH2|r IH]; simpl.
  - split; [discriminate | inversion 1].
  - split; [constructor | reflexivity].
  - split; [discriminate | inversion 1].
  - rewrite andb_true_iff, IH1, IH2. split.
    + intros [H1 H2]. apply (matches_seq _ _ "" "" H1 H2).
    + inversion 1 as [| |? ? s1 s2 H1 H2 E1 E2| | | |]; subst.
      apply app_eq_empty in E2 as [-> ->]. tauto.
  - rewrite orb_true_iff, IH1, IH2. split.
    + intros [H|H]; [by apply matches_alt_l | by apply matches_alt_r].
    + inversion 1; subst; tauto.
  - split; [constructor | reflexivity].
Qed.

Lemma derivative_matches (r : regex) (c : ascii) (s : string) :
  matches (derivative c r) s ↔ matches r (String c s).
Proof.
  revert s.
  induction r as [| |ranges|r1 IH1 r2 IH2|r1 IH1 r2 IH2|r IH]; intros s; simpl.
  - split; inversion 1.
  - split; inversion 1.
  - destruct (in_class ranges c) eqn:Hc; split.
    + inversion 1; subst. by constructor.
    + inversion 1; subst. constructor.
    + inversion 1.
    + inversion 1; subst. congruence.
  - assert (Hseq : ∀ s, matches (Seq (derivative c r1) r2) s → matches (Seq r1 r2) (String c s)).
    { intros s'. inversion 1 as [| |? ? s1 s2 H1 H2| | | |]; subst.
      apply IH1 in H1. apply (matches_seq _ _ (String c s1) s2 H1 H2). }
    assert (Hinv : matches (Seq r1 r2) (String c s) →
              matches (Seq (derivative c r1) r2) s ∨ (matches r1 "" ∧ matches r2 (String c s))).
    { inversion 1 as [| |? ? s1 s2 H1 H2 E1 E2| | | |]; subst.
      destruct s1 as [|c1 s1].
      - rewrite app_nil in E2. right. subst. tauto.
      - rewrite app_cons in E2. left. injection E2 as -> <-.
        apply matches_seq; [by apply IH1 | done]. }
    destruct (nullable r1) eqn:Hn; split.
    + inversion 1; subst; [by apply Hseq |].
      apply (matches_seq _ _ "" (String c s)); [by apply nullable_matches | by apply IH2].
    + intros H. apply Hinv in H as [H|[_ H]]; [by apply matches_alt_l |].
      apply matches_alt_r. by apply IH2.
    + apply Hseq.
    + intros H. apply Hinv in H as [H|[H _]]; [done |].
      apply nullable_matches in H. congruence.
  - split.
    + inversion 1; subst; [apply matches_alt_l; by apply IH1 | apply matches_alt_r; by apply IH2].
    + inversion 1; subst; [apply matches_alt_l; by apply IH1 | apply matches_alt_r; by apply IH2].
  - split.
    + inversion 1 as [| |? ? s1 s2 H1 H2| | | |]; subst.
      apply IH in H1. apply (matches_star_cons _ _ _ _ H1 H2).
    + inversion 1 as [| | | | | |? c' s1 s2 H1 H2]; subst.
      apply matches_seq; [by apply IH | done].
Qed.

Lemma test_matches (r : regex) (s : string) : test r s = true ↔ matches r s.
Proof.
  revert r. induction s as [|c s IH]; intros r; simpl.
  - apply nullable_matches.
  - rewrite IH. apply derivative_matches.
Qed.

Lemma matches_star_class (ranges : list (ascii * ascii)) (s : string) :
  matches (Star (Class ranges)) s ↔ Spec.all_chars (in_class ranges) s = true.
Proof.
  split.
  - remember (Star (Class ranges)) as r eqn:Er. induction 1; try discriminate.
    + reflexivity.
    + injection Er as ->. match goal with H : matches (Class _) _ |- _ => inversion H; subst end.
      simpl. rewrite andb_true_iff. auto.
  - induction s as [|c s IH]; simpl; [constructor |].
    rewrite andb_true_iff. intros [Hc Hs].
    apply (matches_star_cons _ c "" s); [by constructor | auto].
Qed.

Lemma test_plus_class (ranges : list (ascii * ascii)) (s : string) :
  test (Plus (Class ranges)) s = negb (String.eqb s "") && Spec.all_chars (in_class ranges) s.
Proof.
  apply eq_true_iff_eq. rewrite test_matches, andb_true_iff, <- matches_star_class. unfold Plus.
  split.
  - inversion 1 as [| |? ? s1 s2 H1 H2| | | |]; subst. inversion H1; subst.
    rewrite app_cons, app_nil. split; [done |].
    apply (matches_star_cons _ c "" s2); [done | done].
  - intros [Hne H]. destruct s as [|c s]; [discriminate |].
    inversion H as [| | | | | |? c' s1 s2 H1 H2]; subst.
    inversion H1; subst. apply (matches_seq _ _ (String c "") s2); [done | done].
Qed.

Lemma identifier_class (c : ascii) :
  in_class [("a", "z"); ("A", "Z"); ("0", "9"); ("_", "_")]%char c = Spec.word_char c.
Proof. destruct c as [[] [] [] [] [] [] [] []]; reflexivity. Qed.

Lemma all_chars_ext (p q : ascii → bool) (s : string) :
  (∀ c, p c = q c) → Spec.all_chars p s = Spec.all_chars q s.
Proof. intros E. induction s as [|c s IH]; simpl; [done | by rewrite E, IH]. Qed.

Lemma test_identifier (s : string) : test Sync.identifier s = Spec.allowed s.
Proof.
  unfold Sync.identifier, Spec.allowed. rewrite test_plus_class.
  f_equal. apply all_chars_ext, identifier_class.
Qed.

End RegexFacts.

(** ** Loops, chunks and statements *)

Section LoopFacts.
Import JS Pg Http.

Lemma for_loop_unfold {T} (n step : nat) (pos : 0 < step) (body : nat → T → io T)
    (i : nat) (s : T) (d : database) :
  for_loop n step pos body i s d =
  if decide (i < n) then (s' ← body i s; for_loop n step pos body (i + step) s') d
  else (Normal s, d, []).
Proof.
  rewrite for_loop_equation_1. destruct (lt_dec i n) as [Hlt|Hge].
  - rewrite decide_True by done. reflexivity.
  - rewrite decide_False by done. reflexivity.
Qed.

Lemma chunks_upto_enough {A} (fuel n : nat) (l : list A) :
  0 < n → length l ≤ fuel → Spec.chunks_upto fuel n l = Spec.chunks n l.
Proof.
  intros Hn. unfold Spec.chunks. revert l.
  induction fuel as [fuel IH] using lt_wf_ind. intros l Hl.
  destruct l as [|x l]; [by destruct fuel |].
  destruct fuel as [|fuel]; [cbn [length] in Hl; lia |].
  cbn [length Spec.chunks_upto]. f_equal.
  assert (Hd : length (drop n (x :: l)) ≤ length l).
  { rewrite length_drop. cbn [length]. lia. }
  rewrite (IH fuel) by (cbn [length] in *; lia).
  symmetry. apply IH; [cbn [length] in *; lia | done].
Qed.

Lemma chunks_cons {A} (n : nat) (l : list A) :
  0 < n → l ≠ [] → Spec.chunks n l = take n l :: Spec.chunks n (drop n l).
Proof.
  intros Hn Hl. destruct l as [|x l]; [done |].
  unfold Spec.chunks at 1. cbn [length Spec.chunks_upto]. f_equal.
  apply chunks_upto_enough; [done |]. rewrite length_drop. cbn [length]. lia.
Qed.

Lemma concat_chunks {A} (n : nat) (l : list A) : 0 < n → concat (Spec.chunks n l) = l.
Proof.
  intros Hn. induction l as [l IH] using (induction_ltof1 _ (@length A)). unfold ltof in IH.
  destruct (decide (l = [])) as [->|Hl]; [done |].
  rewrite chunks_cons by done. simpl. rewrite IH, take_drop; [done |].
  rewrite length_drop. destruct l; [done | cbn [length]; lia].
Qed.

Lemma chunks_bounds {A} (n : nat) (l : list A) :
  0 < n → Forall (λ c, 0 < length c ≤ n) (Spec.chunks n l).
Proof.
  intros Hn. induction l as [l IH] using (induction_ltof1 _ (@length A)). unfold ltof in IH.
  destruct (decide (l = [])) as [->|Hl]; [constructor |].
  rewrite chunks_cons by done. constructor.
  - rewrite length_take. destruct l; [done | cbn [length]; lia].
  - apply IH. rewrite length_drop. destruct l; [done | cbn [length]; lia].
Qed.


(** The loop of the handlers visits the chunks of its input, in order. *)
Lemma for_loop_chunks {T} (data : list value) (step : nat) (pos : 0 < step)
    (body : nat → T → io T) (f : nat → list value → T → io T) :
  (∀ i s d, body i s d = f i (slice data i (i + step)) s d) →
  ∀ i s d,
    for_loop (length data) step pos body i s d =
    for_each_chunk step f i (Spec.chunks step (drop i data)) s d.
Proof.
  intros Hbody i. remember (length data - i) as k eqn:Ek. revert i Ek.
  induction k as [k IH] using lt_wf_ind. intros i Ek s d.
  rewrite for_loop_unfold. destruct (decide (i < length data)) as [Hlt|Hge].
  - rewrite chunks_cons; [|done|intros E; apply (f_equal length) in E;
      rewrite length_drop in E; cbn [length] in E; lia].
    rewrite drop_drop. cbn [for_each_chunk].
    unfold mbind, io_bind. rewrite Hbody. unfold slice. replace (i + step - i) with step by lia.
    destruct (f i (take step (drop i data)) s d) as [[[s'|msg] d1] e1]; [|done].
    rewrite (IH (length data - (i + step))) by lia. reflexivity.
  - rewrite drop_ge by lia. reflexivity.
Qed.

End LoopFacts.

(** ** The handlers follow the common shape *)

Section ShapeFacts.
Import JS Pg Http Sync.

Variable Number_toString : number → string.
Variable pg : server.
Variable env : process_env.

(** A callback that appends one row of placeholders and the values of its
    record makes [forEach] collect the rows of the chunk. *)
Lemma forEach_rows (f : value → nat → list (list nat) * list value →
                        completion (list (list nat) * list value))
    (g : value → completion (list value)) (ph : nat → list nat) :
  (∀ row idx vp vals,
     f row idx (vp, vals) = vs ← g row; mret (vp ++ [ph idx], vals ++ vs)) →
  ∀ chunk idx vp vals,
    forEach f chunk idx (vp, vals) =
    rows ← mapM g chunk; mret (vp ++ (ph <$> seq idx (length chunk)), vals ++ concat rows).
Proof.
  intros Hf chunk. induction chunk as [|row chunk IH]; intros idx vp vals.
  - cbn. by rewrite !app_nil_r.
  - cbn [forEach mapM length]. rewrite Hf.
    destruct (g row) as [vs|msg]; [|done]. cbn. rewrite IH.
    destruct (mapM g chunk) as [rows|msg]; [|done]. cbn.
    rewrite <- !app_assoc, Nat.add_1_r. reflexivity.
Qed.

Lemma sanitized_row_values (row : value) (idx : nat) (vp : list (list nat)) (vals : list value) :
  sanitized_row Number_toString row idx (vp, vals) =
  vs ← sanitized_values Number_toString row;
  mret (vp ++ [(λ k, idx * 4 + k + 1) <$> seq 0 4], vals ++ vs).
Proof.
  unfold sanitized_row, sanitized_values.
  destruct (sanitized _ row "code") as [code|msg]; [|done].
  destruct (sanitized _ row "name") as [name|msg]; [|done].
  destruct (sanitized _ row "address") as [address|msg]; [|done].
  destruct (sanitized _ row "branch") as [branch|msg]; [|done].
  cbn. repeat (f_equal; try lia).
Qed.

Lemma raw_row_values (row : value) (idx : nat) (vp : list (list nat)) (vals : list value) :
  raw_row row idx (vp, vals) =
  vs ← raw_values row;
  mret (vp ++ [(λ k, idx * 4 + k + 1) <$> seq 0 4], vals ++ vs).
Proof.
  unfold raw_row, raw_values.
  destruct (get row "code") as [code|msg]; [|done].
  destruct (get row "name") as [name|msg]; [|done].
  destruct (get row "address") as [address|msg]; [|done].
  destruct (get row "branch") as [branch|msg]; [|done].
  cbn. repeat (f_equal; try lia).
Qed.

Lemma coerced_column_value (row : value) (col : string) (idx counter : nat)
    (rp : list nat) (vals : list value) :
  coerced_column Number_toString row col idx (counter, rp, vals) =
  v ← get row col ≫= coerce Number_toString col;
  mret (counter + 1, rp ++ [counter], vals ++ [v]).
Proof.
  unfold coerced_column. destruct (get row col) as [v|msg]; [|done]. cbn.
  destruct (coerce _ col v) as [value|msg]; done.
Qed.

Lemma forEach_coerced_column (row : value) (cols : list string) (idx counter : nat)
    (rp : list nat) (vals : list value) :
  forEach (coerced_column Number_toString row) cols idx (counter, rp, vals) =
  vs ← mapM (λ col, get row col ≫= coerce Number_toString col) cols;
  mret (counter + length cols, rp ++ seq counter (length cols), vals ++ vs).
Proof.
  revert idx counter rp vals. induction cols as [|col cols IH]; intros idx counter rp vals.
  - cbn. by rewrite Nat.add_0_r, !app_nil_r.
  - cbn [forEach mapM length]. rewrite coerced_column_value.
    destruct (get row col ≫= coerce _ col) as [v|msg]; [|done]. cbn. rewrite IH.
    destruct (mapM _ cols) as [vs|msg]; [|done]. cbn.
    rewrite <- !app_assoc, Nat.add_1_r. repeat (f_equal; try lia).
Qed.

Lemma coerced_row_values (row : value) (idx counter : nat) (vp : list (list nat))
    (vals : list value) :
  coerced_row Number_toString row idx (counter, vp, vals) =
  vs ← coerced_values Number_toString row;
  mret (counter + length wide_columns, vp ++ [seq counter (length wide_columns)], vals ++ vs).
Proof.
  unfold coerced_row, coerced_values. rewrite forEach_coerced_column.
  destruct (mapM _ wide_columns) as [vs|msg]; [|done]. reflexivity.
Qed.

Lemma forEach_coerced_row (chunk : list value) (idx counter : nat) (vp : list (list nat))
    (vals : list value) :
  forEach (coerced_row Number_toString) chunk idx (counter, vp, vals) =
  rows ← mapM (coerced_values Number_toString) chunk;
  mret (counter + length wide_columns * length chunk,
        vp ++ ((λ r, seq (counter + length wide_columns * r) (length wide_columns))
                 <$> seq 0 (length chunk)),
        vals ++ concat rows).
Proof.
  generalize (length wide_columns) (coerced_row_values). intros w Hrow.
  revert idx counter vp vals. induction chunk as [|row chunk IH]; intros idx counter vp vals.
  - cbn. by rewrite Nat.mul_0_r, Nat.add_0_r, !app_nil_r.
  - cbn [forEach mapM length]. rewrite Hrow.
    destruct (coerced_values _ row) as [vs|msg]; [|done].
    unfold mbind, completion_bind, mret, completion_ret. cbn beta iota. rewrite IH.
    destruct (mapM _ chunk) as [rows|msg]; [|done].
    unfold mbind, completion_bind, mret, completion_ret.
    rewrite <- !app_assoc. cbn [concat seq fmap list_fmap app].
    rewrite <- fmap_S_seq, <- list_fmap_compose.
    replace (counter + w * 0) with counter by lia.
    replace (counter + w * S (length chunk)) with (counter + w + w * length chunk) by lia.
    do 5 f_equal. apply list_fmap_ext. intros _ r _. cbn [compose]. f_equal. lia.
Qed.

Lemma counted_placeholders (n : nat) :
  (λ r, seq (1 + length wide_columns * r) (length wide_columns)) <$> seq 0 n =
  Spec.placeholders n (length wide_columns).
Proof.
  unfold Spec.placeholders. apply list_fmap_ext. intros _ r _.
  generalize (length wide_columns). intros w.
  replace (seq (1 + w * r) w) with (seq (1 + w * r + 0) w) by (f_equal; lia).
  rewrite <- fmap_add_seq. apply list_fmap_ext. intros _ k _. lia.
Qed.

Lemma try_catch_finally_ext (body body' : io unit) (handler : string → io unit)
    (final : io unit) (d : database) :
  body d = body' d →
  try_catch_finally body handler final d = try_catch_finally body' handler final d.
Proof. unfold try_catch_finally. by intros ->. Qed.

Lemma bind_ext {A B} (m : io A) (f g : A → io B) (d : database) :
  (∀ a d', f a d' = g a d') → (m ≫= f) d = (m ≫= g) d.
Proof.
  intros E. unfold mbind, io_bind. destruct (m d) as [[[a|msg] d1] e1]; [|done]. by rewrite E.
Qed.

Lemma bind_assoc {A B C} (m : io A) (f : A → io B) (g : B → io C) (d : database) :
  ((m ≫= f) ≫= g) d = (m ≫= λ a, f a ≫= g) d.
Proof.
  unfold mbind, io_bind. destruct (m d) as [[[a|msg] d1] e1]; [|done].
  destruct (f a d1) as [[[b|msg] d2] e2]; [|done].
  destruct (g b d2) as [[r d3] e3]. by rewrite app_assoc.
Qed.

Lemma say_nil_bind {B} (k : io B) (d : database) : (say [];; k) d = k d.
Proof. unfold mbind, io_bind, say. by destruct (k d) as [[r d1] e1]. Qed.

Lemma lift_bind {A B} (c : completion A) (k : A → io B) (d : database) :
  (lift c ≫= k) d = match c with Normal a => k a d | Throw msg => (Throw msg, d, []) end.
Proof.
  unfold mbind, io_bind, lift. destruct c as [a|msg]; [|done].
  by destruct (k a d) as [[r d1] e1].
Qed.

Lemma mapM_length {A B} (f : A → completion B) (l : list A) (k : list B) :
  mapM f l = Normal k → length k = length l.
Proof.
  revert k. induction l as [|x l IH]; intros k; cbn.
  - by intros [= <-].
  - destruct (f x) as [y|msg]; [|done]. cbn.
    destruct (mapM f l) as [k'|msg]; [|done]. cbn. intros [= <-]. cbn. f_equal. by apply IH.
Qed.

Lemma narrow_loop (f : value → nat → list (list nat) * list value →
                       completion (list (list nat) * list value))
    (p : plan) (data : list value) (d : database) :
  (∀ row idx vp vals,
     f row idx (vp, vals) =
     vs ← row_values p row; mret (vp ++ [(λ k, idx * 4 + k + 1) <$> seq 0 4], vals ++ vs)) →
  columns p = narrow_columns →
  chunkSize p = 500 →
  batch_lines p = (λ _ _, []) →
  for_loop (length data) 500 (Nat.lt_0_succ 499)
    (λ i inserted,
       let chunk := slice data i (i + 500) in
       '(valuePlaceholders, values) ← lift (forEach f chunk 0 ([], []));
       query Number_toString pg (INSERT_INTO (table p) narrow_columns valuePlaceholders values);;
       mret (inserted + length chunk)) 0 0 d =
  each_chunk Number_toString pg p 0 (Spec.chunks (chunkSize p) data) 0 d.
Proof.
  intros Hf Hcols Hsize Hlines. unfold each_chunk. rewrite Hsize.
  rewrite (for_loop_chunks data 500 _ _ (insert_chunk Number_toString pg p)); [by rewrite drop_0 |].
  intros i s d'. cbn zeta. unfold insert_chunk. rewrite !lift_bind.
  rewrite (forEach_rows f (row_values p) _ Hf).
  destruct (mapM (row_values p) _) as [rows|msg] eqn:Hrows; [|done]. cbn [mbind completion_bind].
  apply mapM_length in Hrows. unfold insert_statement. rewrite Hcols, Hlines, Hrows.
  cbn [mret completion_ret app]. apply bind_ext. intros _ d''. unfold lines.
  cbn [fmap list_fmap]. by rewrite say_nil_bind.
Qed.

Lemma wide_loop (p : plan) (data : list value) (d : database) :
  row_values p = coerced_values Number_toString →
  columns p = wide_columns →
  chunkSize p = 100 →
  batch_lines p = (λ i n, ["Inserted batch " +:+ decimal (i / 100 + 1) +:+ ": "
                           +:+ decimal n +:+ " rows"]) →
  for_loop (length data) 100 (Nat.lt_0_succ 99)
    (λ i inserted,
       let chunk := slice data i (i + 100) in
       '(_, valuePlaceholders, values) ←
         lift (forEach (coerced_row Number_toString) chunk 0 (1, [], []));
       query Number_toString pg (INSERT_INTO (table p) wide_columns valuePlaceholders values);;
       log info ("Inserted batch " +:+ decimal (i / 100 + 1) +:+ ": "
                 +:+ decimal (length chunk) +:+ " rows");;
       mret (inserted + length chunk)) 0 0 d =
  each_chunk Number_toString pg p 0 (Spec.chunks (chunkSize p) data) 0 d.
Proof.
  intros Hrow Hcols Hsize Hlines. unfold each_chunk. rewrite Hsize.
  rewrite (for_loop_chunks data 100 _ _ (insert_chunk Number_toString pg p)); [by rewrite drop_0 |].
  intros i s d'. cbn zeta. unfold insert_chunk. rewrite !lift_bind.
  rewrite forEach_coerced_row, Hrow.
  destruct (mapM (coerced_values _) _) as [rows|msg] eqn:Hrows; [|done].
  cbn [mbind completion_bind].
  apply mapM_length in Hrows. unfold insert_statement. rewrite Hcols, Hlines, Hrows.
  cbn [mret completion_ret app]. by rewrite counted_placeholders.
Qed.

Lemma sync_shape (r : revision) (req : request) (d : database) :
  sync Number_toString pg env r req d =
  sync_as_planned Number_toString pg env r req d.
Proof.
  destruct r; unfold sync, sync_as_planned.
  - unfold sync_server_js.
    destruct (negb (strict_equals _ _)); [done |].
    destruct (field "data" (body req)) as [| | | | |data|]; try done.
    rewrite !lift_bind. unfold resolved.
    destruct (targetTable _ _ _ ≫= ToString _) as [t|msg]; [|done].
    unfold run_plan. apply bind_ext. intros _ d1. apply bind_ext. intros _ d2.
    apply try_catch_finally_ext. unfold attempt. rewrite bind_assoc.
    apply bind_ext. intros _ d3. unfold clear, lines. cbn [clearing plan_of].
    cbn [fmap list_fmap]. rewrite !bind_assoc. cbn beta. rewrite say_nil_bind, !bind_assoc. cbn beta.
    apply bind_ext. intros _ d4. apply (bind_ext (say _)). intros _ d5.
    unfold mbind at 1 5, io_bind at 1 5.
    rewrite (narrow_loop _ (plan_of Number_toString ServerJs req t (length data)));
      [done | apply sanitized_row_values | done..].
  - unfold sync_wide.
    destruct (negb (strict_equals _ _)); [done |].
    destruct (field "data" (body req)) as [| | | | |data|]; try done.
    rewrite !lift_bind. unfold resolved.
    destruct (targetTable _ _ _ ≫= ToString _) as [t|msg]; [|done].
    unfold run_plan. apply bind_ext. intros _ d1. apply bind_ext. intros _ d2.
    apply try_catch_finally_ext. unfold attempt. rewrite bind_assoc.
    apply bind_ext. intros _ d3. unfold clear, lines. cbn [clearing plan_of].
    cbn [fmap list_fmap]. rewrite !bind_assoc. cbn beta. rewrite say_nil_bind, !bind_assoc. cbn beta.
    apply bind_ext. intros _ d4. apply (bind_ext (say _)). intros _ d5.
    unfold mbind at 1 6, io_bind at 1 6.
    rewrite (wide_loop (plan_of Number_toString Wide req t (length data))); done.
  - unfold sync_truncateFirst. fold (truncateFirst req).
    destruct (negb (strict_equals _ _)); [done |].
    destruct (field "data" (body req)) as [| | | | |data|]; try done.
    rewrite !lift_bind. unfold resolved.
    destruct (targetTable _ _ _ ≫= ToString _) as [t|msg]; [|done].
    unfold run_plan. apply bind_ext. intros _ d1. apply bind_ext. intros _ d2.
    apply try_catch_finally_ext. unfold attempt. rewrite bind_assoc.
    apply bind_ext. intros _ d3. unfold clear, lines. cbn [clearing plan_of].
    rewrite !bind_assoc.
    assert (Hloop := λ d, narrow_loop raw_row
      (plan_of Number_toString TruncateFirst req t (length data)) data d
      raw_row_values eq_refl eq_refl eq_refl).
    destruct (truthy (truncateFirst req)).
    + rewrite !bind_assoc. apply bind_ext. intros _ d4.
      rewrite bind_assoc. apply bind_ext. intros _ d5. rewrite say_nil_bind.
      unfold mbind at 1 5, io_bind at 1 5. by rewrite Hloop.
    + unfold mbind at 1 2 6 7, io_bind at 1 2 6 7. cbn [mret io_ret]. by rewrite Hloop.
  - unfold sync_truncate.
    destruct (negb (strict_equals _ _)); [done |].
    destruct (field "data" (body req)) as [| | | | |data|]; try done.
    rewrite !lift_bind. unfold resolved.
    unfold run_plan. apply bind_ext. intros _ d1. apply bind_ext. intros _ d2.
    apply try_catch_finally_ext. unfold attempt. rewrite bind_assoc.
    apply bind_ext. intros _ d3. unfold clear, lines. cbn [clearing plan_of].
    cbn [fmap list_fmap]. rewrite !bind_assoc. cbn beta. rewrite say_nil_bind, !bind_assoc. cbn beta.
    apply bind_ext. intros _ d4. rewrite say_nil_bind.
    unfold mbind at 1 5, io_bind at 1 5.
    rewrite (narrow_loop _ (plan_of Number_toString TruncateAlways req "rrc_clients" (length data)));
      [done | apply raw_row_values | done..].
Qed.

End ShapeFacts.

(** ** The store *)

Section StoreFacts.
Import JS Pg.

Variable Number_toString : number → string.
Variable pg : server.

Lemma current_store (tables : gmap string (list row)) (d : database) :
  current (store tables d) = tables.
Proof. unfold store, current. by destruct (transaction d). Qed.

Lemma committed_store (tables : gmap string (list row)) (d : database) :
  is_Some (transaction d) → committed (store tables d) = committed d.
Proof. intros [T HT]. unfold store. by rewrite HT. Qed.

Lemma transaction_store (tables : gmap string (list row)) (d : database) :
  is_Some (transaction d) → is_Some (transaction (store tables d)).
Proof. intros [T HT]. unfold store. rewrite HT. by eexists. Qed.

(** A statement that the server refuses outright. *)
Lemma execute_refused (q : statement) (d : database) (msg : string) :
  refusal pg q = Some msg →
  execute Number_toString pg q d =
  (Some msg, match q with COMMIT | ROLLBACK => aborted d | _ => d end).
Proof. intros H. unfold execute. by rewrite H. Qed.

(** BEGIN, COMMIT and ROLLBACK fail only when they are refused. *)
Lemma execute_BEGIN (d : database) :
  execute Number_toString pg BEGIN d =
  match refusal pg BEGIN with
  | Some msg => (Some msg, d)
  | None => (None, {| committed := committed d; transaction := Some (current d) |})
  end.
Proof. unfold execute. by destruct (refusal pg BEGIN). Qed.

Lemma execute_COMMIT (d : database) :
  execute Number_toString pg COMMIT d =
  match refusal pg COMMIT with
  | Some msg => (Some msg, aborted d)
  | None => (None, {| committed := current d; transaction := None |})
  end.
Proof. unfold execute. by destruct (refusal pg COMMIT). Qed.

Lemma execute_ROLLBACK (d : database) :
  execute Number_toString pg ROLLBACK d = (refusal pg ROLLBACK, aborted d).
Proof. unfold execute. by destruct (refusal pg ROLLBACK). Qed.

(** A statement that fails changes no table, and nothing at all unless it
    is the COMMIT or the ROLLBACK. *)
Lemma execute_failed (q : statement) (d d' : database) (msg : string) :
  execute Number_toString pg q d = (Some msg, d') →
  committed d' = committed d ∧ (q ≠ COMMIT → q ≠ ROLLBACK → d' = d).
Proof.
  unfold execute. destruct (refusal pg q) as [e|].
  { intros [= _ <-]. by destruct q. }
  destruct q; cbn; try done.
  - destruct (current d !! _); [done | by intros [= _ <-]].
  - destruct (current d !! _); [done | by intros [= _ <-]].
  - destruct (current d !! _); [|by intros [= _ <-]].
    destruct (bind_parameters _ _ _); [|by intros [= _ <-]].
    destruct (forallb _ _); [|by intros [= _ <-]].
    destruct (violation pg _ _ _); [by intros [= _ <-] | done].
Qed.

(** Inside a transaction nothing but COMMIT touches what is committed, and
    nothing but COMMIT and ROLLBACK ends the transaction. *)
Lemma execute_in_transaction (q : statement) (d d' : database) (r : option string) :
  execute Number_toString pg q d = (r, d') → q ≠ COMMIT → is_Some (transaction d) →
  committed d' = committed d ∧ (q ≠ ROLLBACK → is_Some (transaction d')).
Proof.
  intros He Hq Ht. destruct r as [msg|].
  { apply execute_failed in He as (Hc & Hsame). split; [done |].
    intros Hr. by rewrite Hsame. }
  revert He. unfold execute. destruct (refusal pg q) as [e|]; [done |].
  destruct q; cbn; try done.
  - intros [= <-]. cbn. split; [done | by eexists].
  - intros [= <-]. done.
  - destruct (current d !! _); [|done]. intros [= <-].
    split; [by apply committed_store | intros _; by apply transaction_store].
  - destruct (current d !! _); [|done]. intros [= <-].
    split; [by apply committed_store | intros _; by apply transaction_store].
  - destruct (current d !! _); [|done].
    destruct (bind_parameters _ _ _); [|done].
    destruct (forallb _ _); [|done].
    destruct (violation pg _ _ _); [done |]. intros [= <-].
    split; [by apply committed_store | intros _; by apply transaction_store].
Qed.

Lemma lookup_concat_uniform {A} (rows : list (list A)) (w r k : nat) :
  Forall (λ row, length row = w) rows → k < w →
  concat rows !! (r * w + k) = rows !! r ≫= (.!! k).
Proof.
  intros Hrows Hk. revert r. induction Hrows as [|row rows Hrow _ IH]; intros r.
  - by rewrite !lookup_nil.
  - destruct r as [|r]; cbn [concat].
    + rewrite lookup_app_l by lia. done.
    + rewrite lookup_app_r by lia. replace (S r * w + k - length row) with (r * w + k) by lia.
      apply IH.
Qed.

(** The parameters of a statement built from rows of equal width bind
    back to these rows. *)
Lemma bind_placeholders (rows : list (list value)) (w : nat) :
  Forall (λ row, length row = w) rows →
  bind_parameters Number_toString (Spec.placeholders (length rows) w) (concat rows) =
  Some (stored Number_toString rows).
Proof.
  intros Hrows. unfold bind_parameters, Spec.placeholders, stored.
  apply mapM_Some. apply Forall2_fmap_l, Forall2_fmap_r. apply Forall2_lookup. intros r.
  destruct (decide (r < length rows)) as [Hr|Hr].
  - rewrite lookup_seq_lt by done. destruct (lookup_lt_is_Some_2 rows r Hr) as [row Hrow].
    rewrite Hrow. constructor. cbn.
    pose proof (Forall_lookup_1 _ _ _ _ Hrows Hrow) as Hw. cbn in Hw.
    apply mapM_Some. apply Forall2_fmap_l, Forall2_fmap_r. apply Forall2_lookup. intros k.
    destruct (decide (k < w)) as [Hk|Hk].
    + rewrite lookup_seq_lt by done.
      destruct (lookup_lt_is_Some_2 row k ltac:(lia)) as [v Hv]. rewrite Hv.
      constructor. cbn. replace (r * w + k + 1) with (S (r * w + k)) by lia. cbn.
      by rewrite (lookup_concat_uniform rows w r k Hrows Hk), Hrow; cbn; rewrite Hv.
    + rewrite lookup_seq_ge by lia. rewrite lookup_ge_None_2 by lia. constructor.
  - rewrite lookup_seq_ge by lia. rewrite lookup_ge_None_2 by lia. constructor.
Qed.

End StoreFacts.

(** ** A transaction, step by step *)

Section PlanFacts.
Import JS Pg Http Sync Observe.

Variable Number_toString : number → string.
Variable pg : server.
Variable p : plan.

Abbreviation stored := (Pg.stored Number_toString).

(** The statement a plan clears its table with, if it does. *)
Abbreviation clearing_statements :=
  (match clearing p with Some (_, m, _) => [clear_statement p m] | None => [] end).

(** Every record contributes one value per column. *)
Hypothesis row_width : ∀ row vs, row_values p row = Normal vs → length vs = length (columns p).

Lemma rows_width (chunk : list value) (rows : list (list value)) :
  mapM (row_values p) chunk = Normal rows →
  Forall (λ row, length row = length (columns p)) rows.
Proof.
  revert rows. induction chunk as [|x chunk IH]; intros rows; cbn.
  - intros [= <-]. constructor.
  - destruct (row_values p x) as [vs|msg] eqn:Hx; [|done]. cbn.
    destruct (mapM _ chunk) as [rows'|msg]; [|done]. cbn. intros [= <-].
    constructor; [by apply row_width in Hx | by apply IH].
Qed.

Lemma execute_insert (rows : list (list value)) (d : database) :
  Forall (λ row, length row = length (columns p)) rows →
  execute Number_toString pg (insert_statement p rows) d =
  match refusal pg (insert_statement p rows) with
  | Some e => (Some e, d)
  | None =>
      match current d !! relation pg (table p) with
      | None => (Some (undefined_table (relation pg (table p))), d)
      | Some old =>
          match violation pg (relation pg (table p)) old (stored rows) with
          | Some e => (Some e, d)
          | None =>
              (None, store (<[relation pg (table p) := old ++ stored rows]> (current d)) d)
          end
      end
  end.
Proof.
  intros Hrows. unfold execute. destruct (refusal pg _) as [e|]; [done |].
  unfold insert_statement.
  destruct (current d !! relation pg (table p)) as [old|]; [|done].
  rewrite bind_placeholders by done.
  replace (forallb _ (stored rows)) with true; [done |].
  symmetry. apply forallb_forall. intros r Hr. apply Nat.eqb_eq.
  unfold Pg.stored in Hr. apply in_map_iff in Hr as (r' & <- & Hr').
  rewrite length_fmap. by apply (proj1 (List.Forall_forall _ _) Hrows).
Qed.

(** One turn of the loop. *)
Lemma insert_chunk_run (i : nat) (chunk : list value) (inserted : nat) (d : database) :
  insert_chunk Number_toString pg p i chunk inserted d =
  match mapM (row_values p) chunk with
  | Throw msg => (Throw msg, d, [])
  | Normal rows =>
      match execute Number_toString pg (insert_statement p rows) d with
      | (Some msg, d') => (Throw msg, d', [Query (insert_statement p rows) (Some msg)])
      | (None, d') =>
          (Normal (inserted + length chunk), d',
           Query (insert_statement p rows) None
             :: (Log info <$> batch_lines p i (length chunk)))
      end
  end.
Proof.
  unfold insert_chunk. rewrite lift_bind.
  destruct (mapM _ chunk) as [rows|msg]; [|done].
  unfold mbind, io_bind, query, lines, say, mret, io_ret.
  destruct (execute _ _ _ d) as [[msg|] d']; [done |]. by rewrite app_nil_r.
Qed.

Lemma inside_lines (l : list string) : Forall inside (Log info <$> l).
Proof. induction l; constructor; done. Qed.

Lemma failures_lines (l : list string) : failures (Log info <$> l) = [].
Proof. induction l; [done | by cbn]. Qed.

Lemma failures_app (e1 e2 : list event) : failures (e1 ++ e2) = failures e1 ++ failures e2.
Proof. apply omap_app. Qed.

Lemma failures_cons (q : statement) (l : list event) :
  failures (Query q None :: l) = failures l.
Proof. reflexivity. Qed.

Lemma responses_app (e1 e2 : list event) : responses (e1 ++ e2) = responses e1 ++ responses e2.
Proof. apply omap_app. Qed.

Lemma statements_app (e1 e2 : list event) :
  statements (e1 ++ e2) = statements e1 ++ statements e2.
Proof. apply omap_app. Qed.

Lemma statements_cons (q : statement) (outcome : option string) (l : list event) :
  statements (Query q outcome :: l) = q :: statements l.
Proof. reflexivity. Qed.

Lemma statements_lines (l : list string) : statements (Log info <$> l) = [].
Proof. induction l; [done | by cbn]. Qed.

Lemma answers_app (e1 e2 : list event) : answers (e1 ++ e2) = answers e1 ++ answers e2.
Proof. apply omap_app. Qed.

Lemma inside_responses (events : list event) : Forall inside events → responses events = [].
Proof. induction 1 as [|e l He _ IH]; [done |]. destruct e; cbn in *; done. Qed.

Lemma inside_answers (events : list event) : Forall inside events → answers events = [].
Proof. induction 1 as [|e l He _ IH]; [done |]. destruct e; cbn in *; done. Qed.

Lemma inside_no_end (events : list event) (outcome : option string) :
  Forall inside events → (Query COMMIT outcome ∉ events) ∧ (Query ROLLBACK outcome ∉ events).
Proof.
  intros Hin. split; intros H; apply (proj1 (Forall_forall _ _) Hin) in H; by destruct H.
Qed.

Lemma each_chunk_invariant (l : list (list value)) (i inserted : nat) (d d' : database)
    (r : completion nat) (events : list event) :
  each_chunk Number_toString pg p i l inserted d = (r, d', events) →
  is_Some (transaction d) →
  committed d' = committed d ∧ is_Some (transaction d') ∧ Forall inside events ∧
  (∀ msg, msg ∈ failures events → r = Throw msg).
Proof.
  revert i inserted d events. induction l as [|chunk l IH]; intros i inserted d events.
  - intros [= <- <- <-] Ht. repeat split; [done | constructor | intros msg H; inversion H].
  - unfold each_chunk. cbn [for_each_chunk]. fold (each_chunk Number_toString pg p).
    unfold mbind, io_bind. rewrite insert_chunk_run.
    destruct (mapM _ chunk) as [rows|msg] eqn:Hrows.
    2:{ intros [= <- <- <-] Ht. repeat split; [done | constructor | intros m H; inversion H]. }
    destruct (execute _ _ _ d) as [[msg|] d1] eqn:He.
    + intros [= <- <- <-] Ht.
      destruct (execute_in_transaction _ _ _ _ _ _ He) as [Hc Hs]; [done | done |].
      repeat split; [done | by apply Hs | by repeat constructor |].
      intros m. cbn. rewrite list_elem_of_singleton. by intros ->.
    + destruct (each_chunk _ _ _ _ l _ d1) as [[r' d2] e2] eqn:Hrest.
      intros [= <- <- <-] Ht.
      destruct (execute_in_transaction _ _ _ _ _ _ He) as [Hc Hs]; [done | done |].
      destruct (IH _ _ _ _ Hrest) as (Hc' & Ht' & Hin & Hf); [by apply Hs |].
      repeat split; [congruence | done | |].
      * constructor; [done |]. apply Forall_app. split; [apply inside_lines | done].
      * intros m. rewrite failures_cons, failures_app, failures_lines. apply Hf.
Qed.

Lemma stored_app (a b : list (list value)) : stored (a ++ b) = stored a ++ stored b.
Proof. apply fmap_app. Qed.

(** When the loop completes, every chunk gave its rows, one statement was
    sent for each, and the table holds the rows of all of them after
    those it had; no other table changed. *)
Lemma each_chunk_success (l : list (list value)) (i inserted n : nat) (d d' : database)
    (events : list event) :
  each_chunk Number_toString pg p i l inserted d = (Normal n, d', events) →
  ∃ rowss : list (list (list value)),
    Forall2 (λ chunk rows, mapM (row_values p) chunk = Normal rows) l rowss ∧
    n = inserted + length (concat l) ∧
    statements events = insert_statement p <$> rowss ∧
    (l ≠ [] → is_Some (current d !! relation pg (table p))) ∧
    (∀ old, current d !! relation pg (table p) = Some old →
            current d' !! relation pg (table p) = Some (old ++ stored (concat rowss))) ∧
    (∀ t, t ≠ relation pg (table p) → current d' !! t = current d !! t).
Proof.
  revert i inserted d events. induction l as [|chunk l IH]; intros i inserted d events.
  - intros [= <- <- <-]. exists []. repeat split; try done.
    intros old ->. by rewrite app_nil_r.
  - unfold each_chunk. cbn [for_each_chunk]. fold (each_chunk Number_toString pg p).
    unfold mbind, io_bind. rewrite insert_chunk_run.
    destruct (mapM _ chunk) as [rows|msg] eqn:Hrows; [|done].
    rewrite execute_insert by (by eapply rows_width).
    destruct (refusal pg _); [done |].
    destruct (current d !! relation pg (table p)) as [old|] eqn:Hold; [|done].
    destruct (violation pg _ _ _); [done |].
    destruct (each_chunk _ _ _ _ l _ _) as [[r' d2] e2] eqn:Hrest.
    intros [= -> <- <-].
    apply IH in Hrest as (rowss & Hall & Hn & Hst & _ & Htable & Hothers).
    exists (rows :: rowss). repeat split.
    + by constructor.
    + cbn [concat]. rewrite length_app. lia.
    + by rewrite statements_cons, statements_app, statements_lines, Hst.
    + done.
    + intros old' [= <-]. cbn [concat]. rewrite stored_app, app_assoc. apply Htable.
      by rewrite current_store, lookup_insert_eq.
    + intros t Ht. rewrite Hothers by done. by rewrite current_store, lookup_insert_ne.
Qed.

(** The loop sees nothing of the database but the rows of its table. *)
Lemma each_chunk_simulation (l : list (list value)) (i inserted : nat) (d1 d2 d1' : database)
    (r : completion nat) (events : list event) :
  current d1 !! relation pg (table p) = current d2 !! relation pg (table p) →
  each_chunk Number_toString pg p i l inserted d1 = (r, d1', events) →
  ∃ d2', each_chunk Number_toString pg p i l inserted d2 = (r, d2', events) ∧
         current d1' !! relation pg (table p) = current d2' !! relation pg (table p).
Proof.
  revert i inserted d1 d2 events. induction l as [|chunk l IH]; intros i inserted d1 d2 events Hd.
  - intros [= <- <- <-]. by exists d2.
  - unfold each_chunk. cbn [for_each_chunk]. fold (each_chunk Number_toString pg p).
    unfold mbind, io_bind. rewrite !insert_chunk_run.
    destruct (mapM _ chunk) as [rows|msg] eqn:Hrows.
    2:{ intros [= <- <- <-]. by exists d2. }
    rewrite !execute_insert by (by eapply rows_width). rewrite <- Hd.
    destruct (refusal pg _).
    { intros [= <- <- <-]. by exists d2. }
    destruct (current d1 !! relation pg (table p)) as [old|] eqn:Hold.
    2:{ intros [= <- <- <-]. exists d2. by rewrite <- Hd, Hold. }
    destruct (violation pg _ _ _).
    { intros [= <- <- <-]. exists d2. by rewrite <- Hd, Hold. }
    destruct (each_chunk _ _ _ _ l _ (store _ d1)) as [[r' d3] e3] eqn:Hrest.
    intros [= <- <- <-].
    apply (IH _ _ _ (store (<[relation pg (table p) := old ++ stored rows]> (current d2)) d2))
      in Hrest as (d2' & -> & Hd'); [by exists d2' |].
    by rewrite !current_store, !lookup_insert_eq.
Qed.

Lemma mapM_throw_elem {A B} (f : A → completion B) (l : list A) (msg : string) :
  mapM f l = Throw msg → ∃ x, x ∈ l ∧ f x = Throw msg.
Proof.
  induction l as [|a l IH]; cbn; [done |].
  destruct (f a) as [y|m] eqn:Ha; cbn.
  - destruct (mapM f l) as [rs|m]; [done |]. cbn. intros [= ->].
    destruct (IH eq_refl) as (x & Hx & Hf). exists x. split; [by right | done].
  - intros [= ->]. exists a. split; [by left | done].
Qed.

(** Where the loop stops: the statements sent are the INSERTs of the
    first chunks, in order; the loop ends past the last chunk, or at a
    statement that failed, which is then the last event, or at a record
    whose values could not be built, before anything is sent for its
    chunk. *)
Lemma each_chunk_prefix (l : list (list value)) (i inserted : nat) (d d' : database)
    (r : completion nat) (events : list event) :
  each_chunk Number_toString pg p i l inserted d = (r, d', events) →
  ∃ rowss : list (list (list value)),
    Forall2 (λ chunk rows, mapM (row_values p) chunk = Normal rows)
      (take (length rowss) l) rowss ∧
    length rowss ≤ length l ∧
    statements events = insert_statement p <$> rowss ∧
    match r with
    | Normal n =>
        length rowss = length l ∧ failures events = [] ∧ n = inserted + length (concat l)
    | Throw msg =>
        (∃ before q, events = before ++ [Query q (Some msg)] ∧ failures before = [] ∧
                     q ≠ COMMIT ∧ q ≠ ROLLBACK) ∨
        (failures events = [] ∧ ∃ chunk x, chunk ∈ l ∧ x ∈ chunk ∧ row_values p x = Throw msg)
    end.
Proof.
  revert i inserted d events. induction l as [|chunk l IH]; intros i inserted d events.
  - intros [= <- <- <-]. exists []. repeat split; try constructor. cbn. lia.
  - unfold each_chunk. cbn [for_each_chunk]. fold (each_chunk Number_toString pg p).
    unfold mbind, io_bind. rewrite insert_chunk_run.
    destruct (mapM _ chunk) as [rows|msg] eqn:Hrows.
    2:{ intros [= <- <- <-]. exists []. repeat split; [constructor | cbn; lia |].
        right. split; [done |]. apply mapM_throw_elem in Hrows as (x & Hx & Hf).
        exists chunk, x. repeat split; [by left | done | done]. }
    destruct (execute _ _ _ d) as [[msg|] d1] eqn:He.
    + intros [= <- <- <-]. exists [rows]. repeat split; [by repeat constructor | cbn; lia |].
      left. by exists [], (insert_statement p rows).
    + destruct (each_chunk _ _ _ _ l _ d1) as [[r' d2] e2] eqn:Hrest.
      intros [= <- <- <-].
      apply IH in Hrest as (rowss & Hall & Hlen & Hst & Hr).
      exists (rows :: rowss). split; [by constructor |]. split; [cbn; lia |]. split.
      * by rewrite statements_cons, statements_app, statements_lines, Hst.
      * destruct r' as [n|msg].
        -- destruct Hr as (Hn & Hf & Hcount). split; [cbn; lia |]. split.
           ++ by rewrite failures_cons, failures_app, failures_lines, Hf.
           ++ cbn [concat]. rewrite length_app. lia.
        -- destruct Hr as [(before & q & -> & Hb & Hq)|(Hf & c & x & Hc & Hx & Hv)].
           ++ left. exists (Query (insert_statement p rows) None
                             :: (Log info <$> batch_lines p i (length chunk)) ++ before), q.
              split; [by rewrite <- app_comm_cons, <- app_assoc |]. split; [|done].
              by rewrite failures_cons, failures_app, failures_lines, Hb.
           ++ right. split.
              ** by rewrite failures_cons, failures_app, failures_lines, Hf.
              ** exists c, x. repeat split; [by right | done | done].
Qed.

Lemma clear_run (d : database) :
  clear Number_toString pg p d =
  match clearing p with
  | None => (Normal tt, d, [])
  | Some (before, m, after) =>
      match refusal pg (clear_statement p m) with
      | Some msg =>
          (Throw msg, d, (Log info <$> before) ++ [Query (clear_statement p m) (Some msg)])
      | None =>
          match current d !! relation pg (table p) with
          | Some _ =>
              (Normal tt, store (<[relation pg (table p) := []]> (current d)) d,
               (Log info <$> before) ++ Query (clear_statement p m) None :: (Log info <$> after))
          | None =>
              (Throw (undefined_table (relation pg (table p))), d,
               (Log info <$> before) ++
               [Query (clear_statement p m) (Some (undefined_table (relation pg (table p))))])
          end
      end
  end.
Proof.
  unfold clear. destruct (clearing p) as [[[before m] after]|]; [|done].
  unfold mbind, io_bind, lines, say, query, execute.
  destruct m; cbn [clear_statement]; (destruct (refusal pg _); [by rewrite ?app_nil_r |]);
    destruct (current d !! relation pg (table p)); by rewrite ?app_nil_r.
Qed.

Lemma attempt_run (data : list value) (d : database) :
  attempt Number_toString pg p data d =
  match refusal pg BEGIN with
  | Some msg => (Throw msg, d, [Query BEGIN (Some msg)])
  | None =>
      match clear Number_toString pg p
              {| committed := committed d; transaction := Some (current d) |} with
      | (Normal _, d1, e1) =>
          let '(r, d2, e2) :=
            each_chunk Number_toString pg p 0 (Spec.chunks (chunkSize p) data) 0 d1 in
          (r, d2, Query BEGIN None :: e1 ++ e2)
      | (Throw msg, d1, e1) => (Throw msg, d1, Query BEGIN None :: e1)
      end
  end.
Proof.
  unfold attempt, mbind, io_bind, query. rewrite execute_BEGIN.
  destruct (refusal pg BEGIN) as [msg|]; [done |].
  destruct (clear _ _ _ _) as [[[[]|msg] d1] e1]; [|done].
  by destruct (each_chunk _ _ _ _ _ _ _) as [[r d2] e2].
Qed.

(** The whole of a run: the connection refused; or the [try] block, then
    the COMMIT and the answer, or the [catch] block, entered from the
    [try] block or from a COMMIT that failed. *)
Lemma run_plan_run (data : list value) (d : database) :
  run_plan Number_toString pg p data d =
  match connecting pg with
  | Some msg => (Throw msg, d, [Log info (announce p); Unavailable msg])
  | None =>
      match attempt Number_toString pg p data d with
      | (Normal n, d1, e1) =>
          match refusal pg COMMIT with
          | None =>
              (Normal tt, {| committed := current d1; transaction := None |},
               [Log info (announce p); Connect] ++ e1 ++
               [Query COMMIT None; Log info (done_line p n); Respond 200 (succeeded n);
                Release])
          | Some msg =>
              rolled_back pg msg d1
                ([Log info (announce p); Connect] ++ e1 ++ [Query COMMIT (Some msg)])
          end
      | (Throw msg, d1, e1) => rolled_back pg msg d1 ([Log info (announce p); Connect] ++ e1)
      end
  end.
Proof.
  unfold run_plan, try_catch_finally, mbind, io_bind, log, connect, release, respond, emit,
    query, rolled_back.
  destruct (connecting pg) as [msg|]; [done |].
  destruct (attempt _ _ _ _ _) as [[[n|msg] d1] e1]; cbn.
  - rewrite execute_COMMIT. destruct (refusal pg COMMIT) as [msg|]; cbn.
    + rewrite execute_ROLLBACK. destruct (refusal pg ROLLBACK) as [m|]; cbn;
        by rewrite <- ?app_assoc.
    + by rewrite <- !app_assoc.
  - rewrite execute_ROLLBACK. destruct (refusal pg ROLLBACK) as [m|]; cbn;
      by rewrite <- ?app_assoc.
Qed.

(** The [catch] block: what it leaves, and what it answers. *)
Lemma rolled_back_database (msg : string) (d : database) (events : list event) :
  database_after (rolled_back pg msg d events) = aborted d.
Proof. unfold rolled_back. by destruct (refusal pg ROLLBACK). Qed.

Lemma rolled_back_events (msg : string) (d : database) (events : list event) :
  events_of (rolled_back pg msg d events) =
  events ++ Query ROLLBACK (refusal pg ROLLBACK)
         :: match refusal pg ROLLBACK with
            | None => [Log error ("Sync failed: " +:+ msg); Respond 500 (failed msg); Release]
            | Some _ => [Release]
            end.
Proof. unfold rolled_back. by destruct (refusal pg ROLLBACK). Qed.

Lemma rolled_back_completion (msg : string) (d : database) (events : list event) :
  completion_of (rolled_back pg msg d events) =
  match refusal pg ROLLBACK with None => Normal tt | Some m => Throw m end.
Proof. unfold rolled_back. by destruct (refusal pg ROLLBACK). Qed.

Lemma rolled_back_responses (msg : string) (d : database) (events : list event) :
  responses events = [] →
  responses (events_of (rolled_back pg msg d events)) =
  match refusal pg ROLLBACK with None => [(500, failed msg)] | Some _ => [] end.
Proof.
  intros He. rewrite rolled_back_events, responses_app, He.
  by destruct (refusal pg ROLLBACK).
Qed.

Lemma attempt_invariant (data : list value) (d d' : database) (r : completion nat)
    (events : list event) :
  attempt Number_toString pg p data d = (r, d', events) →
  committed d' = committed d ∧ Forall inside events ∧
  (∀ msg, msg ∈ failures events → r = Throw msg).
Proof.
  rewrite attempt_run, clear_run.
  destruct (refusal pg BEGIN) as [e|].
  { intros [= <- <- <-]. repeat split; [by repeat constructor |].
    intros msg. cbn. rewrite list_elem_of_singleton. by intros ->. }
  set (d0 := {| committed := committed d; transaction := Some (current d) |}).
  assert (Hd0 : is_Some (transaction d0)) by (by eexists).
  destruct (clearing p) as [[[before m] after]|].
  - destruct (refusal pg (clear_statement p m)) as [e|].
    { intros [= <- <- <-]. split; [done |]. split.
      * constructor; [done |]. rewrite Forall_app. split; [apply inside_lines |].
        constructor; [by destruct m | constructor].
      * intros msg. rewrite failures_cons, failures_app, failures_lines. cbn.
        rewrite list_elem_of_singleton. by intros ->. }
    destruct (current d0 !! relation pg (table p)) as [old|].
    + destruct (each_chunk _ _ _ _ _ _ _) as [[r' d2] e2] eqn:Hloop. intros [= <- <- <-].
      apply each_chunk_invariant in Hloop as (Hc & Ht & Hin & Hf); [|by apply transaction_store].
      rewrite committed_store in Hc by done.
      repeat split; [done | |].
      * constructor; [by destruct m |]. rewrite !Forall_app. repeat split.
        -- apply inside_lines.
        -- constructor; [by destruct m | apply inside_lines].
        -- done.
      * intros msg.
        rewrite failures_cons, !failures_app, failures_lines, failures_cons, failures_lines.
        apply Hf.
    + intros [= <- <- <-]. split; [done |]. split.
      * constructor; [done |]. rewrite Forall_app. split; [apply inside_lines |].
        constructor; [by destruct m | constructor].
      * intros msg. rewrite failures_cons, failures_app, failures_lines. cbn.
        rewrite list_elem_of_singleton. by intros ->.
  - destruct (each_chunk _ _ _ _ _ _ _) as [[r' d2] e2] eqn:Hloop. intros [= <- <- <-].
    apply each_chunk_invariant in Hloop as (Hc & Ht & Hin & Hf); [|done].
    repeat split; [done | by constructor |].
    intros msg. apply Hf.
Qed.

Lemma inserts_statements (rowss : list (list (list value))) :
  filter (λ q, is_insert q = true) (insert_statement p <$> rowss) = insert_statement p <$> rowss.
Proof.
  induction rowss as [|rows rowss IH]; [done |]. cbn [fmap list_fmap].
  rewrite filter_cons_True by done. by rewrite IH.
Qed.

Lemma mapM_app_normal {A B} (f : A → completion B) (a b : list A) (ra rb : list B) :
  mapM f a = Normal ra → mapM f b = Normal rb → mapM f (a ++ b) = Normal (ra ++ rb).
Proof.
  revert ra. induction a as [|x a IH]; intros ra; cbn.
  - by intros [= <-].
  - destruct (f x) as [y|msg]; [|done]. cbn.
    destruct (mapM f a) as [ra'|msg]; [|done]. cbn. intros [= <-] Hb.
    by rewrite (IH ra' eq_refl Hb).
Qed.

Lemma mapM_concat_normal {A B} (f : A → completion B) (l : list (list A))
    (rs : list (list B)) :
  Forall2 (λ chunk rows, mapM f chunk = Normal rows) l rs →
  mapM f (concat l) = Normal (concat rs).
Proof.
  induction 1 as [|chunk rows l rs H _ IH]; [done |]. cbn [concat].
  by apply mapM_app_normal.
Qed.

Lemma mapM_normal_elem {A B} (f : A → completion B) (l : list A) (rs : list B) (x : A) :
  mapM f l = Normal rs → x ∈ l → ∃ y, f x = Normal y.
Proof.
  revert rs. induction l as [|a l IH]; intros rs; cbn; [by intros _ H; inversion H |].
  destruct (f a) as [y|msg] eqn:Ha; [|done]. cbn.
  destruct (mapM f l) as [rs'|msg]; [|done]. cbn. intros _ Hx.
  apply elem_of_cons in Hx as [->|Hx]; [by exists y | by apply (IH rs')].
Qed.

(** When the [try] block reaches its COMMIT, every record gave its row,
    one INSERT was sent per chunk, and the table holds the rows of the
    request, after nothing if it was cleared. *)
Lemma attempt_success (data : list value) (n : nat) (d d1 : database) (events : list event) :
  0 < chunkSize p →
  attempt Number_toString pg p data d = (Normal n, d1, events) →
  ∃ rowss : list (list (list value)),
    Forall2 (λ chunk rows, mapM (row_values p) chunk = Normal rows)
      (Spec.chunks (chunkSize p) data) rowss ∧
    mapM (row_values p) data = Normal (concat rowss) ∧
    n = length data ∧
    statements events = BEGIN :: clearing_statements ++ (insert_statement p <$> rowss) ∧
    (∀ t, t ≠ relation pg (table p) → current d1 !! t = current d !! t) ∧
    (is_Some (clearing p) → current d1 !! relation pg (table p) = Some (stored (concat rowss))) ∧
    (clearing p = None → ∀ old, current d !! relation pg (table p) = Some old →
       current d1 !! relation pg (table p) = Some (old ++ stored (concat rowss))).
Proof.
  intros Hpos. rewrite attempt_run, clear_run.
  destruct (refusal pg BEGIN); [done |].
  set (d0 := {| committed := committed d; transaction := Some (current d) |}).
  assert (Hcur : current d0 = current d) by done.
  destruct (clearing p) as [[[before m] after]|].
  - destruct (refusal pg (clear_statement p m)); [done |].
    destruct (current d0 !! relation pg (table p)) as [old|] eqn:Hold; [|done].
    destruct (each_chunk _ _ _ _ _ _ _) as [[r' d2] e2] eqn:Hloop. intros [= -> <- <-].
    apply each_chunk_success in Hloop as (rowss & Hall & Hn & Hst & _ & Htable & Hothers).
    exists rowss. repeat split; try done.
    + rewrite <- (concat_chunks (chunkSize p) data) at 1 by done. by apply mapM_concat_normal.
    + by rewrite Hn, concat_chunks.
    + by rewrite statements_cons, !statements_app, statements_lines, statements_cons,
        statements_lines, Hst.
    + intros t Ht. rewrite Hothers by done. rewrite current_store, lookup_insert_ne by done.
      by rewrite Hcur.
    + intros _. apply (Htable []). by rewrite current_store, lookup_insert_eq.
  - destruct (each_chunk _ _ _ _ _ _ _) as [[r' d2] e2] eqn:Hloop. intros [= -> <- <-].
    apply each_chunk_success in Hloop as (rowss & Hall & Hn & Hst & _ & Htable & Hothers).
    exists rowss. repeat split; try done.
    + rewrite <- (concat_chunks (chunkSize p) data) at 1 by done. by apply mapM_concat_normal.
    + by rewrite Hn, concat_chunks.
    + by rewrite statements_cons, Hst.
Qed.


(** After a transaction that cleared the table and committed, the same
    request does the same again and leaves the same tables. *)
Lemma attempt_replay (data : list value) (n : nat) (d d1 : database) (events : list event) :
  0 < chunkSize p →
  is_Some (clearing p) →
  attempt Number_toString pg p data d = (Normal n, d1, events) →
  attempt Number_toString pg p data {| committed := current d1; transaction := None |} =
  (Normal n, {| committed := current d1; transaction := Some (current d1) |}, events).
Proof.
  intros Hpos Hclear Ha.
  destruct (attempt_success _ _ _ _ _ Hpos Ha) as (rowss & _ & _ & _ & _ & _ & Hrows & _).
  specialize (Hrows Hclear).
  revert Ha. rewrite !attempt_run, !clear_run.
  destruct (refusal pg BEGIN); [done |].
  destruct (clearing p) as [[[before m] after]|]; [|by destruct Hclear].
  destruct (refusal pg (clear_statement p m)); [done |].
  change (current {| committed := current d1; transaction := None |}) with (current d1).
  cbn [committed].
  set (d0 := {| committed := committed d; transaction := Some (current d) |}).
  set (d0' := {| committed := current d1; transaction := Some (current d1) |}).
  change (current d0') with (current d1). rewrite Hrows.
  destruct (current d0 !! relation pg (table p)) as [old|] eqn:Hold; [|done].
  destruct (each_chunk _ _ _ _ _ _ (store _ d0)) as [[r' d2] e2] eqn:Hloop. intros [= -> -> <-].
  destruct (each_chunk_simulation _ _ _ _
              (store (<[relation pg (table p) := []]> (current d1)) d0') _ _ _
              ltac:(by rewrite !current_store, !lookup_insert_eq) Hloop)
    as (d2' & Hloop' & Hsame).
  rewrite Hloop'.
  destruct (each_chunk_invariant _ _ _ _ _ _ _ Hloop') as (Hc & [T HT] & _ & _);
    [by apply transaction_store |].
  rewrite committed_store in Hc by (by eexists).
  apply each_chunk_success in Hloop' as (_ & _ & _ & _ & _ & _ & Hothers).
  assert (HT' : T = current d1).
  { apply map_eq. intros t. destruct (decide (t = relation pg (table p))) as [->|Ht].
    - rewrite Hsame. unfold current. by rewrite HT.
    - specialize (Hothers t Ht). rewrite current_store, lookup_insert_ne in Hothers by done.
      rewrite <- Hothers. unfold current. by rewrite HT. }
  destruct d2' as [c2 t2]. cbn in *. by subst.
Qed.

(** The [try] block starts with BEGIN. *)
Lemma attempt_begins (data : list value) (d d' : database) (r : completion nat)
    (events : list event) :
  attempt Number_toString pg p data d = (r, d', events) →
  ∃ rest, events = Query BEGIN (refusal pg BEGIN) :: rest.
Proof.
  rewrite attempt_run. destruct (refusal pg BEGIN) as [e|].
  { intros [= _ _ <-]. by eexists. }
  destruct (clear _ _ _ _) as [[[[]|msg] d1] e1].
  - destruct (each_chunk _ _ _ _ _ _ _) as [[r' d2] e2]. intros [= _ _ <-]. by eexists.
  - intros [= _ _ <-]. by eexists.
Qed.

(** The clearing step sends the clearing statement of the plan, if it
    has one, and fails with it only. *)
Lemma clear_prefix (d d1 : database) (r : completion unit) (e1 : list event) :
  clear Number_toString pg p d = (r, d1, e1) →
  statements e1 = clearing_statements ∧
  match r with
  | Normal _ => failures e1 = []
  | Throw msg =>
      ∃ before q, e1 = before ++ [Query q (Some msg)] ∧ failures before = [] ∧
                  q ≠ COMMIT ∧ q ≠ ROLLBACK
  end.
Proof.
  rewrite clear_run. destruct (clearing p) as [[[before m] after]|].
  2:{ by intros [= <- <- <-]. }
  assert (Hstop : ∀ msg,
            statements ((Log info <$> before) ++ [Query (clear_statement p m) (Some msg)]) =
              [clear_statement p m] ∧
            ∃ before' q,
              (Log info <$> before) ++ [Query (clear_statement p m) (Some msg)] =
                before' ++ [Query q (Some msg)] ∧
              failures before' = [] ∧ q ≠ COMMIT ∧ q ≠ ROLLBACK).
  { intros msg. split; [by rewrite statements_app, statements_lines |].
    exists (Log info <$> before), (clear_statement p m).
    split; [done |]. split; [apply failures_lines | by destruct m]. }
  destruct (refusal pg (clear_statement p m)) as [e|].
  { intros [= <- <- <-]. apply Hstop. }
  destruct (current d !! relation pg (table p)).
  - intros [= <- <- <-]. split.
    + by rewrite statements_app, statements_lines, statements_cons, statements_lines.
    + by rewrite failures_app, failures_lines, failures_cons, failures_lines.
  - intros [= <- <- <-]. apply Hstop.
Qed.

(** Where the [try] block stops before its COMMIT: at a BEGIN that is
    refused; or, the clearing statement sent if the plan has one, as the
    loop does. *)
Lemma attempt_prefix (data : list value) (d d' : database) (r : completion nat)
    (events : list event) :
  0 < chunkSize p →
  attempt Number_toString pg p data d = (r, d', events) →
  ∃ rowss : list (list (list value)),
    Forall2 (λ chunk rows, mapM (row_values p) chunk = Normal rows)
      (take (length rowss) (Spec.chunks (chunkSize p) data)) rowss ∧
    length rowss ≤ length (Spec.chunks (chunkSize p) data) ∧
    (statements events = BEGIN :: clearing_statements ++ (insert_statement p <$> rowss) ∧
     refusal pg BEGIN = None ∨
     statements events = [BEGIN] ∧ rowss = [] ∧ is_Some (refusal pg BEGIN)) ∧
    match r with
    | Normal n =>
        length rowss = length (Spec.chunks (chunkSize p) data) ∧ failures events = [] ∧
        n = length data ∧
        statements events = BEGIN :: clearing_statements ++ (insert_statement p <$> rowss) ∧
        refusal pg BEGIN = None
    | Throw msg =>
        (∃ before q, events = before ++ [Query q (Some msg)] ∧ failures before = [] ∧
                     q ≠ COMMIT ∧ q ≠ ROLLBACK) ∨
        (failures events = [] ∧ ∃ x, x ∈ data ∧ row_values p x = Throw msg)
    end.
Proof.
  intros Hpos. rewrite attempt_run.
  destruct (refusal pg BEGIN) as [e|] eqn:Hbegin.
  { intros [= <- <- <-]. exists []. split; [constructor |]. split; [cbn; lia |].
    split; [right; by repeat split |]. left. by exists [], BEGIN. }
  destruct (clear _ _ _ _) as [[rc d1] e1] eqn:Hclear.
  apply clear_prefix in Hclear as [Hcl Hrc].
  destruct rc as [[]|msg].
  2:{ intros [= <- <- <-]. exists []. split; [constructor |]. split; [cbn; lia |].
      split; [left; split; [|done]; by rewrite statements_cons, Hcl, app_nil_r |].
      destruct Hrc as (before & q & -> & Hb & Hq). left.
      by exists (Query BEGIN None :: before), q. }
  destruct (each_chunk _ _ _ _ _ _ _) as [[r' d2] e2] eqn:He. intros [= <- <- <-].
  apply each_chunk_prefix in He as (rowss & Hall & Hlen & Hst & Hr).
  assert (Hsent : statements (Query BEGIN None :: e1 ++ e2) =
                  BEGIN :: clearing_statements ++ (insert_statement p <$> rowss)).
  { by rewrite statements_cons, statements_app, Hcl, Hst. }
  assert (Hfail : failures (Query BEGIN None :: e1 ++ e2) = failures e2).
  { by rewrite failures_cons, failures_app, Hrc. }
  exists rowss. split; [done |]. split; [done |]. split; [by left |].
  destruct r' as [n|msg].
  - destruct Hr as (Hn & Hf & Hcount). split; [done |]. split; [by rewrite Hfail |].
    split; [by rewrite Hcount, concat_chunks |]. by split.
  - destruct Hr as [(before & q & -> & Hb & Hq)|(Hf & c & x & Hc & Hx & Hv)].
    + left. exists (Query BEGIN None :: e1 ++ before), q.
      split; [by rewrite <- app_comm_cons, <- app_assoc |]. split; [|done].
      by rewrite failures_cons, failures_app, Hrc, Hb.
    + right. split; [by rewrite Hfail |]. exists x. split; [|done].
      rewrite <- (concat_chunks (chunkSize p) data) by done.
      apply list_elem_of_In, in_concat. exists c. split; by apply list_elem_of_In.
Qed.

Lemma logged_app (e1 e2 : list event) : logged (e1 ++ e2) = logged e1 ++ logged e2.
Proof. apply omap_app. Qed.

Lemma logged_cons (q : statement) (outcome : option string) (l : list event) :
  logged (Query q outcome :: l) = logged l.
Proof. reflexivity. Qed.

Lemma logged_lines (l : list string) : logged (Log info <$> l) = (λ line, (info, line)) <$> l.
Proof. induction l as [|x l IH]; [done |]. cbn. by f_equal. Qed.

(** The lines of a loop that completed: those of each chunk, in order,
    the chunk of index [k] being logged with the loop variable at
    [i + k * chunkSize]. *)
Lemma each_chunk_logged (l : list (list value)) (i inserted n : nat) (d d' : database)
    (events : list event) :
  each_chunk Number_toString pg p i l inserted d = (Normal n, d', events) →
  logged events =
    concat (imap (λ k chunk, (λ line, (info, line))
                               <$> batch_lines p (i + k * chunkSize p) (length chunk)) l).
Proof.
  revert i inserted d events. induction l as [|chunk l IH]; intros i inserted d events.
  - by intros [= <- <- <-].
  - unfold each_chunk. cbn [for_each_chunk]. fold (each_chunk Number_toString pg p).
    unfold mbind, io_bind. rewrite insert_chunk_run.
    destruct (mapM _ chunk) as [rows|msg]; [|done].
    destruct (execute _ _ _ d) as [[msg|] d1]; [done |].
    destruct (each_chunk _ _ _ _ l _ d1) as [[r' d2] e2] eqn:Hrest.
    intros [= -> <- <-]. apply IH in Hrest.
    rewrite logged_cons, logged_app, logged_lines, Hrest. cbn [logged omap list_omap line_of app].
    rewrite imap_cons. cbn [concat]. rewrite Nat.add_0_r. f_equal. f_equal.
    apply imap_ext. intros k c _. cbn. do 2 f_equal. lia.
Qed.

Lemma attempt_logged (data : list value) (n : nat) (d d' : database) (events : list event) :
  attempt Number_toString pg p data d = (Normal n, d', events) →
  logged events =
    ((λ line, (info, line))
       <$> match clearing p with Some (before, _, after) => before ++ after | None => [] end)
    ++ concat (imap (λ k chunk, (λ line, (info, line))
                                  <$> batch_lines p (k * chunkSize p) (length chunk))
                 (Spec.chunks (chunkSize p) data)).
Proof.
  rewrite attempt_run, clear_run.
  destruct (refusal pg BEGIN); [done |].
  destruct (clearing p) as [[[before m] after]|].
  - destruct (refusal pg (clear_statement p m)); [done |].
    destruct (current _ !! relation pg (table p)); [|done].
    destruct (each_chunk _ _ _ _ _ _ _) as [[r' d2] e2] eqn:He. intros [= -> <- <-].
    apply each_chunk_logged in He.
    rewrite logged_cons, !logged_app, logged_lines, logged_cons, logged_lines, He, fmap_app.
    cbn [logged omap list_omap line_of app]. reflexivity.
  - destruct (each_chunk _ _ _ _ _ _ _) as [[r' d2] e2] eqn:He. intros [= -> <- <-].
    apply each_chunk_logged in He.
    rewrite logged_cons, He. reflexivity.
Qed.

End PlanFacts.

(** ** The endpoint *)

Section Endpoint.
Import JS Pg Http Sync Observe.

Variable Number_toString : number → string.
Variable pg : server.
Variable env : process_env.

Abbreviation sync := (Sync.sync Number_toString pg env).
Abbreviation plan_of := (Sync.plan_of Number_toString).
Abbreviation resolved := (Sync.resolved Number_toString env).
Abbreviation values_of := (Sync.values_of Number_toString).
Abbreviation coerce := (Sync.coerce Number_toString).
Abbreviation sanitized := (Sync.sanitized Number_toString).
Abbreviation stored := (Pg.stored Number_toString).
Abbreviation run_plan := (Sync.run_plan Number_toString pg).
Abbreviation attempt := (Sync.attempt Number_toString pg).

(** *** The two checks *)

Lemma sync_unauthorized (r : revision) (req : request) (d : database) :
  strict_equals (field "apiKey" (body req)) (env_value (API_KEY env)) = false →
  sync r req d =
  (Normal tt, d, [Log warn ("Bad API key from " +:+ ip req); Respond 401 invalid_api_key]).
Proof. intros H. rewrite sync_shape. unfold sync_as_planned. by rewrite H. Qed.

Lemma sync_not_an_array (r : revision) (req : request) (d : database) :
  strict_equals (field "apiKey" (body req)) (env_value (API_KEY env)) = true →
  isArray (field "data" (body req)) = false →
  sync r req d =
  (Normal tt, d, [Log warn "Sync request missing data array"; Respond 400 invalid_data_format]).
Proof.
  intros H Hdata. rewrite sync_shape. unfold sync_as_planned. rewrite H.
  by destruct (field "data" (body req)).
Qed.

Lemma sync_planned (r : revision) (req : request) (d : database) (data : list value) :
  strict_equals (field "apiKey" (body req)) (env_value (API_KEY env)) = true →
  field "data" (body req) = Arr data →
  sync r req d =
  match resolved r req with
  | Normal t => run_plan (plan_of r req t (length data)) data d
  | Throw msg => (Throw msg, d, [])
  end.
Proof.
  intros H Hdata. rewrite sync_shape. unfold sync_as_planned. rewrite H, Hdata.
  apply lift_bind.
Qed.

(** C3. A request whose [apiKey] is not strictly equal to the configured
    secret (a request without [apiKey] is one as soon as a secret is
    configured) is answered 401 "Invalid API key" after one warning and
    nothing else: the database is the same, no connection is taken, and
    the answer does not depend on [data], which is not looked at. *)
Theorem wrong_key_is_rejected (r : revision) (req : request) (d : database) :
  strict_equals (field "apiKey" (body req)) (env_value (API_KEY env)) = false →
  sync r req d =
    (Normal tt, d, [Log warn ("Bad API key from " +:+ ip req); Respond 401 invalid_api_key]) ∧
  database_after (sync r req d) = d ∧
  statements (events_of (sync r req d)) = [] ∧
  responses (events_of (sync r req d)) = [(401, invalid_api_key)] ∧
  message invalid_api_key = Some "Invalid API key".
Proof. intros H. rewrite sync_unauthorized by done. done. Qed.

(** A missing [apiKey] differs from any configured secret. *)
Lemma missing_key_differs (req : request) (secret : string) :
  own_property "apiKey" (body req) = None →
  strict_equals (field "apiKey" (body req)) (env_value (Some secret)) = false.
Proof. unfold field. by intros ->. Qed.

(** C8. An authorized request whose [data] is not an array is answered 400
    "Invalid data format" after one warning and nothing else: no
    connection is taken, no statement is sent, the database is the
    same. *)
Theorem non_array_is_bad_request (r : revision) (req : request) (d : database) :
  strict_equals (field "apiKey" (body req)) (env_value (API_KEY env)) = true →
  isArray (field "data" (body req)) = false →
  sync r req d =
    (Normal tt, d,
     [Log warn "Sync request missing data array"; Respond 400 invalid_data_format]) ∧
  database_after (sync r req d) = d ∧
  existsb touches_pool (events_of (sync r req d)) = false ∧
  responses (events_of (sync r req d)) = [(400, invalid_data_format)] ∧
  message invalid_data_format = Some "Invalid data format".
Proof. intros H Hdata. rewrite sync_not_an_array by done. done. Qed.

(** *** Logs, statements and responses of a run *)

Lemma plan_width (r : revision) (req : request) (t : string) (n : nat) (row : value)
    (vs : list value) :
  row_values (plan_of r req t n) row = Normal vs →
  length vs = length (columns (plan_of r req t n)).
Proof.
  destruct r; cbn [row_values columns Sync.plan_of Sync.values_of columns_of].
  - unfold sanitized_values.
    destruct (sanitized row "code"); [|done]. destruct (sanitized row "name"); [|done].
    destruct (sanitized row "address"); [|done]. destruct (sanitized row "branch"); [|done].
    by intros [= <-].
  - apply mapM_length.
  - unfold raw_values.
    destruct (get row "code"); [|done]. destruct (get row "name"); [|done].
    destruct (get row "address"); [|done]. destruct (get row "branch"); [|done].
    by intros [= <-].
  - unfold raw_values.
    destruct (get row "code"); [|done]. destruct (get row "name"); [|done].
    destruct (get row "address"); [|done]. destruct (get row "branch"); [|done].
    by intros [= <-].
Qed.

(** A request that a failed statement is part of went through the
    [catch] block, entered with the error of this statement, the only
    one to fail before the ROLLBACK; nothing was answered until then and
    nothing was committed. *)
Lemma failed_query_elem (events : list event) (q : statement) (msg : string) :
  Query q (Some msg) ∈ events → msg ∈ failures events.
Proof. intros H. apply list_elem_of_omap. by exists (Query q (Some msg)). Qed.

Lemma no_query_in_preamble (line : string) (q : statement) (outcome : option string) :
  Query q outcome ∉ [Log info line; Connect].
Proof. intros H. repeat (apply elem_of_cons in H as [H|H]; [done |]). by inversion H. Qed.

Lemma rolled_back_elem (msg m : string) (q : statement) (d : database) (events : list event) :
  Query q (Some m) ∈ events_of (rolled_back pg msg d events) → q ≠ ROLLBACK →
  Query q (Some m) ∈ events.
Proof.
  rewrite rolled_back_events. intros H Hq. apply elem_of_app in H as [H|H]; [done |].
  apply elem_of_cons in H as [[= -> _]|H]; [done |].
  destruct (refusal pg ROLLBACK);
    repeat (apply elem_of_cons in H as [H|H]; [done |]); by inversion H.
Qed.

Lemma run_plan_failure (pl : plan) (data : list value) (d : database) (q : statement)
    (msg : string) :
  0 < chunkSize pl →
  Query q (Some msg) ∈ events_of (run_plan pl data d) → q ≠ ROLLBACK →
  ∃ before d1,
    run_plan pl data d = rolled_back pg msg d1 (before ++ [Query q (Some msg)]) ∧
    failures before = [] ∧ responses before = [] ∧ committed d1 = committed d ∧
    (Query ROLLBACK None ∉ before) ∧ connecting pg = None.
Proof.
  intros Hpos. rewrite run_plan_run.
  destruct (connecting pg) as [e|].
  { intros H. repeat (apply elem_of_cons in H as [H|H]; [done |]). by inversion H. }
  destruct (attempt _ _ _) as [[outcome d1] e1] eqn:Ha.
  destruct (attempt_invariant _ _ _ _ _ _ _ _ Ha) as (Hc & Hin & Hf).
  pose proof (inside_responses _ Hin) as Hresp.
  pose proof (inside_no_end _ None Hin) as [_ Hend].
  apply attempt_prefix in Ha as (rowss & _ & _ & _ & Hr); [|done].
  assert (Hpre : Query ROLLBACK None ∉ [Log info (announce pl); Connect] ++ e1).
  { intros H. apply elem_of_app in H as [H|H]; [by apply no_query_in_preamble in H | done]. }
  destruct outcome as [n|m].
  - destruct Hr as (_ & Hfail & _).
    destruct (refusal pg COMMIT) as [e|] eqn:Hcommit.
    + intros Hin' Hq. apply rolled_back_elem in Hin'; [|done].
      rewrite !elem_of_app in Hin'. destruct Hin' as [Hin'|[Hin'|Hin']].
      * by apply no_query_in_preamble in Hin'.
      * apply failed_query_elem in Hin'. rewrite Hfail in Hin'. by inversion Hin'.
      * apply list_elem_of_singleton in Hin' as [= -> ->].
        exists ([Log info (announce pl); Connect] ++ e1), d1.
        rewrite <- app_assoc. split; [done |].
        split; [by rewrite failures_app, Hfail |].
        split; [by rewrite responses_app, Hresp | done].
    + unfold events_of. cbn [snd]. intros Hin' _. exfalso.
      rewrite !elem_of_app in Hin'. destruct Hin' as [Hin'|[Hin'|Hin']].
      * by apply no_query_in_preamble in Hin'.
      * apply failed_query_elem in Hin'. rewrite Hfail in Hin'. by inversion Hin'.
      * repeat (apply elem_of_cons in Hin' as [Hin'|Hin']; [done |]). by inversion Hin'.
  - intros Hin' Hq. apply rolled_back_elem in Hin'; [|done].
    apply elem_of_app in Hin' as [Hin'|Hin']; [by apply no_query_in_preamble in Hin' |].
    destruct Hr as [(before & q' & -> & Hb & _)|(Hfail & _)].
    + apply elem_of_app in Hin' as [Hin'|Hin'].
      { apply failed_query_elem in Hin'. rewrite Hb in Hin'. by inversion Hin'. }
      apply list_elem_of_singleton in Hin' as [= -> ->].
      exists ([Log info (announce pl); Connect] ++ before), d1.
      rewrite <- app_assoc. split; [done |]. split; [done |].
      rewrite responses_app in Hresp. apply app_eq_nil in Hresp as [Hresp _].
      split; [done |]. split; [done |]. split; [|done].
      intros H. apply Hpre. rewrite app_assoc. apply elem_of_app. by left.
    + apply failed_query_elem in Hin'. rewrite Hfail in Hin'. by inversion Hin'.
Qed.

(** An authorized request with an array and a table is answered 200 or
    500, once, or not at all. *)
Lemma run_plan_responses (pl : plan) (data : list value) (d : database) :
  responses (events_of (run_plan pl data d)) = [] ∨
  ∃ status body, responses (events_of (run_plan pl data d)) = [(status, body)] ∧
                 (status = 200 ∨ status = 500).
Proof.
  rewrite run_plan_run. destruct (connecting pg) as [e|]; [by left |].
  destruct (attempt _ _ _) as [[[n|msg] d1] e1] eqn:Ha;
    apply attempt_invariant in Ha as (_ & Hin & _);
    pose proof (inside_responses _ Hin) as Hresp.
  - destruct (refusal pg COMMIT) as [e|].
    + rewrite rolled_back_responses by (by rewrite !responses_app, Hresp).
      destruct (refusal pg ROLLBACK); [by left | right; eauto].
    + right. unfold events_of. cbn [snd]. rewrite !responses_app, Hresp. eauto.
  - rewrite rolled_back_responses by (by rewrite !responses_app, Hresp).
    destruct (refusal pg ROLLBACK); [by left | right; eauto].
Qed.

(** The gate lets through exactly the requests whose [apiKey] is strictly
    equal to the configured secret. *)
Lemma gate_exact (r : revision) (req : request) (d : database) :
  (401, invalid_api_key) ∈ responses (events_of (sync r req d)) ↔
  strict_equals (field "apiKey" (body req)) (env_value (API_KEY env)) = false.
Proof.
  split.
  - intros Hin. destruct (strict_equals _ _) eqn:H; [exfalso | done].
    destruct (isArray (field "data" (body req))) eqn:Hdata.
    + destruct (field "data" (body req)) as [| | | | |data|] eqn:Hd; try done.
      rewrite (sync_planned r req d data) in Hin by done.
      destruct (resolved r req) as [t|msg]; [|by inversion Hin].
      destruct (run_plan_responses (plan_of r req t (length data)) data d) as
        [Hr|(status & b & Hr & Hs)]; rewrite Hr in Hin; [by inversion Hin |].
      apply list_elem_of_singleton in Hin as [= <- _]. lia.
    + rewrite sync_not_an_array in Hin by done. cbn in Hin.
      apply list_elem_of_singleton in Hin. done.
  - intros H. rewrite sync_unauthorized by done. cbn. by apply list_elem_of_singleton.
Qed.

(** C9. With no secret configured, a request without [apiKey] passes the
    gate, [undefined] being strictly equal to [undefined]: it is never
    answered 401 and goes on as an authorized request does, to the 400
    answer when [data] is not an array and else, with a table and a
    connection, to the BEGIN of its transaction. The gate stops a request
    exactly when its [apiKey] is not strictly equal to the configured
    secret. *)
Theorem no_secret_no_protection (r : revision) (req : request) (d : database) :
  API_KEY env = None →
  own_property "apiKey" (body req) = None →
  strict_equals (field "apiKey" (body req)) (env_value (API_KEY env)) = true ∧
  Forall (λ response, response.1 ≠ 401) (responses (events_of (sync r req d))) ∧
  sync r req d =
    match field "data" (body req) with
    | Arr data =>
        match resolved r req with
        | Normal t => run_plan (plan_of r req t (length data)) data d
        | Throw msg => (Throw msg, d, [])
        end
    | _ =>
        (Normal tt, d, [Log warn "Sync request missing data array";
                        Respond 400 invalid_data_format])
    end ∧
  (∀ data t, field "data" (body req) = Arr data → resolved r req = Normal t →
             connecting pg = None →
             ∃ rest, events_of (sync r req d) =
                     Log info (received r (length data) t) :: Connect
                       :: Query BEGIN (refusal pg BEGIN) :: rest) ∧
  (∀ req' d', (401, invalid_api_key) ∈ responses (events_of (sync r req' d')) ↔
              strict_equals (field "apiKey" (body req')) (env_value (API_KEY env)) = false).
Proof.
  intros Hkey Hreq.
  assert (H : strict_equals (field "apiKey" (body req)) (env_value (API_KEY env)) = true).
  { unfold field. by rewrite Hkey, Hreq. }
  split; [done |].
  assert (Hsync : sync r req d =
    match field "data" (body req) with
    | Arr data =>
        match resolved r req with
        | Normal t => run_plan (plan_of r req t (length data)) data d
        | Throw msg => (Throw msg, d, [])
        end
    | _ =>
        (Normal tt, d, [Log warn "Sync request missing data array";
                        Respond 400 invalid_data_format])
    end).
  { destruct (field "data" (body req)) as [| | | | |data|] eqn:Hd;
      try (by rewrite sync_not_an_array by (by rewrite ?Hd)).
    by rewrite (sync_planned r req d data). }
  split; [|split; [done |split]].
  - rewrite Hsync. destruct (field "data" (body req)) as [| | | | |data|] eqn:Hd;
      try (repeat constructor; done).
    destruct (resolved r req) as [t|msg]; [|constructor].
    destruct (run_plan_responses (plan_of r req t (length data)) data d) as
      [->|(status & b & -> & Hs)]; [constructor |].
    repeat constructor. cbn. lia.
  - intros data t Hd Ht Hconn. rewrite Hsync, Hd, Ht, run_plan_run, Hconn.
    destruct (attempt _ _ _) as [[outcome d1] e1] eqn:Ha.
    destruct (attempt_begins _ _ _ _ _ _ _ _ Ha) as [rest ->].
    destruct outcome as [n|msg]; [destruct (refusal pg COMMIT) |];
      rewrite ?rolled_back_events; unfold events_of; cbn; by eexists.
  - intros req' d'. apply gate_exact.
Qed.

(** *** The table name *)

(** C4. A candidate table name is the target table exactly when it
    is made of one or more ASCII letters, digits or underscores; any
    other candidate gives way to the default table. *)
Theorem identifier_allow_list (candidate : string) :
  Sync.isValidIdentifier Number_toString (Str candidate) = Normal (Spec.allowed candidate) ∧
  Sync.targetTable Number_toString env (Str candidate) =
    Normal (Str (if Spec.allowed candidate then candidate else DEFAULT_TABLE env)) ∧
  Spec.allowed "clients_2024" = true ∧
  Spec.allowed "clients; DROP TABLE x" = false.
Proof.
  assert (Hv : Sync.isValidIdentifier Number_toString (Str candidate)
               = Normal (Spec.allowed candidate)).
  { unfold Sync.isValidIdentifier. cbn. by rewrite test_identifier. }
  split; [done |]. split; [|split; reflexivity].
  unfold Sync.targetTable. rewrite Hv. cbn.
  destruct candidate as [|c candidate]; [done |]. cbn.
  by destruct (Spec.word_char c && _).
Qed.

(** *** Coercion of fields *)

Lemma includes_cons (x y : string) (l : list string) :
  includes (y :: l) x = String.eqb x y || includes l x.
Proof. reflexivity. Qed.

(** C5, amended. A string column of the wide revision stores null for a
    missing or null field and otherwise the trimmed string conversion of
    the field, or null when that is empty; [src/server.js] stores the
    empty string for any falsy field (missing, null, empty, zero, false)
    and otherwise the trimmed string conversion, empty or not. Both store
    "Acme" for "  Acme  ". *)
Theorem string_fields_are_trimmed (col name : string) (row v : value) :
  string_column col = true →
  get row name = Normal v →
  coerce col v =
    match v with
    | Undefined | Null => Normal Null
    | _ =>
        s ← toString_method Number_toString "value" v;
        Normal (if String.eqb (trim s) "" then Null else Str (trim s))
    end ∧
  sanitized row name =
    (if truthy v
     then s ← toString_method Number_toString (receiver name) v; Normal (Str (trim s))
     else Normal (Str "")) ∧
  coerce "name" (Str "  Acme  ") = Normal (Str "Acme") ∧
  sanitized (Obj [("name", Str "  Acme  ")]) "name" = Normal (Str "Acme").
Proof.
  intros Hcol Hget. split; [|split; [|split; reflexivity]].
  - unfold string_column in Hcol. apply negb_true_iff in Hcol.
    rewrite !includes_cons, !orb_false_iff in Hcol.
    destruct Hcol as (Hdate & Hfloat & H1 & H2 & H3 & _).
    unfold Sync.coerce. rewrite !includes_cons, Hdate, Hfloat, H1, H2, H3.
    cbn [includes existsb orb]. rewrite !andb_false_r.
    destruct v as [| |b|n|s|l|o]; try reflexivity.
  - unfold Sync.sanitized. rewrite Hget. cbn [mbind completion_bind]. unfold or_else.
    destruct (truthy v); reflexivity.
Qed.

Lemma ToString_scalar (v : value) :
  Spec.scalar v = true → ∃ s, ToString Number_toString v = Normal s.
Proof. destruct v as [| |[]| | | |]; try discriminate; by eexists. Qed.

(** C6, amended. A numeric column of the wide revision ([priorty],
    [clients] and [sp] as integers, [amcamt] as a float) stores a number
    as it is, null for a missing, null or empty field, and otherwise what
    the text of the field parses to, or null when that is no number or
    is zero. Nothing is thrown unless the conversion of the field to text
    throws, which it does not on the scalars of the data model. So "42"
    gives 42, "" gives null and "3.14" gives 3.14 in a float column. *)
Theorem numeric_fields_parse_or_null (col : string) (parse : string → number) (v : value) :
  numeric_parser col = Some parse →
  coerce col v = Spec.parse_or_null (ToString Number_toString) parse v ∧
  (Spec.scalar v = true → ∃ number_or_null, coerce col v = Normal number_or_null) ∧
  numeric_parser "priorty" = Some parseInt ∧
  numeric_parser "clients" = Some parseInt ∧
  numeric_parser "sp" = Some parseInt ∧
  numeric_parser "amcamt" = Some parseFloat ∧
  coerce "priorty" (Str "42") = Normal (Num (Spec.of_Z 42)) ∧
  coerce "priorty" (Str "") = Normal Null ∧
  coerce "amcamt" (Str "3.14") = Normal (Num Spec.three_point_fourteen).
Proof.
  intros Hcol.
  assert (Hcase : (col = "amcamt" ∧ parse = parseFloat) ∨
                  ((col = "priorty" ∨ col = "clients" ∨ col = "sp") ∧ parse = parseInt)).
  { unfold numeric_parser in Hcol. destruct (includes ["amcamt"] col) eqn:H1.
    - left. injection Hcol as <-. rewrite includes_cons, orb_false_r in H1.
      by apply String.eqb_eq in H1.
    - destruct (includes ["priorty"; "clients"; "sp"] col) eqn:H2; [|done].
      right. injection Hcol as <-. rewrite !includes_cons, orb_false_r in H2.
      apply orb_true_iff in H2 as [H2|H2]; [apply String.eqb_eq in H2; auto |].
      apply orb_true_iff in H2 as [H2|H2]; apply String.eqb_eq in H2; auto. }
  assert (Heq : coerce col v = Spec.parse_or_null (ToString Number_toString) parse v).
  { assert (Hor : ∀ n, or_else (Num n) Null = if is_nan n || is_zero n then Null else Num n).
    { by intros []. }
    destruct Hcase as [[-> ->]|[[->|[->| ->]] ->]];
      destruct v as [| |b|n|[|c s]|l|o]; try reflexivity;
      unfold Sync.coerce, Spec.parse_or_null;
      cbn [strict_equals typeof_number includes existsb String.eqb Ascii.eqb Bool.eqb
           andb orb negb];
      (destruct (ToString _ _) as [t|msg]; [|reflexivity]);
      cbn [mbind completion_bind mret completion_ret]; by rewrite Hor. }
  split; [done |]. split; [|repeat split; reflexivity].
  intros Hv. rewrite Heq. destruct (ToString_scalar v Hv) as [s Hs].
  unfold Spec.parse_or_null. rewrite Hs. destruct v as [| |b|n|[|c t]|l|o]; by eexists.
Qed.

(** *** The transaction *)

Lemma plan_chunkSize (r : revision) (req : request) (t : string) (n : nat) :
  0 < chunkSize (plan_of r req t n).
Proof. destruct r; cbn; lia. Qed.



Lemma concat_uniform_length {A} (rows : list (list A)) (w : nat) :
  Forall (λ row, length row = w) rows → length (concat rows) = length rows * w.
Proof.
  induction 1 as [|row rows Hrow _ IH]; [done |]. cbn [concat length].
  rewrite length_app, IH, Hrow. lia.
Qed.

Lemma inserts_app (e1 e2 : list event) : inserts (e1 ++ e2) = inserts e1 ++ inserts e2.
Proof. unfold inserts. by rewrite statements_app, filter_app. Qed.

(** What a run that answers 200 has done. *)
Lemma run_plan_succeeded (pl : plan) (data : list value) (d : database) (reply : reply) :
  (200, reply) ∈ responses (events_of (run_plan pl data d)) →
  ∃ n d1 e1,
    attempt pl data d = (Normal n, d1, e1) ∧ reply = succeeded n ∧
    run_plan pl data d =
      (Normal tt, {| committed := current d1; Pg.transaction := None |},
       [Log info (announce pl); Connect] ++ e1 ++
       [Query COMMIT None; Log info (done_line pl n); Respond 200 (succeeded n); Release]) ∧
    inserts (events_of (run_plan pl data d)) = inserts e1 ∧
    connecting pg = None ∧ refusal pg COMMIT = None.
Proof.
  rewrite run_plan_run. destruct (connecting pg) as [e|]; [by inversion 1 |].
  destruct (attempt _ _ _) as [[[n|msg] d1] e1] eqn:Ha;
    apply attempt_invariant in Ha as (_ & Hin & _);
    pose proof (inside_responses _ Hin) as Hresp.
  - destruct (refusal pg COMMIT) as [e|].
    { rewrite rolled_back_responses by (by rewrite !responses_app, Hresp).
      destruct (refusal pg ROLLBACK); [by inversion 1 |].
      rewrite list_elem_of_singleton. done. }
    unfold events_of; cbn [snd]. rewrite !responses_app, Hresp.
    cbn; rewrite list_elem_of_singleton; intros [= ->].
    exists n, d1, e1. repeat split.
    fold (statements (e1 ++ [Query COMMIT None; Log info (done_line pl n);
                             Respond 200 (succeeded n); Release])).
    fold (inserts (e1 ++ [Query COMMIT None; Log info (done_line pl n);
                          Respond 200 (succeeded n); Release])).
    rewrite inserts_app. cbn. by rewrite app_nil_r.
  - rewrite rolled_back_responses by (by rewrite !responses_app, Hresp).
    destruct (refusal pg ROLLBACK); [by inversion 1 |].
    rewrite list_elem_of_singleton. done.
Qed.


(** C2, amended. When a revision clears the table for the request
    (always, but for the revision with [truncateFirst], which does
    so when the flag is truthy) and the request is answered 200, the table
    holds the rows of the request's records, once, and the same request
    sent again is answered the same and leaves the database as it is. *)
Theorem replay_keeps_one_snapshot (r : revision) (req : request) (d : database)
    (data : list value) (reply : reply) :
  strict_equals (field "apiKey" (body req)) (env_value (API_KEY env)) = true →
  field "data" (body req) = Arr data →
  clears r req = true →
  (200, reply) ∈ responses (events_of (sync r req d)) →
  sync r req (database_after (sync r req d)) = sync r req d ∧
  ∃ t rows,
    resolved r req = Normal t ∧
    mapM (values_of r) data = Normal rows ∧
    length rows = length data ∧
    committed (database_after (sync r req d)) !! relation pg t = Some (stored rows).
Proof.
  intros Hauth Hdata Hclears. rewrite !(sync_planned r req _ data) by done.
  destruct (resolved r req) as [t|m]; [|by inversion 1].
  intros Hok.
  pose proof (plan_chunkSize r req t (length data)) as Hpos.
  pose proof (plan_width r req t (length data)) as Hw.
  apply run_plan_succeeded in Hok as (n & d1 & e1 & Ha & -> & Hrun & _ & Hconn & Hcommit).
  assert (Hc : is_Some (clearing (plan_of r req t (length data)))).
  { destruct r; cbn in *; try (by eexists). rewrite Hclears. by eexists. }
  rewrite Hrun. unfold database_after. cbn [fst snd]. split.
  - rewrite run_plan_run, Hconn, (attempt_replay _ _ _ Hw _ _ _ _ _ Hpos Hc Ha), Hcommit.
    reflexivity.
  - destruct (attempt_success _ _ _ Hw _ _ _ _ _ Hpos Ha)
      as (rowss & _ & Hrows & _ & _ & _ & Ht & _).
    exists t, (concat rowss). repeat split; [done | by apply mapM_length in Hrows |].
    by apply Ht.
Qed.

Lemma values_of_null (r : revision) : ∃ msg, values_of r Null = Throw msg.
Proof. destruct r; by eexists. Qed.

Lemma values_of_scalar (r : revision) (v : value) :
  match v with Bool _ | Num _ | Str _ => True | _ => False end →
  ∃ vs, values_of r v = Normal vs.
Proof. destruct r, v; try done; intros _; by eexists. Qed.

(** C10, amended. No revision checks the shape of the records. When the
    array of an authorized request holds a [null], no answer is given but
    500; once the connection is taken, the transaction is begun and a
    ROLLBACK ends it, reading a property of [null] throwing inside the
    [try] block unless a statement has failed before, and nothing is
    committed; when the ROLLBACK is accepted the request is answered 500.
    A string, a number or a boolean in the place of a record has no
    fields and makes nothing throw. *)
Theorem null_record_is_a_server_error (r : revision) (req : request) (d : database)
    (data : list value) (t : string) :
  strict_equals (field "apiKey" (body req)) (env_value (API_KEY env)) = true →
  field "data" (body req) = Arr data →
  resolved r req = Normal t →
  Null ∈ data →
  Forall (λ response, response.1 = 500) (responses (events_of (sync r req d))) ∧
  (∃ msg, values_of r Null = Throw msg) ∧
  (connecting pg = None →
   ∃ before msg after,
     events_of (sync r req d) = before ++ Query ROLLBACK (refusal pg ROLLBACK) :: after ∧
     Query BEGIN (refusal pg BEGIN) ∈ before ∧
     responses before = [] ∧
     committed (database_after (sync r req d)) = committed d ∧
     Pg.transaction (database_after (sync r req d)) = None ∧
     (refusal pg ROLLBACK = None →
      after = [Log error ("Sync failed: " +:+ msg); Respond 500 (failed msg); Release] ∧
      responses (events_of (sync r req d)) = [(500, failed msg)])) ∧
  (∀ v, match v with Bool _ | Num _ | Str _ => True | _ => False end →
        ∃ vs, values_of r v = Normal vs).
Proof.
  intros Hauth Hdata Ht Hnull. rewrite (sync_planned r req d data), Ht by done.
  pose proof (plan_chunkSize r req t (length data)) as Hpos.
  pose proof (plan_width r req t (length data)) as Hw.
  assert (Hthrown : ∀ n d1 e1,
            attempt (plan_of r req t (length data)) data d ≠ (Normal n, d1, e1)).
  { intros n d1 e1 Ha.
    destruct (attempt_success _ _ _ Hw _ _ _ _ _ Hpos Ha) as (rowss & _ & Hrows & _).
    destruct (mapM_normal_elem _ _ _ _ Hrows Hnull) as [y Hy].
    destruct (values_of_null r) as [msg Hmsg]. cbn in Hy. congruence. }
  split; [|split; [apply values_of_null |split; [|apply values_of_scalar]]].
  - rewrite run_plan_run. destruct (connecting pg); [constructor |].
    destruct (attempt _ _ _) as [[[n|msg] d1] e1] eqn:Ha; [by destruct (Hthrown n d1 e1) |].
    apply attempt_invariant in Ha as (_ & Hin & _).
    rewrite rolled_back_responses by (by rewrite responses_app, (inside_responses e1)).
    destruct (refusal pg ROLLBACK); by repeat constructor.
  - intros Hconn. rewrite run_plan_run, Hconn.
    destruct (attempt _ _ _) as [[[n|msg] d1] e1] eqn:Ha; [by destruct (Hthrown n d1 e1) |].
    destruct (attempt_begins _ _ _ _ _ _ _ _ Ha) as [rest ->].
    apply attempt_invariant in Ha as (Hc & Hin & _).
    assert (Hresp : responses ([Log info (announce (plan_of r req t (length data))); Connect]
                               ++ Query BEGIN (refusal pg BEGIN) :: rest) = []).
    { by rewrite responses_app, (inside_responses _ Hin). }
    exists ([Log info (announce (plan_of r req t (length data))); Connect]
            ++ Query BEGIN (refusal pg BEGIN) :: rest), msg,
      (match refusal pg ROLLBACK with
       | None => [Log error ("Sync failed: " +:+ msg); Respond 500 (failed msg); Release]
       | Some _ => [Release]
       end).
    rewrite rolled_back_events, rolled_back_database.
    split; [done |]. split.
    { apply elem_of_app. right. by left. }
    split; [done |]. split; [done |]. split; [done |].
    intros ->. split; [done |]. by rewrite responses_app, Hresp.
Qed.

End Endpoint.

(** ** The endpoint at work *)

Section Examples.
Import JS Pg Http Sync Observe Example.

(** The statement of a chunk of two records, as text. *)
Lemma insert_text :
  sql (INSERT_INTO "rrc_clients" narrow_columns (Spec.placeholders 2 4) []) =
  "INSERT INTO rrc_clients (code, name, address, branch) VALUES ($1, $2, $3, $4), ($5, $6, $7, $8)".
Proof. reflexivity. Qed.

(** Numbers in the notation of the engine. *)
Lemma numbers_as_text :
  Number_toString <$> (parseFloat <$> ["7"; "-42"; "3.14"; "0.1"; "1e21"; "0.0000001";
                                       "123456789012345680000"; "9007199254740993"; "5e-324"])
  = ["7"; "-42"; "3.14"; "0.1"; "1e+21"; "1e-7"; "123456789012345680000"; "9007199254740992";
     "5e-324"] ∧
  Number_toString (SFadd prec emax (parseFloat "0.1") (parseFloat "0.2")) =
    "0.30000000000000004" ∧
  Number_toString (SFdiv prec emax (parseFloat "1") (parseFloat "3")) = "0.3333333333333333".
Proof. repeat split; by vm_compute. Qed.

(** The end-to-end example of the specification: one record, one row. *)
Lemma one_record_end_to_end :
  responses (events_of (sync Number_toString unconstrained env ServerJs one_record db)) =
    [(200, succeeded 1)] ∧
  committed (database_after (sync Number_toString unconstrained env ServerJs one_record db))
    !! "rrc_clients" = Some [[Str "1"; Str "Acme"; Str "X"; Str "B"]].
Proof. split; by vm_compute. Qed.

Lemma wrong_key_is_rejected_witness :
  strict_equals (field "apiKey" (body no_key)) (env_value (API_KEY env)) = false ∧
  sync Number_toString unconstrained env Wide no_key db =
    (Normal tt, db, [Log warn "Bad API key from 10.0.0.7"; Respond 401 invalid_api_key]).
Proof.
  split; [reflexivity |].
  apply (wrong_key_is_rejected Number_toString unconstrained env Wide no_key db).
  reflexivity.
Defined.



Lemma replay_keeps_one_snapshot_witness :
  strict_equals (field "apiKey" (body one_record_truncating)) (env_value (API_KEY env)) = true ∧
  field "data" (body one_record_truncating) = Arr [record] ∧
  clears TruncateFirst one_record_truncating = true ∧
  (200, succeeded 1) ∈
    responses (events_of (sync Number_toString unconstrained env TruncateFirst
                            one_record_truncating db)) ∧
  sync Number_toString unconstrained env TruncateFirst one_record_truncating
    (database_after (sync Number_toString unconstrained env TruncateFirst
                       one_record_truncating db)) =
  sync Number_toString unconstrained env TruncateFirst one_record_truncating db.
Proof.
  split; [reflexivity |]. split; [reflexivity |]. split; [reflexivity |].
  split; [vm_compute; constructor |].
  apply (replay_keeps_one_snapshot Number_toString unconstrained env TruncateFirst
           one_record_truncating db [record] (succeeded 1));
    [reflexivity | reflexivity | reflexivity | vm_compute; constructor].
Defined.

(** C2, as stated, fails: asked twice without [truncateFirst], the
    revision that offers the flag clears nothing and answers 200 both
    times; the table then holds its old row and the record twice. *)
Lemma replay_without_flag_duplicates :
  clears TruncateFirst one_record = false ∧
  (200, succeeded 1) ∈ responses (events_of first_sync) ∧
  (200, succeeded 1) ∈ responses (events_of second_sync) ∧
  mapM raw_values [record] = Normal [[Str "1"; Str "  Acme  "; Str "X"; Str "B"]] ∧
  committed (database_after second_sync) !! "rrc_clients" =
    Some [[Str "0"; Str "Old"; Str "Y"; Str "C"];
          [Str "1"; Str "  Acme  "; Str "X"; Str "B"];
          [Str "1"; Str "  Acme  "; Str "X"; Str "B"]] ∧
  committed (database_after second_sync) !! "rrc_clients" ≠
    Some [[Str "1"; Str "  Acme  "; Str "X"; Str "B"]].
Proof.
  split; [reflexivity |]. split; [vm_compute; constructor |].
  split; [vm_compute; constructor |]. split; [reflexivity |].
  split; [by vm_compute | by vm_compute].
Qed.

Lemma string_fields_are_trimmed_witness :
  string_column "name" = true ∧
  get record "name" = Normal (Str "  Acme  ") ∧
  coerce Number_toString "name" (Str "  Acme  ") = Normal (Str "Acme") ∧
  sanitized Number_toString record "name" = Normal (Str "Acme").
Proof.
  split; [reflexivity |]. split; [reflexivity |].
  destruct (string_fields_are_trimmed Number_toString "name" "name" record (Str "  Acme  ")
              eq_refl eq_refl) as (H1 & H2 & _).
  split; [exact H1 | exact H2].
Defined.

(** C5, as stated, fails: in [src/server.js] a missing field is stored as
    the empty string, not as null. *)
Lemma missing_field_is_stored_empty :
  get nameless "name" = Normal Undefined ∧
  sanitized Number_toString nameless "name" = Normal (Str "") ∧
  sanitized Number_toString nameless "name" ≠ Normal Null.
Proof. split; [reflexivity |]. split; [reflexivity | discriminate]. Qed.

Lemma numeric_fields_parse_or_null_witness :
  numeric_parser "amcamt" = Some parseFloat ∧
  coerce Number_toString "amcamt" (Arr [Str " 2.50 "]) =
    Spec.parse_or_null (ToString Number_toString) parseFloat (Arr [Str " 2.50 "]).
Proof.
  split; [reflexivity |].
  apply (numeric_fields_parse_or_null Number_toString "amcamt" parseFloat
           (Arr [Str " 2.50 "])); reflexivity.
Defined.

(** C6, as stated, fails: a field that is an object with a property named
    [toString] has no text; parsing it throws, and the wide revision answers
    500 to the request. *)
Lemma numeric_field_can_throw :
  numeric_parser "priorty" = Some parseInt ∧
  coerce Number_toString "priorty" (Obj [("toString", Null)]) =
    Throw "Cannot convert object to primitive value" ∧
  responses (events_of (sync Number_toString unconstrained env Wide textless_priority db)) =
    [(500, failed "Cannot convert object to primitive value")].
Proof. split; [reflexivity |]. split; [reflexivity | by vm_compute]. Qed.


Lemma non_array_is_bad_request_witness :
  strict_equals (field "apiKey" (body not_an_array)) (env_value (API_KEY env)) = true ∧
  isArray (field "data" (body not_an_array)) = false ∧
  sync Number_toString unconstrained env TruncateAlways not_an_array db =
    (Normal tt, db,
     [Log warn "Sync request missing data array"; Respond 400 invalid_data_format]).
Proof.
  split; [reflexivity |]. split; [reflexivity |].
  apply (non_array_is_bad_request Number_toString unconstrained env TruncateAlways
           not_an_array db); reflexivity.
Defined.

Lemma no_secret_no_protection_witness :
  API_KEY env_without_secret = None ∧
  own_property "apiKey" (body only_data) = None ∧
  strict_equals (field "apiKey" (body only_data)) (env_value (API_KEY env_without_secret))
    = true ∧
  Forall (λ response, response.1 ≠ 401)
    (responses (events_of (sync Number_toString unconstrained env_without_secret ServerJs
                             only_data db))) ∧
  ∃ rest,
    events_of (sync Number_toString unconstrained env_without_secret ServerJs only_data db) =
    Log info (received ServerJs 1 "rrc_clients") :: Connect :: Query BEGIN None :: rest.
Proof.
  split; [reflexivity |]. split; [reflexivity |].
  destruct (no_secret_no_protection Number_toString unconstrained env_without_secret ServerJs
              only_data db eq_refl eq_refl) as (Hpass & Hnever & _ & Hbegins & _).
  split; [exact Hpass |]. split; [exact Hnever |].
  apply (Hbegins [record] "rrc_clients"); reflexivity.
Defined.

(** Without a secret, the request without a key replaces the table. *)
Lemma no_secret_sync_goes_through :
  responses (events_of (sync Number_toString unconstrained env_without_secret ServerJs
                          only_data db)) = [(200, succeeded 1)].
Proof. by vm_compute. Qed.

Lemma null_record_is_a_server_error_witness :
  strict_equals (field "apiKey" (body null_record)) (env_value (API_KEY env)) = true ∧
  field "data" (body null_record) = Arr [Null] ∧
  resolved Number_toString env ServerJs null_record = Normal "rrc_clients" ∧
  Null ∈ [Null] ∧
  Forall (λ response, response.1 = 500)
    (responses (events_of (sync Number_toString unconstrained env ServerJs null_record db))) ∧
  ∃ before msg after,
    events_of (sync Number_toString unconstrained env ServerJs null_record db) =
      before ++ Query ROLLBACK (refusal unconstrained ROLLBACK) :: after ∧
    Query BEGIN (refusal unconstrained BEGIN) ∈ before ∧
    responses before = [] ∧
    committed (database_after (sync Number_toString unconstrained env ServerJs
                                 null_record db)) = committed db ∧
    Pg.transaction (database_after (sync Number_toString unconstrained env ServerJs
                                      null_record db)) = None ∧
    (refusal unconstrained ROLLBACK = None →
     after = [Log error ("Sync failed: " +:+ msg); Respond 500 (failed msg); Release] ∧
     responses (events_of (sync Number_toString unconstrained env ServerJs null_record db)) =
       [(500, failed msg)]).
Proof.
  split; [reflexivity |]. split; [reflexivity |]. split; [reflexivity |].
  split; [constructor |].
  destruct (null_record_is_a_server_error Number_toString unconstrained env ServerJs
              null_record db [Null] "rrc_clients")
    as (Honly & _ & Hrun & _); [reflexivity | reflexivity | reflexivity | constructor |].
  split; [exact Honly | exact (Hrun eq_refl)].
Defined.

(** The message of that answer is the engine's. *)
Lemma null_record_message :
  responses (events_of (sync Number_toString unconstrained env ServerJs null_record db)) =
    [(500, failed (cannot_read "null" "code"))] ∧
  cannot_read "null" "code" = "Cannot read properties of null (reading 'code')".
Proof. split; [by vm_compute | reflexivity]. Qed.

(** C10, as stated, fails: an element that is no object but is not [null]
    either has no [code], and no error: [src/server.js] answers 200 and
    stores a row of empty strings. And a [null] is not answered 500 when
    the ROLLBACK after it fails, the [catch] block throwing before its
    answer, nor when no connection is to be had, the handler throwing
    before its [try] block. *)
Lemma unchecked_record_is_not_always_a_500 :
  responses (events_of (sync Number_toString unconstrained env ServerJs string_record db)) =
    [(200, succeeded 1)] ∧
  failures (events_of (sync Number_toString unconstrained env ServerJs string_record db)) = [] ∧
  committed (database_after (sync Number_toString unconstrained env ServerJs string_record db))
    !! "rrc_clients" = Some [[Str ""; Str ""; Str ""; Str ""]] ∧
  (¬ ∃ msg, (500, failed msg) ∈
      responses (events_of (sync Number_toString unconstrained env ServerJs string_record db))) ∧
  sync Number_toString lost_at_rollback env ServerJs null_record db =
    (Throw connection_lost, db,
     [Log info (received ServerJs 1 "rrc_clients"); Connect;
      Query BEGIN None; Query (DELETE_FROM "rrc_clients") None;
      Log info ("Cleared existing data from table " +:+ quote +:+ "rrc_clients" +:+ quote);
      Query ROLLBACK (Some connection_lost); Release]) ∧
  sync Number_toString exhausted_pool env ServerJs null_record db =
    (Throw "timeout exceeded when trying to connect", db,
     [Log info (received ServerJs 1 "rrc_clients");
      Unavailable "timeout exceeded when trying to connect"]).
Proof.
  split; [by vm_compute |]. split; [by vm_compute |]. split; [by vm_compute |].
  split; [|split; by vm_compute].
  intros [msg H]. vm_compute in H. apply list_elem_of_singleton in H. discriminate H.
Qed.

End Examples.

(** * Further properties of the code *)

(** ** Trimming *)

Section TrimFacts.
Import JS Observe.

Lemma string_app_assoc (a b c : string) : (a +:+ b) +:+ c = a +:+ b +:+ c.
Proof. induction a as [|x a IH]; [done | by rewrite !app_cons, IH]. Qed.

Lemma string_app_empty (a : string) : a +:+ "" = a.
Proof. induction a as [|x a IH]; [done | by rewrite app_cons, IH]. Qed.

Lemma string_rev_app_spec (s acc : string) : String.rev_app s acc = String.rev s +:+ acc.
Proof.
  unfold String.rev. revert acc. induction s as [|c s IH]; intros acc; [done |].
  cbn [String.rev_app]. by rewrite (IH (String c "")), (IH (String c acc)), string_app_assoc.
Qed.

Lemma string_rev_cons (c : ascii) (s : string) : String.rev (String c s) = String.rev s +:+ String c "".
Proof. unfold String.rev at 1. cbn [String.rev_app]. apply string_rev_app_spec. Qed.

Lemma string_rev_app (a b : string) : String.rev (a +:+ b) = String.rev b +:+ String.rev a.
Proof.
  induction a as [|x a IH]; [by rewrite app_nil, string_app_empty |].
  by rewrite app_cons, !string_rev_cons, IH, string_app_assoc.
Qed.

Lemma string_rev_involutive (s : string) : String.rev (String.rev s) = s.
Proof. induction s as [|c s IH]; [done |]. by rewrite string_rev_cons, string_rev_app, IH. Qed.

Lemma trimStart_snoc (s : string) (c : ascii) :
  trimStart (s +:+ String c "") =
  match trimStart s with
  | "" => if is_white_space c then "" else String c ""
  | t => t +:+ String c ""
  end.
Proof.
  induction s as [|x s IH]; [rewrite app_nil; cbn; by destruct (is_white_space c) |].
  rewrite app_cons. cbn [trimStart]. destruct (is_white_space x); [apply IH | by rewrite app_cons].
Qed.

Lemma trimEnd_cons (c : ascii) (s : string) :
  trimEnd (String c s) =
  match trimEnd s with
  | "" => if is_white_space c then "" else String c ""
  | t => String c t
  end.
Proof.
  unfold trimEnd. rewrite string_rev_cons, trimStart_snoc.
  destruct (trimStart (String.rev s)) as [|y t] eqn:E.
  - by destruct (is_white_space c).
  - rewrite string_rev_app. change (String.rev (String c "")) with (String c "").
    rewrite app_cons, app_nil.
    destruct (String.rev (String y t)) eqn:E2; [|done].
    rewrite string_rev_cons in E2. by apply app_eq_empty in E2 as [_ ?].
Qed.

Lemma trimStart_idempotent (s : string) : trimStart (trimStart s) = trimStart s.
Proof.
  induction s as [|c s IH]; [done |]. cbn [trimStart].
  destruct (is_white_space c) eqn:Hc; [done |]. cbn [trimStart]. by rewrite Hc.
Qed.

Lemma trimEnd_idempotent (s : string) : trimEnd (trimEnd s) = trimEnd s.
Proof. unfold trimEnd. by rewrite string_rev_involutive, trimStart_idempotent. Qed.

(** Trimming one end leaves the other as it is. *)
Lemma trim_commute (s : string) : trimStart (trimEnd s) = trimEnd (trimStart s).
Proof.
  induction s as [|c s IH]; [done |]. rewrite trimEnd_cons. cbn [trimStart].
  destruct (is_white_space c) eqn:Hc.
  - destruct (trimEnd s) as [|a t] eqn:E.
    + by rewrite <- IH.
    + cbn [trimStart]. rewrite Hc. by rewrite <- IH.
  - rewrite trimEnd_cons. destruct (trimEnd s); cbn [trimStart]; by rewrite Hc.
Qed.

Lemma trim_trimmed (s : string) : trimmed (trim s).
Proof.
  unfold trimmed, trim. split.
  - by rewrite trim_commute, trimStart_idempotent.
  - apply trimEnd_idempotent.
Qed.

End TrimFacts.

(** ** What a record contributes to the parameters *)

Section Fields.
Import JS Pg Http Sync Observe.

Variable Number_toString : number → string.

Abbreviation values_of := (Sync.values_of Number_toString).
Abbreviation coerce := (Sync.coerce Number_toString).
Abbreviation sanitized := (Sync.sanitized Number_toString).

Lemma sanitized_trimmed (row : value) (name : string) (w : value) :
  sanitized row name = Normal w → ∃ s, w = Str s ∧ trimmed s.
Proof.
  unfold Sync.sanitized. destruct (get row name) as [v|msg]; [|done]. cbn [mbind completion_bind].
  destruct (toString_method _ _ _) as [s|msg]; [|done]. cbn [mbind completion_bind].
  intros [= <-]. exists (trim s). split; [done | apply trim_trimmed].
Qed.

(** X1. Every value that [src/server.js] sends for a record is a string
    with no white space left at either end: four of them, never null, a
    number or an object, whatever the fields of the record are. *)
Theorem server_js_sends_trimmed_strings (row : value) (vs : list value) :
  values_of ServerJs row = Normal vs →
  length vs = 4 ∧ Forall (λ w, ∃ s, w = Str s ∧ trimmed s) vs.
Proof.
  cbn [Sync.values_of]. unfold sanitized_values.
  destruct (sanitized row "code") as [code|msg] eqn:Hcode; [|done].
  destruct (sanitized row "name") as [name|msg] eqn:Hname; [|done].
  destruct (sanitized row "address") as [address|msg] eqn:Haddress; [|done].
  destruct (sanitized row "branch") as [branch|msg] eqn:Hbranch; [|done].
  intros [= <-]. split; [done |].
  repeat constructor; by eapply sanitized_trimmed.
Qed.

Lemma coerce_string_column (col : string) (v : value) :
  string_column col = true →
  coerce col v =
    match v with
    | Undefined | Null => Normal Null
    | _ =>
        s ← toString_method Number_toString "value" v;
        Normal (if String.eqb (trim s) "" then Null else Str (trim s))
    end.
Proof.
  intros Hcol. unfold string_column in Hcol. apply negb_true_iff in Hcol.
  rewrite !includes_cons, !orb_false_iff in Hcol.
  destruct Hcol as (Hdate & Hfloat & H1 & H2 & H3 & _).
  unfold Sync.coerce. rewrite !includes_cons, Hdate, Hfloat, H1, H2, H3.
  cbn [includes existsb orb]. rewrite !andb_false_r.
  destruct v as [| |b|n|s|l|o]; reflexivity.
Qed.

(** X2. In a string column of the wide revision a record stores null or
    a non-empty string with no white space left at either end, never an
    empty string, a number, a boolean or an object. *)
Theorem wide_strings_are_trimmed_or_null (col : string) (v w : value) :
  string_column col = true →
  coerce col v = Normal w →
  w = Null ∨ ∃ s, w = Str s ∧ s ≠ "" ∧ trimmed s.
Proof.
  intros Hcol. rewrite coerce_string_column by done.
  assert (H : ∀ c : completion string,
            (s ← c; Normal (if String.eqb (trim s) "" then Null else Str (trim s))) = Normal w →
            w = Null ∨ ∃ s, w = Str s ∧ s ≠ "" ∧ trimmed s).
  { intros [s|msg]; [|done]. cbn [mbind completion_bind].
    destruct (String.eqb (trim s) "") eqn:E; intros [= <-]; [by left | right].
    exists (trim s). apply String.eqb_neq in E. split; [done |]. split; [done | apply trim_trimmed]. }
  destruct v; try apply H; intros [= <-]; by left.
Qed.

Lemma mapM_lookup {A B} (f : A → completion B) (l : list A) (rs : list B) (i : nat) (x : A) :
  mapM f l = Normal rs → l !! i = Some x → ∃ y, rs !! i = Some y ∧ f x = Normal y.
Proof.
  revert rs i. induction l as [|a l IH]; intros rs i; cbn; [done |].
  destruct (f a) as [y|msg] eqn:Ha; [|done]. cbn.
  destruct (mapM f l) as [rs'|msg]; [|done]. cbn. intros [= <-].
  destruct i as [|i]; cbn; [intros [= <-]; by exists y | by apply IH].
Qed.

(** X3. The wide revision sends the [installationdate] of a record, its
    ninth column, as it was received: a missing one as null, anything
    else unchanged, be it an empty string, text with spaces around it, a
    number, an array or an object. *)
Theorem date_is_sent_as_received (row : value) (vs : list value) :
  values_of Wide row = Normal vs →
  wide_columns !! 8 = Some "installationdate" ∧
  vs !! 8 = Some (or_null (property row "installationdate")).
Proof.
  cbn [Sync.values_of]. unfold coerced_values. intros Hvs. split; [done |].
  destruct (mapM_lookup _ _ _ 8 "installationdate" Hvs) as (w & Hw & Hc); [done |].
  rewrite Hw. f_equal. unfold property.
  destruct (get row "installationdate") as [v|msg]; [|done]. cbn [mbind completion_bind] in Hc.
  destruct v; by injection Hc as <-.
Qed.

Lemma raw_values_run (row : value) :
  raw_values row =
  match row with
  | Undefined => Throw (cannot_read "undefined" "code")
  | Null => Throw (cannot_read "null" "code")
  | _ => Normal (property row <$> narrow_columns)
  end.
Proof. by destruct row. Qed.

(** *** Sending again what was sent *)

Lemma mapM_Forall2 {A B} (f : A → completion B) (l : list A) (rs : list B) :
  mapM f l = Normal rs ↔ Forall2 (λ x y, f x = Normal y) l rs.
Proof.
  split.
  - revert rs. induction l as [|a l IH]; intros rs; cbn; [intros [= <-]; constructor |].
    destruct (f a) as [y|msg] eqn:Ha; [|done]. cbn.
    destruct (mapM f l) as [rs'|msg]; [|done]. cbn. intros [= <-]. constructor; [done |].
    by apply IH.
  - induction 1 as [|a y l rs Ha _ IH]; [done |]. cbn. by rewrite Ha, IH.
Qed.

Lemma own_property_zip (cols : list string) (vs : list value) (i : nat) (col : string)
    (w : value) :
  NoDup cols → cols !! i = Some col → vs !! i = Some w →
  own_property col (zip cols vs) = Some w.
Proof.
  intros Hnd. revert vs i. induction Hnd as [|c cols Hc Hnd IH]; intros vs i; [done |].
  destruct vs as [|v vs]; [by destruct i |]. cbn [zip_with own_property].
  destruct i as [|i]; cbn [lookup list_lookup].
  - intros [= ->] [= ->]. by rewrite String.eqb_refl.
  - intros Hcol Hw. destruct (String.eqb c col) eqn:E.
    + apply String.eqb_eq in E as ->. exfalso. apply Hc. by eapply list_elem_of_lookup_2.
    + by eapply IH.
Qed.

(** A record made of the values that a record gave, column by column,
    gives them again, as soon as converting a converted value changes
    nothing. *)
Lemma rebuilt_fields (f : string → value → completion value) (cols : list string)
    (row : value) (vs : list value) :
  NoDup cols →
  (∀ col v w, f col v = Normal w → f col w = Normal w) →
  mapM (λ col, get row col ≫= f col) cols = Normal vs →
  mapM (λ col, get (Obj (zip cols vs)) col ≫= f col) cols = Normal vs.
Proof.
  intros Hnd Hf Hvs. apply mapM_Forall2 in Hvs. apply mapM_Forall2.
  apply Forall2_same_length_lookup_2; [by eapply Forall2_length |].
  intros i col w Hcol Hw.
  pose proof (Forall2_lookup_lr _ _ _ _ _ _ Hvs Hcol Hw) as Hi. cbn beta in Hi.
  destruct (get row col) as [v|msg]; [|done]. cbn [mbind completion_bind] in Hi.
  cbn [get]. rewrite (own_property_zip cols vs i col w) by done.
  cbn [default mbind completion_bind]. by eapply Hf.
Qed.

Lemma coerce_date (v : value) : coerce "installationdate" v = Normal (or_null v).
Proof. by destruct v. Qed.

Lemma coerce_numeric (col : string) (parse : string → number) (v : value) :
  numeric_parser col = Some parse →
  coerce col v = Spec.parse_or_null (ToString Number_toString) parse v.
Proof.
  intros Hcol.
  assert (Hcase : (col = "amcamt" ∧ parse = parseFloat) ∨
                  ((col = "priorty" ∨ col = "clients" ∨ col = "sp") ∧ parse = parseInt)).
  { unfold numeric_parser in Hcol. destruct (includes ["amcamt"] col) eqn:H1.
    - left. injection Hcol as <-. rewrite includes_cons, orb_false_r in H1.
      by apply String.eqb_eq in H1.
    - destruct (includes ["priorty"; "clients"; "sp"] col) eqn:H2; [|done].
      right. injection Hcol as <-. rewrite !includes_cons, orb_false_r in H2.
      apply orb_true_iff in H2 as [H2|H2]; [apply String.eqb_eq in H2; auto |].
      apply orb_true_iff in H2 as [H2|H2]; apply String.eqb_eq in H2; auto. }
  assert (Hor : ∀ n, or_else (Num n) Null = if is_nan n || is_zero n then Null else Num n).
  { by intros []. }
  destruct Hcase as [[-> ->]|[[->|[->| ->]] ->]];
    destruct v as [| |b|n|[|c s]|l|o]; try reflexivity;
    unfold Sync.coerce, Spec.parse_or_null;
    cbn [strict_equals typeof_number includes existsb String.eqb Ascii.eqb Bool.eqb
         andb orb negb];
    (destruct (ToString _ _) as [t|msg]; [|reflexivity]);
    cbn [mbind completion_bind mret completion_ret]; by rewrite Hor.
Qed.

(** A column is the date, a number or a string. *)
Lemma column_class (col : string) :
  col = "installationdate" ∨ (∃ parse, numeric_parser col = Some parse) ∨
  string_column col = true.
Proof.
  unfold numeric_parser, string_column. rewrite (includes_cons col "installationdate").
  destruct (String.eqb col "installationdate") eqn:D; [left; by apply String.eqb_eq |].
  right. destruct (includes ["amcamt"] col) eqn:F; [left; by eexists |].
  destruct (includes ["priorty"; "clients"; "sp"] col) eqn:I; [left; by eexists |].
  right. rewrite (includes_cons col "amcamt"). rewrite includes_cons, orb_false_r in F.
  by rewrite F, I.
Qed.

Lemma trimmed_trim (s : string) : trimmed s → trim s = s.
Proof. intros [H1 H2]. unfold trim. by rewrite H1. Qed.

(** What a column stores of a field, it stores again of that value. *)
Lemma coerce_idempotent (col : string) (v w : value) :
  coerce col v = Normal w → coerce col w = Normal w.
Proof.
  destruct (column_class col) as [-> |[[parse Hcol]|Hcol]].
  - rewrite !coerce_date. intros [= <-]. by destruct v.
  - rewrite !(coerce_numeric col parse) by done. unfold Spec.parse_or_null.
    destruct v as [| |b|n|[|c s]|l|o]; try (by intros [= <-]);
      (destruct (ToString _ _) as [t|msg]; [|done]); cbn [mbind completion_bind];
      destruct (is_nan (parse t) || is_zero (parse t)); by intros [= <-].
  - rewrite !coerce_string_column by done.
    assert (H : ∀ c : completion string,
              (s ← c; Normal (if String.eqb (trim s) "" then Null else Str (trim s)))
                = Normal w →
              match w with
              | Undefined | Null => Normal Null
              | _ => s ← toString_method Number_toString "value" w;
                     Normal (if String.eqb (trim s) "" then Null else Str (trim s))
              end = Normal w).
    { intros [s|msg]; [|done]. cbn [mbind completion_bind].
      destruct (String.eqb (trim s) "") eqn:E; intros [= <-]; [done |].
      cbn [toString_method ToString mbind completion_bind].
      by rewrite (trimmed_trim _ (trim_trimmed s)), E. }
    destruct v; try apply H; by intros [= <-].
Qed.

Lemma sanitized_values_fields (row : value) :
  Sync.sanitized_values Number_toString row =
  mapM (λ col, get row col ≫= λ v,
          s ← toString_method Number_toString (receiver col) (or_else v (Str ""));
          Normal (Str (trim s))) narrow_columns.
Proof.
  unfold sanitized_values, Sync.sanitized. cbn [mapM narrow_columns].
  destruct (get row "code" ≫= _) as [code|msg]; [|done].
  destruct (get row "name" ≫= _) as [name|msg]; [|done].
  destruct (get row "address" ≫= _) as [address|msg]; [|done].
  by destruct (get row "branch" ≫= _) as [branch|msg].
Qed.

Lemma raw_values_fields (row : value) :
  raw_values row = mapM (λ col, get row col ≫= λ v, Normal v) narrow_columns.
Proof.
  unfold raw_values. cbn [mapM narrow_columns].
  destruct (get row "code") as [code|msg]; [|done].
  destruct (get row "name") as [name|msg]; [|done].
  destruct (get row "address") as [address|msg]; [|done].
  by destruct (get row "branch") as [branch|msg].
Qed.

(** X4. A record made of the values that a record gave, each under the
    name of its column, gives the same values again, in every revision:
    trimming a trimmed string, parsing a parsed number and defaulting a
    defaulted field change nothing, so a table written by a sync can be
    sent back as it is. *)
Theorem rebuilt_record_gives_the_same_values (r : revision) (row : value) (vs : list value) :
  values_of r row = Normal vs →
  values_of r (Obj (zip (columns_of r) vs)) = Normal vs.
Proof.
  assert (Hnarrow : NoDup narrow_columns) by (by apply (bool_decide_unpack _)).
  assert (Hwide : NoDup wide_columns) by (by apply (bool_decide_unpack _)).
  destruct r; cbn [Sync.values_of columns_of].
  - rewrite !sanitized_values_fields. apply rebuilt_fields; [done |].
    intros col v w. destruct (toString_method _ _ _) as [s|msg]; [|done].
    cbn [mbind completion_bind]. intros [= <-].
    assert (Hor : or_else (Str (trim s)) (Str "") = Str (trim s)).
    { unfold or_else. cbn [truthy]. destruct (String.eqb (trim s) "") eqn:E; [|done].
      by apply String.eqb_eq in E as ->. }
    rewrite Hor. cbn [toString_method ToString mbind completion_bind].
    by rewrite (trimmed_trim _ (trim_trimmed s)).
  - unfold coerced_values. apply rebuilt_fields; [done |]. apply coerce_idempotent.
  - rewrite !raw_values_fields. apply rebuilt_fields; [done |]. by intros col v w [= <-].
  - rewrite !raw_values_fields. apply rebuilt_fields; [done |]. by intros col v w [= <-].
Qed.


(** *** Records of the data model *)

Lemma own_scalar (name : string) (properties : list (string * value)) :
  Forall (λ kv, Spec.scalar kv.2 = true) properties →
  Spec.scalar (default Undefined (own_property name properties)) = true.
Proof.
  induction 1 as [|[k v] properties Hv _ IH]; [done |]. cbn [own_property].
  by destruct (String.eqb k name).
Qed.

Lemma coerce_scalar (col : string) (v : value) :
  Spec.scalar v = true → ∃ w, coerce col v = Normal w.
Proof.
  intros Hv. unfold Sync.coerce.
  destruct v as [| |[]|n|s|l|o]; try done;
    cbn [strict_equals negb andb orb typeof_number ToString toString_method mbind mret
         completion_bind completion_ret];
    repeat match goal with
    | |- context [if ?b then _ else _] => destruct b
    end; by eexists.
Qed.

Lemma sanitized_scalar (name : string) (properties : list (string * value)) :
  Forall (λ kv, Spec.scalar kv.2 = true) properties →
  ∃ w, sanitized (Obj properties) name = Normal w.
Proof.
  intros Hp. unfold Sync.sanitized. cbn [get mbind completion_bind].
  pose proof (own_scalar name properties Hp) as Hv.
  destruct (default Undefined (own_property name properties)) as [| |[]|n|s|l|o];
    try done; unfold or_else; cbn [truthy];
    repeat match goal with
    | |- context [if ?b then _ else _] => destruct b
    end; by eexists.
Qed.

Lemma mapM_total {A B} (f : A → completion B) (l : list A) :
  (∀ x, ∃ y, f x = Normal y) → ∃ ys, mapM f l = Normal ys.
Proof.
  intros Hf. induction l as [|x l [ys IH]]; [by exists [] |].
  destruct (Hf x) as [y Hy]. exists (y :: ys). cbn. by rewrite Hy, IH.
Qed.

(** A record that is an object whose fields are strings, numbers,
    booleans or null gives its values in every revision. *)
Lemma model_record_builds (r : revision) (properties : list (string * value)) :
  Forall (λ kv, Spec.scalar kv.2 = true) properties →
  ∃ vs, values_of r (Obj properties) = Normal vs.
Proof.
  intros Hp. destruct r; cbn [Sync.values_of].
  - unfold sanitized_values.
    destruct (sanitized_scalar "code" properties Hp) as [code ->].
    destruct (sanitized_scalar "name" properties Hp) as [name ->].
    destruct (sanitized_scalar "address" properties Hp) as [address ->].
    destruct (sanitized_scalar "branch" properties Hp) as [branch ->].
    by eexists.
  - unfold coerced_values. apply mapM_total. intros col. cbn [get mbind completion_bind].
    apply coerce_scalar. by apply own_scalar.
  - by eexists.
  - by eexists.
Qed.

End Fields.

(** ** Two plans that differ in their log lines only *)

Section TwoPlans.
Import JS Pg Http Sync Observe.

Variable Number_toString : number → string.
Variable pg : server.
Variables p1 p2 : plan.

Hypothesis same_table : table p1 = table p2.
Hypothesis same_columns : columns p1 = columns p2.
Hypothesis same_chunkSize : chunkSize p1 = chunkSize p2.
Hypothesis same_row_values : ∀ row, row_values p1 row = row_values p2 row.
Hypothesis same_clearing :
  match clearing p1, clearing p2 with
  | Some (_, m1, _), Some (_, m2, _) => m1 = m2
  | None, None => True
  | _, _ => False
  end.

Lemma quiet_app (e1 e2 : list event) : quiet (e1 ++ e2) = quiet e1 ++ quiet e2.
Proof. apply filter_app. Qed.

Lemma quiet_lines (l : list string) : quiet (Log info <$> l) = [].
Proof. induction l as [|x l IH]; [done |]. cbn [fmap list_fmap]. by rewrite <- IH. Qed.

Lemma quiet_query (q : statement) (failure : option string) (events : list event) :
  quiet (Query q failure :: events) = Query q failure :: quiet events.
Proof. reflexivity. Qed.

Lemma same_rows (chunk : list value) :
  mapM (row_values p1) chunk = mapM (row_values p2) chunk.
Proof. induction chunk as [|x chunk IH]; [done |]. cbn. by rewrite same_row_values, IH. Qed.

Lemma same_insert (rows : list (list value)) :
  insert_statement p1 rows = insert_statement p2 rows.
Proof. unfold insert_statement. by rewrite same_table, same_columns. Qed.

Lemma each_chunk_quiet (l : list (list value)) (i inserted : nat) (d : database) :
  ∃ r d' e1 e2,
    each_chunk Number_toString pg p1 i l inserted d = (r, d', e1) ∧
    each_chunk Number_toString pg p2 i l inserted d = (r, d', e2) ∧
    quiet e1 = quiet e2.
Proof.
  revert i inserted d. induction l as [|chunk l IH]; intros i inserted d.
  - by exists (Normal inserted), d, [], [].
  - unfold each_chunk. cbn [for_each_chunk]. fold (each_chunk Number_toString pg p1).
    fold (each_chunk Number_toString pg p2). unfold mbind, io_bind. rewrite !insert_chunk_run.
    rewrite same_rows. destruct (mapM (row_values p2) chunk) as [rows|msg].
    2:{ by exists (Throw msg), d, [], []. }
    rewrite same_insert. destruct (execute _ _ _ d) as [[msg|] d1].
    { by eexists _, _, _, _. }
    rewrite same_chunkSize.
    destruct (IH (i + chunkSize p2) (inserted + length chunk) d1)
      as (r & d' & e1 & e2 & -> & -> & He).
    eexists _, _, _, _. split; [done |]. split; [done |].
    repeat (rewrite quiet_app || rewrite quiet_query || rewrite quiet_lines). by rewrite He.
Qed.

Lemma rolled_back_quiet (msg : string) (d : database) (e1 e2 : list event) :
  quiet e1 = quiet e2 →
  completion_of (rolled_back pg msg d e1) = completion_of (rolled_back pg msg d e2) ∧
  database_after (rolled_back pg msg d e1) = database_after (rolled_back pg msg d e2) ∧
  quiet (events_of (rolled_back pg msg d e1)) = quiet (events_of (rolled_back pg msg d e2)).
Proof.
  intros He. unfold rolled_back. destruct (refusal pg ROLLBACK);
    unfold completion_of, database_after, events_of; cbn [fst snd];
    (split; [done |]); (split; [done |]); by rewrite !quiet_app, He.
Qed.

(** The two plans give the same outcome, the same database and, the log
    left aside, the same events. *)
Lemma run_plan_quiet (data : list value) (d : database) :
  completion_of (run_plan Number_toString pg p1 data d) =
  completion_of (run_plan Number_toString pg p2 data d) ∧
  database_after (run_plan Number_toString pg p1 data d) =
  database_after (run_plan Number_toString pg p2 data d) ∧
  quiet (events_of (run_plan Number_toString pg p1 data d)) =
  quiet (events_of (run_plan Number_toString pg p2 data d)).
Proof.
  assert (Ha : ∃ r d' e1 e2,
            attempt Number_toString pg p1 data d = (r, d', e1) ∧
            attempt Number_toString pg p2 data d = (r, d', e2) ∧ quiet e1 = quiet e2).
  { rewrite !attempt_run, !clear_run. rewrite same_chunkSize, same_table.
    destruct (refusal pg BEGIN); [by eexists _, _, _, _ |].
    pose proof same_clearing as Hc.
    destruct (clearing p1) as [[[b1 m1] a1]|], (clearing p2) as [[[b2 m2] a2]|]; try done.
    - subst m2.
      assert (Hm : clear_statement p1 m1 = clear_statement p2 m1).
      { unfold clear_statement. by rewrite same_table. }
      rewrite Hm. destruct (refusal pg (clear_statement p2 m1)).
      { eexists _, _, _, _. split; [done |]. split; [done |].
        repeat (rewrite quiet_app || rewrite quiet_query || rewrite quiet_lines). done. }
      destruct (current _ !! relation pg (table p2)).
      + destruct (each_chunk_quiet (Spec.chunks (chunkSize p2) data) 0 0
                    (store (<[relation pg (table p2) := []]>
                              (current {| committed := committed d;
                                          transaction := Some (current d) |}))
                       {| committed := committed d; transaction := Some (current d) |}))
          as (r & d' & e1 & e2 & -> & -> & He).
        eexists _, _, _, _. split; [done |]. split; [done |].
        repeat (rewrite quiet_app || rewrite quiet_query || rewrite quiet_lines). by rewrite He.
      + eexists _, _, _, _. split; [done |]. split; [done |].
        repeat (rewrite quiet_app || rewrite quiet_query || rewrite quiet_lines). done.
    - destruct (each_chunk_quiet (Spec.chunks (chunkSize p2) data) 0 0
                  {| committed := committed d; transaction := Some (current d) |})
        as (r & d' & e1 & e2 & -> & -> & He).
      eexists _, _, _, _. split; [done |]. split; [done |].
      repeat (rewrite quiet_app || rewrite quiet_query || rewrite quiet_lines). by rewrite He. }
  destruct Ha as (r & d' & e1 & e2 & Ha1 & Ha2 & He).
  rewrite !run_plan_run, Ha1, Ha2.
  destruct (connecting pg); [done |].
  destruct r as [n|msg].
  - destruct (refusal pg COMMIT).
    + apply rolled_back_quiet. by rewrite !quiet_app, He.
    + unfold completion_of, database_after, events_of; cbn [fst snd].
      split; [done |]. split; [done |]. by rewrite !quiet_app, He.
  - apply rolled_back_quiet. by rewrite !quiet_app, He.
Qed.

End TwoPlans.

(** ** Every request, whatever becomes of it *)

Section Requests.
Import JS Pg Http Sync Observe.

Variable Number_toString : number → string.
Variable pg : server.
Variable env : process_env.

Abbreviation sync := (Sync.sync Number_toString pg env).
Abbreviation plan_of := (Sync.plan_of Number_toString).
Abbreviation resolved := (Sync.resolved Number_toString env).
Abbreviation values_of := (Sync.values_of Number_toString).
Abbreviation run_plan := (Sync.run_plan Number_toString pg).
Abbreviation attempt := (Sync.attempt Number_toString pg).
Abbreviation app_post := (Sync.app_post Number_toString pg env).
Abbreviation stored := (Pg.stored Number_toString).
Abbreviation prepareValue := (Pg.prepareValue Number_toString).

Lemma sync_accepted (r : revision) (req : request) (d : database) (data : list value)
    (t : string) :
  strict_equals (field "apiKey" (body req)) (env_value (API_KEY env)) = true →
  field "data" (body req) = Arr data →
  resolved r req = Normal t →
  sync r req d = run_plan (plan_of r req t (length data)) data d.
Proof.
  intros H Hdata Ht. rewrite (sync_planned Number_toString pg env r req d data) by done.
  by rewrite Ht.
Qed.

Lemma plan_cleared (r : revision) (req : request) (t : string) (n : nat) :
  match clearing (plan_of r req t n) with
  | Some (_, m, _) => [clear_statement (plan_of r req t n) m]
  | None => []
  end = cleared_with r req t.
Proof.
  unfold cleared_with, clears. destruct r; cbn; try done. by destruct (truthy (truncateFirst req)).
Qed.

(** What becomes of a request: it is rejected by one of the two checks;
    or its table name has no string conversion; or it gets no
    connection; or its transaction is committed; or the [catch] block is
    entered, from the [try] block or from the COMMIT. *)
Lemma sync_cases (r : revision) (req : request) (d : database) :
  (∃ line status body,
     sync r req d = (Normal tt, d, [Log warn line; Respond status body]) ∧
     (status = 401 ∨ status = 400) ∧ success body = false) ∨
  (∃ msg,
     sync r req d = (Throw msg, d, []) ∧ resolved r req = Throw msg ∧
     strict_equals (field "apiKey" (body req)) (env_value (API_KEY env)) = true ∧
     isArray (field "data" (body req)) = true) ∨
  (∃ line msg,
     sync r req d = (Throw msg, d, [Log info line; Unavailable msg]) ∧
     connecting pg = Some msg) ∨
  (∃ line n d1 e1 line',
     sync r req d =
       (Normal tt, {| committed := current d1; Pg.transaction := None |},
        [Log info line; Connect] ++ e1 ++
        [Query COMMIT None; Log info line'; Respond 200 (succeeded n); Release]) ∧
     Forall inside e1 ∧ connecting pg = None) ∨
  (∃ line msg d1 e1,
     sync r req d = rolled_back pg msg d1 ([Log info line; Connect] ++ e1) ∧
     committed d1 = committed d ∧
     (Forall inside e1 ∨ (∃ e0, e1 = e0 ++ [Query COMMIT (Some msg)] ∧ Forall inside e0)) ∧
     connecting pg = None).
Proof.
  destruct (strict_equals (field "apiKey" (body req)) (env_value (API_KEY env))) eqn:H.
  2:{ left. rewrite (sync_unauthorized Number_toString pg env r req d) by done.
      eexists _, 401, _. split; [done |]. split; [by left | done]. }
  destruct (isArray (field "data" (body req))) eqn:Hdata.
  2:{ left. rewrite (sync_not_an_array Number_toString pg env r req d) by done.
      eexists _, 400, _. split; [done |]. split; [by right | done]. }
  destruct (field "data" (body req)) as [| | | | |data|] eqn:Hd; try done.
  rewrite (sync_planned Number_toString pg env r req d data) by done.
  destruct (resolved r req) as [t|msg] eqn:Ht.
  2:{ right; left. by exists msg. }
  rewrite run_plan_run. destruct (connecting pg) as [e|] eqn:Hconn.
  { right; right; left. by eexists _, _. }
  destruct (attempt _ _ _) as [[[n|msg] d1] e1] eqn:Ha;
    apply attempt_invariant in Ha as (Hc & Hin & _).
  - destruct (refusal pg COMMIT) as [e|].
    + do 4 right. eexists _, e, d1, (e1 ++ [Query COMMIT (Some e)]).
      split; [done |]. split; [done |]. split; [|done]. right. by exists e1.
    + do 3 right. left. by eexists _, n, d1, e1, _.
  - do 4 right. eexists _, msg, d1, e1. split; [done |]. split; [done |]. split; [|done].
    by left.
Qed.

Lemma entered_responses (msg : string) (e1 : list event) :
  Forall inside e1 ∨ (∃ e0, e1 = e0 ++ [Query COMMIT (Some msg)] ∧ Forall inside e0) →
  responses e1 = [] ∧ answers e1 = [] ∧
  Forall (λ e, e ≠ Connect ∧ e ≠ Release ∧ ∀ m, e ≠ Unavailable m) e1.
Proof.
  assert (Hin : ∀ e, Forall inside e →
            responses e = [] ∧ answers e = [] ∧
            Forall (λ e, e ≠ Connect ∧ e ≠ Release ∧ ∀ m, e ≠ Unavailable m) e).
  { intros e He. split; [by apply inside_responses |]. split; [by apply inside_answers |].
    eapply Forall_impl; [exact He |]. intros x Hx.
    split; [|split; [|intros m]]; intros ->; exact Hx. }
  intros [He|(e0 & -> & He)]; [by apply Hin |].
  destruct (Hin e0 He) as (Hr & Ha & Hb).
  rewrite responses_app, answers_app, Hr, Ha. split; [done |]. split; [done |].
  apply Forall_app. split; [done |]. by repeat constructor.
Qed.

Lemma rolled_back_statements (msg : string) (d : database) (events : list event) :
  statements (events_of (rolled_back pg msg d events)) = statements events ++ [ROLLBACK].
Proof. rewrite rolled_back_events, statements_app. by destruct (refusal pg ROLLBACK). Qed.

Lemma rolled_back_inserts (msg : string) (d : database) (events : list event) :
  inserts (events_of (rolled_back pg msg d events)) = inserts events.
Proof.
  unfold inserts. rewrite rolled_back_statements, filter_app.
  replace (filter _ [ROLLBACK]) with (@nil statement) by done. apply app_nil_r.
Qed.

Lemma rolled_back_answers (msg : string) (d : database) (events : list event) :
  answers events = [] →
  answers (events_of (rolled_back pg msg d events)) =
  match refusal pg ROLLBACK with None => [500] | Some _ => [] end.
Proof.
  intros He. rewrite rolled_back_events, answers_app, He.
  by destruct (refusal pg ROLLBACK).
Qed.

(** The statements and the answer of a request that passed the two
    checks, has a table and got a connection. *)
Lemma accepted_statements (r : revision) (req : request) (d : database) (data : list value)
    (t : string) :
  strict_equals (field "apiKey" (body req)) (env_value (API_KEY env)) = true →
  field "data" (body req) = Arr data →
  resolved r req = Normal t →
  connecting pg = None →
  ∃ rowss : list (list (list value)),
    Forall2 (λ chunk rows, mapM (values_of r) chunk = Normal rows)
      (take (length rowss) (Spec.chunks (chunkSize_of r) data)) rowss ∧
    length rowss ≤ length (Spec.chunks (chunkSize_of r) data) ∧
    (statements (events_of (sync r req d)) =
       BEGIN :: cleared_with r req t
         ++ (insert_statement (plan_of r req t (length data)) <$> rowss) ++ [COMMIT] ∧
     length rowss = length (Spec.chunks (chunkSize_of r) data) ∧
     refusal pg BEGIN = None ∧ refusal pg COMMIT = None ∧
     responses (events_of (sync r req d)) = [(200, succeeded (length data))] ∨
     (statements (events_of (sync r req d)) = [BEGIN; ROLLBACK] ∧ rowss = [] ∧
      is_Some (refusal pg BEGIN) ∨
      statements (events_of (sync r req d)) =
        BEGIN :: cleared_with r req t
          ++ (insert_statement (plan_of r req t (length data)) <$> rowss) ++ [ROLLBACK] ∧
      refusal pg BEGIN = None ∨
      statements (events_of (sync r req d)) =
        BEGIN :: cleared_with r req t
          ++ (insert_statement (plan_of r req t (length data)) <$> rowss)
          ++ [COMMIT; ROLLBACK] ∧
      length rowss = length (Spec.chunks (chunkSize_of r) data) ∧
      refusal pg BEGIN = None ∧ is_Some (refusal pg COMMIT)) ∧
     ∃ msg, responses (events_of (sync r req d)) =
            match refusal pg ROLLBACK with None => [(500, failed msg)] | Some _ => [] end).
Proof.
  intros H Hdata Ht Hconn. rewrite (sync_accepted r req d data t) by done.
  rewrite run_plan_run, Hconn.
  destruct (attempt _ _ _) as [[outcome d1] e1] eqn:Ha.
  destruct (attempt_invariant _ _ _ _ _ _ _ _ Ha) as (_ & Hin & _).
  pose proof (inside_responses _ Hin) as Hresp.
  apply attempt_prefix in Ha as (rowss & Hall & Hlen & Hst & Hr);
    [|apply (plan_chunkSize Number_toString)].
  rewrite plan_cleared in Hst, Hr.
  exists rowss. split; [done |]. split; [done |].
  destruct outcome as [n|msg].
  - destruct Hr as (Hn & _ & -> & Hsent & Hbegin).
    destruct (refusal pg COMMIT) as [e|] eqn:Hcommit.
    + right. split.
      * right; right. rewrite rolled_back_statements, !statements_app, Hsent.
        split; [|done]. cbn. by rewrite <- ?app_assoc.
      * exists e. apply rolled_back_responses. by rewrite !responses_app, Hresp.
    + left. unfold events_of. cbn [snd]. rewrite !statements_app, Hsent, !responses_app, Hresp.
      split; [|done]. cbn. by rewrite <- ?app_assoc.
  - right. split.
    + rewrite rolled_back_statements, statements_app.
      destruct Hst as [[-> Hb]|(-> & -> & Hb)].
      * right; left. split; [|done]. cbn. by rewrite <- ?app_assoc.
      * by left.
    + exists msg. apply rolled_back_responses. by rewrite !responses_app, Hresp.
Qed.

(** The transaction of an accepted request has begun exactly when a
    connection was to be had and the BEGIN was accepted. *)
Lemma sync_begun (r : revision) (req : request) (d : database) (data : list value)
    (t : string) :
  strict_equals (field "apiKey" (body req)) (env_value (API_KEY env)) = true →
  field "data" (body req) = Arr data →
  resolved r req = Normal t →
  Query BEGIN None ∈ events_of (sync r req d) ↔
  connecting pg = None ∧ refusal pg BEGIN = None.
Proof.
  intros H Hdata Ht. rewrite (sync_accepted r req d data t) by done. rewrite run_plan_run.
  destruct (connecting pg) as [e|].
  { split; [|by intros [? _]]. intros Hin.
    repeat (apply elem_of_cons in Hin as [Hin|Hin]; [done |]). by inversion Hin. }
  destruct (attempt _ _ _) as [[outcome d1] e1] eqn:Ha.
  pose proof Ha as Hrun. rewrite attempt_run in Hrun.
  destruct (refusal pg BEGIN) as [e|] eqn:Hbegin.
  - injection Hrun as <- <- <-. split; [|by intros [_ ?]]. rewrite rolled_back_events.
    intros Hin. exfalso. destruct (refusal pg ROLLBACK);
      repeat (apply elem_of_cons in Hin as [Hin|Hin]; [done |]); by inversion Hin.
  - split; [done |]. intros _. destruct (attempt_begins _ _ _ _ _ _ _ _ Ha) as [rest ->].
    rewrite Hbegin.
    assert (Hin : Query BEGIN None ∈ [Log info (announce (plan_of r req t (length data)));
                                      Connect] ++ Query BEGIN None :: rest).
    { apply elem_of_app. right. by left. }
    destruct outcome as [n|msg]; [destruct (refusal pg COMMIT) |];
      rewrite ?rolled_back_events; unfold events_of; cbn [snd];
      rewrite ?app_assoc; revert Hin;
      generalize ([Log info (announce (plan_of r req t (length data))); Connect]
                  ++ Query BEGIN None :: rest);
      intros l Hin; rewrite !elem_of_app; tauto.
Qed.

Lemma strict_equals_env_value (v : value) (o : option string) :
  strict_equals v (env_value o) = true ↔ v = env_value o.
Proof.
  destruct o as [s|]; destruct v as [| |b|n|s'|l|ps]; cbn; try (split; done).
  rewrite String.eqb_eq. split; [by intros -> | by intros [= ->]].
Qed.

(** X5. A request is answered 401 exactly when its [apiKey] is not the
    configured secret itself: with a secret configured only the string
    equal to it passes (no number, null or differently cased text does),
    and with none configured only a request without [apiKey] passes. *)
Theorem rejected_exactly_when_key_differs (r : revision) (req : request) (d : database) :
  (401, invalid_api_key) ∈ responses (events_of (sync r req d)) ↔
  field "apiKey" (body req) ≠ env_value (API_KEY env).
Proof.
  rewrite (gate_exact Number_toString pg env r req d).
  rewrite <- not_true_iff_false. by rewrite strict_equals_env_value.
Qed.

(** The handler sends no page of the framework's. *)
Lemma sync_answers (r : revision) (req : request) (d : database) :
  answers (events_of (sync r req d)) = fst <$> responses (events_of (sync r req d)).
Proof.
  destruct (sync_cases r req d)
    as [(line & status & b & -> & _)|[(msg & -> & _)|[(line & msg & -> & _)|
        [(line & n & d1 & e1 & line' & -> & Hin & _)|
         (line & msg & d1 & e1 & -> & _ & Hin & _)]]]];
    try done.
  - unfold events_of. cbn [snd].
    by rewrite !answers_app, !responses_app, (inside_answers e1), (inside_responses e1).
  - apply entered_responses in Hin as (Hr & Ha & _).
    rewrite rolled_back_answers, rolled_back_responses
      by (by rewrite ?answers_app, ?responses_app, ?Hr, ?Ha).
    by destruct (refusal pg ROLLBACK).
Qed.

(** What the framework makes of the handler: nothing more when it
    returns; when it throws, nothing under Express 4, and one 500 answer
    under Express 5. *)
Lemma app_post_returned (version : express) (r : revision) (req : request) (d : database) :
  completion_of (sync r req d) = Normal tt → app_post version r req d = sync r req d.
Proof.
  unfold Sync.app_post. destruct (Sync.sync _ _ _ r req d) as [[[[]|msg] d1] e1]; [done |].
  unfold completion_of. cbn. done.
Qed.

Lemma app_post_thrown (version : express) (r : revision) (req : request) (d : database)
    (msg : string) :
  completion_of (sync r req d) = Throw msg →
  app_post version r req d =
  match version with
  | Express4 => sync r req d
  | Express5 =>
      (Normal tt, database_after (sync r req d),
       events_of (sync r req d) ++
       (if has_error_middleware r
        then [Log error ("Unhandled error: " +:+ msg); Respond 500 internal_server_error]
        else [Page 500]))
  end.
Proof.
  unfold Sync.app_post. destruct (Sync.sync _ _ _ r req d) as [[[[]|m] d1] e1]; [done |].
  unfold completion_of, database_after, events_of. cbn. intros [= ->].
  destruct version; [done |]. by destruct (has_error_middleware r).
Qed.

(** X6. No request is answered twice. When the handler returns, the
    request has been answered exactly once, with 200, 400, 401 or 500,
    [success] being true in the 200 answer only, and the framework adds
    nothing. When the handler throws, it has answered nothing; it throws
    for one of three reasons: the table name of an accepted request has
    no string conversion, and then nothing was logged or done; the pool
    gave no connection; or the ROLLBACK failed. Under Express 4 such a
    request gets no answer at all, under Express 5 one answer, 500. *)
Theorem answered_once_or_never (version : express) (r : revision) (req : request)
    (d : database) :
  match completion_of (sync r req d) with
  | Normal _ =>
      (∃ status body,
         responses (events_of (sync r req d)) = [(status, body)] ∧
         status ∈ [200; 400; 401; 500] ∧
         success body = (status =? 200)) ∧
      app_post version r req d = sync r req d
  | Throw msg =>
      responses (events_of (sync r req d)) = [] ∧
      (resolved r req = Throw msg ∧ events_of (sync r req d) = [] ∧
       database_after (sync r req d) = d ∧
       strict_equals (field "apiKey" (body req)) (env_value (API_KEY env)) = true ∧
       isArray (field "data" (body req)) = true ∨
       connecting pg = Some msg ∨
       refusal pg ROLLBACK = Some msg) ∧
      answers (events_of (app_post version r req d)) =
        match version with Express4 => [] | Express5 => [500] end ∧
      completion_of (app_post Express5 r req d) = Normal tt
  end.
Proof.
  destruct (completion_of (sync r req d)) as [[]|msg] eqn:Hc.
  - split; [|by apply app_post_returned]. revert Hc.
    destruct (sync_cases r req d)
      as [(line & status & b & -> & Hs & Hb)|[(msg & -> & _)|[(line & msg & -> & _)|
          [(line & n & d1 & e1 & line' & -> & Hin & _)|
           (line & msg & d1 & e1 & -> & _ & Hin & _)]]]];
      try done.
    + intros _. exists status, b. split; [done |].
      destruct Hs as [-> | ->]; (split; [|done]);
        repeat (first [by apply list_elem_of_here | apply list_elem_of_further]).
    + intros _. exists 200, (succeeded n). unfold events_of. cbn [snd].
      rewrite !responses_app, (inside_responses e1) by done. split; [done |]. split; [|done].
      by apply list_elem_of_here.
    + apply entered_responses in Hin as (Hr & _ & _).
      rewrite rolled_back_completion, rolled_back_responses
        by (by rewrite ?responses_app, ?Hr).
      destruct (refusal pg ROLLBACK); [done |]. intros _. exists 500, (failed msg).
      split; [done |]. split; [|done].
      repeat (first [by apply list_elem_of_here | apply list_elem_of_further]).
  - rewrite !(app_post_thrown _ r req d msg Hc). unfold completion_of at 1.
    assert (Hnone : responses (events_of (sync r req d)) = [] ∧
              (resolved r req = Throw msg ∧ events_of (sync r req d) = [] ∧
               database_after (sync r req d) = d ∧
               strict_equals (field "apiKey" (body req)) (env_value (API_KEY env)) = true ∧
               isArray (field "data" (body req)) = true ∨
               connecting pg = Some msg ∨
               refusal pg ROLLBACK = Some msg)).
    { revert Hc.
      destruct (sync_cases r req d)
        as [(line & status & b & -> & Hs & Hb)|[(m & -> & Ht & Ha & Hd)|[(line & m & -> & Hp)|
            [(line & n & d1 & e1 & line' & -> & Hin & _)|
             (line & m & d1 & e1 & -> & _ & Hin & _)]]]];
        try done.
      - intros [= ->]. split; [done |]. by left.
      - intros [= ->]. split; [done |]. right. by left.
      - apply entered_responses in Hin as (Hr & _ & _).
        rewrite rolled_back_completion, rolled_back_responses
          by (by rewrite ?responses_app, ?Hr).
        destruct (refusal pg ROLLBACK); [|done]. intros [= ->]. split; [done |].
        right. by right. }
    destruct Hnone as [Hr Hcause]. split; [done |]. split; [done |]. split; [|done].
    pose proof (sync_answers r req d) as Ha. rewrite Hr in Ha.
    destruct version; [done |]. unfold events_of at 1. cbn [snd].
    rewrite answers_app, Ha. by destruct (has_error_middleware r).
Qed.

(** X7. A [tableName] that is an object with a property called
    [toString] makes an accepted request throw in the handler, before
    the [try]: the handler logs nothing, takes no connection and sends no
    answer. What the caller gets is the framework's business: nothing
    under Express 4; under Express 5 the 500 answer of the error
    middleware, after its line in the log, in the two revisions that have
    one, and else the 500 page of the framework. The revision that
    ignores [tableName] is not concerned. *)
Theorem unprintable_table_name_is_not_answered (r : revision) (req : request) (d : database)
    (data : list value) (properties : list (string * value)) :
  r ≠ TruncateAlways →
  strict_equals (field "apiKey" (body req)) (env_value (API_KEY env)) = true →
  field "data" (body req) = Arr data →
  field "tableName" (body req) = Obj properties →
  is_Some (own_property "toString" properties) →
  sync r req d = (Throw "Cannot convert object to primitive value", d, []) ∧
  app_post Express4 r req d = (Throw "Cannot convert object to primitive value", d, []) ∧
  app_post Express5 r req d =
    (Normal tt, d,
     if has_error_middleware r
     then [Log error "Unhandled error: Cannot convert object to primitive value";
           Respond 500 internal_server_error]
     else [Page 500]) ∧
  has_error_middleware r = (if r is TruncateFirst then false else true).
Proof.
  intros Hr H Hdata Htable [x Hx].
  assert (Hsync : sync r req d = (Throw "Cannot convert object to primitive value", d, [])).
  { rewrite (sync_planned Number_toString pg env r req d data) by done.
    assert (Ht : resolved r req = Throw "Cannot convert object to primitive value").
    { destruct r; try done; unfold Sync.resolved, targetTable, isValidIdentifier;
        rewrite Htable; cbn; by rewrite Hx. }
    by rewrite Ht. }
  split; [done |].
  rewrite !(app_post_thrown _ r req d "Cannot convert object to primitive value")
    by (by rewrite Hsync).
  rewrite Hsync. split; [done |]. split; [|by destruct r].
  unfold database_after, events_of. cbn. by destruct (has_error_middleware r).
Qed.

Lemma DEFAULT_TABLE_not_empty : DEFAULT_TABLE env ≠ "".
Proof.
  unfold DEFAULT_TABLE. destruct (RRC_CLIENTS_TABLE env) as [s|]; [|done].
  destruct (String.eqb s "") eqn:E; [done | by apply String.eqb_neq].
Qed.

(** X8. Whatever JSON value [tableName] is (a string, a number, an
    array, an object), the table written to is never empty and is either
    the default table or a name made of letters, digits and underscores
    only. *)
Theorem table_name_is_a_word_or_the_default (r : revision) (req : request) (t : string) :
  resolved r req = Normal t →
  (Spec.allowed t = true ∨ t = DEFAULT_TABLE env) ∧ t ≠ "".
Proof.
  intros Ht.
  assert (Hcase : Spec.allowed t = true ∨ t = DEFAULT_TABLE env).
  { destruct r; try (by injection Ht as <-; left);
      unfold Sync.resolved, targetTable, isValidIdentifier in Ht;
      (destruct (truthy _); [|by injection Ht as <-; right]);
      (destruct (ToString _ _) as [s|msg] eqn:Hs; [|done]);
      cbn in Ht; rewrite test_identifier in Ht;
      (destruct (Spec.allowed s) eqn:Ha; cbn in Ht;
       [rewrite Hs in Ht; injection Ht as <-; by left | injection Ht as <-; by right]). }
  split; [done |]. destruct Hcase as [Ha| ->]; [by intros -> | apply DEFAULT_TABLE_not_empty].
Qed.

(** X9. A request either never touches the pool; or asks it for a
    connection, gets none, and does nothing more; or takes one connection
    and releases it as the very last thing it does, whether the
    transaction committed, was rolled back, or could not even be rolled
    back: no statement is sent before the connection is taken, and none
    after it is released. *)
Theorem connection_is_released (r : revision) (req : request) (d : database) :
  existsb touches_pool (events_of (sync r req d)) = false ∨
  (∃ line msg,
     events_of (sync r req d) = [Log info line; Unavailable msg] ∧
     connecting pg = Some msg ∧ completion_of (sync r req d) = Throw msg) ∨
  ∃ before between,
    events_of (sync r req d) = before ++ Connect :: between ++ [Release] ∧
    existsb touches_pool before = false ∧
    Forall (λ e, e ≠ Connect ∧ e ≠ Release ∧ ∀ m, e ≠ Unavailable m) between ∧
    connecting pg = None.
Proof.
  destruct (sync_cases r req d)
    as [(line & status & b & -> & _)|[(msg & -> & _)|[(line & msg & -> & Hp)|
        [(line & n & d1 & e1 & line' & -> & Hin & Hconn)|
         (line & msg & d1 & e1 & -> & _ & Hin & Hconn)]]]].
  - by left.
  - by left.
  - right; left. by exists line, msg.
  - right; right. exists [Log info line],
      (e1 ++ [Query COMMIT None; Log info line'; Respond 200 (succeeded n)]).
    unfold events_of. cbn [snd]. split; [by rewrite <- !app_assoc |]. split; [done |].
    split; [|done]. apply Forall_app. split; [|by repeat constructor].
    eapply Forall_impl; [exact Hin |]. intros x Hx.
    split; [|split; [|intros m]]; intros ->; exact Hx.
  - right; right. apply entered_responses in Hin as (_ & _ & Hb).
    rewrite rolled_back_events.
    exists [Log info line],
      (e1 ++ Query ROLLBACK (refusal pg ROLLBACK)
          :: match refusal pg ROLLBACK with
             | None => [Log error ("Sync failed: " +:+ msg); Respond 500 (failed msg)]
             | Some _ => []
             end).
    split; [|split; [done |split; [|done]]].
    + destruct (refusal pg ROLLBACK); cbn; by rewrite <- !app_assoc.
    + apply Forall_app. split; [done |].
      destruct (refusal pg ROLLBACK); by repeat constructor.
Qed.


(** *** The statements of an accepted request *)

Lemma chunks_count {A} (n : nat) (l : list A) :
  0 < n → length (Spec.chunks n l) = (length l + n - 1) / n.
Proof.
  intros Hn. induction l as [l IH] using (induction_ltof1 _ (@length A)). unfold ltof in IH.
  destruct (decide (l = [])) as [->|Hl].
  - cbn [length Spec.chunks Spec.chunks_upto]. symmetry. apply Nat.div_small. lia.
  - assert (Hlen : 0 < length l) by (destruct l; [done | cbn [length]; lia]).
    rewrite chunks_cons by done. cbn [length]. rewrite IH by (rewrite length_drop; lia).
    rewrite length_drop. destruct (decide (length l ≤ n)) as [Hle|Hgt].
    + replace (length l - n + n - 1) with (n - 1) by lia.
      rewrite (Nat.div_small (n - 1)) by lia.
      apply (Nat.div_unique _ _ 1 (length l - 1)); lia.
    + replace (length l + n - 1) with ((length l - n + n - 1) + 1 * n) by lia.
      rewrite Nat.div_add by lia. lia.
Qed.

Lemma cleared_with_no_insert (r : revision) (req : request) (t : string) :
  filter (λ q, is_insert q = true) (cleared_with r req t) = [].
Proof. unfold cleared_with. destruct (clears r req); [|done]. by destruct r. Qed.

Lemma accepted_inserts (r : revision) (req : request) (d : database) (data : list value)
    (t : string) :
  strict_equals (field "apiKey" (body req)) (env_value (API_KEY env)) = true →
  field "data" (body req) = Arr data →
  resolved r req = Normal t →
  ∃ rowss : list (list (list value)),
    Forall2 (λ chunk rows, mapM (values_of r) chunk = Normal rows)
      (take (length rowss) (Spec.chunks (chunkSize_of r) data)) rowss ∧
    length rowss ≤ length (Spec.chunks (chunkSize_of r) data) ∧
    inserts (events_of (sync r req d)) =
      insert_statement (plan_of r req t (length data)) <$> rowss ∧
    (∀ reply, (200, reply) ∈ responses (events_of (sync r req d)) →
              length rowss = length (Spec.chunks (chunkSize_of r) data)).
Proof.
  intros H Hdata Ht. destruct (connecting pg) as [e|] eqn:Hconn.
  { rewrite (sync_accepted r req d data t) by done. rewrite run_plan_run, Hconn.
    exists []. split; [constructor |]. split; [cbn; lia |]. split; [done |].
    intros reply Hr. by inversion Hr. }
  destruct (accepted_statements r req d data t H Hdata Ht Hconn)
    as (rowss & Hall & Hlen & Hcases).
  exists rowss. split; [done |]. split; [done |].
  assert (Hins : ∀ ending : list statement,
            filter (λ q, is_insert q = true) ending = [] →
            filter (λ q, is_insert q = true)
              (BEGIN :: cleared_with r req t
                 ++ (insert_statement (plan_of r req t (length data)) <$> rowss) ++ ending) =
            insert_statement (plan_of r req t (length data)) <$> rowss).
  { intros ending Hending. rewrite filter_cons_False by done.
    rewrite !filter_app, cleared_with_no_insert, Hending, app_nil_r.
    apply (inserts_statements (plan_of r req t (length data))). }
  unfold inserts.
  destruct Hcases as [(-> & Hn & _ & _ & Hr)|[[(-> & -> & _)|[(-> & _)|(-> & Hn & _)]]
                                              (msg & Hr)]].
  - split; [by apply Hins |]. done.
  - split; [done |]. intros reply Hreply. rewrite Hr in Hreply.
    destruct (refusal pg ROLLBACK); [by inversion Hreply |].
    by apply list_elem_of_singleton in Hreply.
  - split; [by apply Hins |]. intros reply Hreply. rewrite Hr in Hreply.
    destruct (refusal pg ROLLBACK); [by inversion Hreply |].
    by apply list_elem_of_singleton in Hreply.
  - split; [by apply Hins |]. done.
Qed.

(** X10. The statements of a request that passed the two checks and got
    a connection are, in this order: BEGIN; the one statement that clears
    the table, where the revision clears it for this request (DELETE FROM
    in [src/server.js] and the wide revision, TRUNCATE in the other two);
    INSERTs into that same table over the columns of the revision; and
    COMMIT, with the answer 200 for all the records. Or they stop short
    of that, after the BEGIN, the clearing statement, an INSERT or the
    COMMIT, and ROLLBACK is sent next and last, with the answer 500 when
    it is accepted and none when it is not. A COMMIT is accepted exactly
    in a request that is answered 200. No transaction stays open. *)
Theorem statements_of_an_accepted_request (r : revision) (req : request) (d : database)
    (data : list value) (t : string) :
  strict_equals (field "apiKey" (body req)) (env_value (API_KEY env)) = true →
  field "data" (body req) = Arr data →
  resolved r req = Normal t →
  connecting pg = None →
  (∃ ins : list statement,
     Forall (λ q, ∃ valuePlaceholders values,
                    q = INSERT_INTO t (columns_of r) valuePlaceholders values) ins ∧
     (statements (events_of (sync r req d)) =
        BEGIN :: cleared_with r req t ++ ins ++ [COMMIT] ∧
      responses (events_of (sync r req d)) = [(200, succeeded (length data))] ∨
      (statements (events_of (sync r req d)) = [BEGIN; ROLLBACK] ∨
       statements (events_of (sync r req d)) =
         BEGIN :: cleared_with r req t ++ ins ++ [ROLLBACK] ∨
       statements (events_of (sync r req d)) =
         BEGIN :: cleared_with r req t ++ ins ++ [COMMIT; ROLLBACK]) ∧
      ∃ msg, responses (events_of (sync r req d)) =
             match refusal pg ROLLBACK with None => [(500, failed msg)] | Some _ => [] end)) ∧
  (Query COMMIT None ∈ events_of (sync r req d) ↔
   (200, succeeded (length data)) ∈ responses (events_of (sync r req d))) ∧
  Pg.transaction (database_after (sync r req d)) = None.
Proof.
  intros H Hdata Ht Hconn. split; [|split].
  - destruct (accepted_statements r req d data t H Hdata Ht Hconn)
      as (rowss & Hall & Hlen & Hcases).
    exists (insert_statement (plan_of r req t (length data)) <$> rowss). split.
    { apply Forall_fmap, Forall_forall. intros rows _. by eexists _, _. }
    destruct Hcases as [(Hst & _ & _ & _ & Hr)|[[(Hst & -> & _)|[(Hst & _)|(Hst & _)]] Hr]].
    + by left.
    + right. split; [by left | done].
    + right. split; [right; by left | done].
    + right. split; [right; by right | done].
  - rewrite (sync_accepted r req d data t) by done. rewrite run_plan_run, Hconn.
    destruct (attempt _ _ _) as [[[n|msg] d1] e1] eqn:Ha.
    + destruct (attempt_invariant _ _ _ _ _ _ _ _ Ha) as (_ & Hin & _).
      apply attempt_prefix in Ha as (rowss & _ & _ & _ & _ & _ & -> & _);
        [|apply (plan_chunkSize Number_toString)].
      pose proof (inside_no_end _ None Hin) as [Hcommit _].
      destruct (refusal pg COMMIT) as [e|].
      * rewrite rolled_back_responses, rolled_back_events
          by (by rewrite !responses_app, (inside_responses e1)).
        split.
        -- intros Hq. exfalso. rewrite !elem_of_app in Hq.
           destruct Hq as [[Hq|[Hq|Hq]]|Hq]; [by apply no_query_in_preamble in Hq | done | |].
           ++ by apply list_elem_of_singleton in Hq.
           ++ destruct (refusal pg ROLLBACK);
                repeat (apply elem_of_cons in Hq as [Hq|Hq]; [done |]); by inversion Hq.
        -- destruct (refusal pg ROLLBACK); [by inversion 1 |].
           intros Hq. by apply list_elem_of_singleton in Hq.
      * unfold events_of. cbn [snd]. rewrite !responses_app, (inside_responses e1) by done.
        split; intros _; [by apply list_elem_of_here |].
        apply elem_of_app. right. apply elem_of_app. right. by left.
    + destruct (attempt_invariant _ _ _ _ _ _ _ _ Ha) as (_ & Hin & _).
      pose proof (inside_no_end _ None Hin) as [Hcommit _].
      rewrite rolled_back_responses, rolled_back_events
        by (by rewrite !responses_app, (inside_responses e1)).
      split.
      * intros Hq. exfalso. rewrite !elem_of_app in Hq.
        destruct Hq as [[Hq|Hq]|Hq]; [by apply no_query_in_preamble in Hq | done |].
        destruct (refusal pg ROLLBACK);
          repeat (apply elem_of_cons in Hq as [Hq|Hq]; [done |]); by inversion Hq.
      * destruct (refusal pg ROLLBACK); [by inversion 1 |].
        intros Hq. by apply list_elem_of_singleton in Hq.
  - rewrite (sync_accepted r req d data t) by done. rewrite run_plan_run, Hconn.
    destruct (attempt _ _ _) as [[[n|msg] d1] e1]; [destruct (refusal pg COMMIT) |];
      by rewrite ?rolled_back_database.
Qed.

(** X11. No INSERT is ever sent without rows, with more rows than the
    chunk size of the revision (500, or 100 in the wide revision), or
    with a number of parameters other than rows times columns: at most
    2000 parameters in a statement, whatever the request and whether it
    succeeds or not. *)
Theorem inserts_are_bounded (r : revision) (req : request) (d : database) :
  Forall (λ q, 0 < rows_of q ≤ chunkSize_of r ∧
               parameters_of q = rows_of q * length (columns_of r) ∧
               parameters_of q ≤ 2000)
    (inserts (events_of (sync r req d))).
Proof.
  destruct (strict_equals (field "apiKey" (body req)) (env_value (API_KEY env))) eqn:H.
  2:{ rewrite (sync_unauthorized Number_toString pg env r req d) by done. constructor. }
  destruct (isArray (field "data" (body req))) eqn:Hdata.
  2:{ rewrite (sync_not_an_array Number_toString pg env r req d) by done. constructor. }
  destruct (field "data" (body req)) as [| | | | |data|] eqn:Hd; try done.
  destruct (resolved r req) as [t|msg] eqn:Ht.
  2:{ rewrite (sync_planned Number_toString pg env r req d data) by done.
      rewrite Ht. constructor. }
  destruct (accepted_inserts r req d data t H Hd Ht) as (rowss & Hall & Hlen & -> & _).
  apply Forall_fmap. eapply Forall2_Forall_r; [exact Hall |].
  apply Forall_take. eapply Forall_impl; [apply (chunks_bounds (chunkSize_of r) data) |].
  { destruct r; cbn; lia. }
  intros chunk Hchunk rows Hrows.
  assert (Hrowsn : length rows = length chunk) by (by eapply mapM_length).
  assert (Hwidth : length (concat rows) = length rows * length (columns_of r)).
  { apply concat_uniform_length.
    apply (rows_width (plan_of r req t (length data))
             (plan_width Number_toString r req t (length data)) chunk rows Hrows). }
  unfold compose, insert_statement, rows_of, parameters_of. cbn [table columns Sync.plan_of].
  unfold Spec.placeholders. rewrite length_fmap, length_seq, Hwidth, Hrowsn.
  split; [done |]. split; [done |].
  destruct Hchunk as [_ Hle]. destruct r; cbn [chunkSize_of columns_of] in *;
    [change (length narrow_columns) with 4 | change (length wide_columns) with 20
     | change (length narrow_columns) with 4 | change (length narrow_columns) with 4]; lia.
Qed.

Lemma chunks_sizes {A} (n : nat) (l : list A) :
  0 < n →
  length <$> Spec.chunks n l =
    replicate (length l / n) n ++ (if length l mod n =? 0 then [] else [length l mod n]).
Proof.
  intros Hn. induction l as [l IH] using (induction_ltof1 _ (@length A)). unfold ltof in IH.
  destruct (decide (l = [])) as [->|Hl].
  - cbn [length Spec.chunks Spec.chunks_upto fmap list_fmap].
    by rewrite Nat.Div0.div_0_l, Nat.Div0.mod_0_l.
  - assert (Hlen : 0 < length l) by (destruct l; [done | cbn [length]; lia]).
    rewrite chunks_cons by done. cbn [fmap list_fmap]. rewrite IH by (rewrite length_drop; lia).
    rewrite length_take, length_drop. destruct (decide (length l < n)) as [Hlt|Hge].
    + replace (length l - n) with 0 by lia.
      rewrite Nat.Div0.div_0_l, Nat.Div0.mod_0_l, Nat.div_small, Nat.mod_small by lia.
      destruct (Nat.eqb_spec (length l) 0) as [E|_]; [lia |]. cbn. f_equal. lia.
    + assert (Hd : length l / n = S ((length l - n) / n)).
      { replace (length l) with ((length l - n) + 1 * n) at 1 by lia.
        rewrite Nat.div_add by lia. lia. }
      assert (Hm : length l mod n = (length l - n) mod n).
      { replace (length l) with ((length l - n) + 1 * n) at 1 by lia.
        by rewrite Nat.Div0.mod_add. }
      rewrite Hd, Hm. cbn [replicate app]. f_equal. lia.
Qed.

Lemma rows_lengths {A B} (f : A → completion B) (l : list (list A)) (rowss : list (list B)) :
  Forall2 (λ chunk rows, mapM f chunk = Normal rows) l rowss →
  length <$> rowss = length <$> l.
Proof.
  induction 1 as [|chunk rows l rowss H _ IH]; [done |]. cbn [fmap list_fmap].
  by rewrite IH, (mapM_length _ _ _ H).
Qed.

(** X12. A request with [n] records sends at most as many INSERTs as it
    has chunks, the integer part of [(n + size - 1) / size]. When it is
    answered 200 it has sent one for each: [n / size] of them with [size]
    rows, followed by one with the remaining [n mod size] rows, if
    any. *)
Theorem inserts_are_full_but_the_last (r : revision) (req : request) (d : database)
    (data : list value) :
  field "data" (body req) = Arr data →
  length (inserts (events_of (sync r req d))) ≤
    (length data + chunkSize_of r - 1) / chunkSize_of r ∧
  (∀ reply, (200, reply) ∈ responses (events_of (sync r req d)) →
     rows_of <$> inserts (events_of (sync r req d)) =
       replicate (length data / chunkSize_of r) (chunkSize_of r)
       ++ (if length data mod chunkSize_of r =? 0 then []
           else [length data mod chunkSize_of r])).
Proof.
  intros Hd.
  assert (Hpos : 0 < chunkSize_of r) by (destruct r; cbn; lia).
  destruct (strict_equals (field "apiKey" (body req)) (env_value (API_KEY env))) eqn:H.
  2:{ rewrite (sync_unauthorized Number_toString pg env r req d) by done.
      split; [cbn; lia |]. intros reply Hr. by apply list_elem_of_singleton in Hr. }
  destruct (resolved r req) as [t|msg] eqn:Ht.
  2:{ rewrite (sync_planned Number_toString pg env r req d data) by done.
      rewrite Ht. split; [cbn; lia |]. intros reply Hr. by apply elem_of_nil in Hr. }
  destruct (accepted_inserts r req d data t H Hd Ht) as (rowss & Hall & Hlen & -> & Hok).
  rewrite length_fmap, <- chunks_count by done. split; [done |].
  intros reply Hr. specialize (Hok reply Hr). rewrite take_ge in Hall by lia.
  rewrite <- chunks_sizes by done. rewrite <- (rows_lengths _ _ _ Hall).
  rewrite <- list_fmap_compose. apply list_fmap_ext. intros _ rows _.
  unfold compose, insert_statement, rows_of, Spec.placeholders.
  by rewrite length_fmap, length_seq.
Qed.

(** *** Failures *)

(** X14. A statement that fails is the last one of the transaction: no
    statement failed before it, nothing was answered, and what follows it
    is the ROLLBACK and then, when the ROLLBACK is accepted, the error
    line, the 500 answer with the message of that statement, and the
    release. When the ROLLBACK fails, it is followed by the release only,
    and the request is not answered. So no INSERT is sent after a
    failure, and no statement but the ROLLBACK. *)
Theorem nothing_is_sent_after_a_failure (r : revision) (req : request) (d : database)
    (q : statement) (msg : string) :
  Query q (Some msg) ∈ events_of (sync r req d) →
  (q ≠ ROLLBACK →
   ∃ before,
     events_of (sync r req d) =
       before ++ Query q (Some msg) :: Query ROLLBACK (refusal pg ROLLBACK)
              :: match refusal pg ROLLBACK with
                 | None => [Log error ("Sync failed: " +:+ msg); Respond 500 (failed msg);
                            Release]
                 | Some _ => [Release]
                 end ∧
     failures before = [] ∧ responses before = []) ∧
  (q = ROLLBACK →
   refusal pg ROLLBACK = Some msg ∧
   responses (events_of (sync r req d)) = [] ∧
   completion_of (sync r req d) = Throw msg ∧
   ∃ before, events_of (sync r req d) = before ++ [Query ROLLBACK (Some msg); Release] ∧
             Query ROLLBACK (Some msg) ∉ before).
Proof.
  destruct (strict_equals (field "apiKey" (body req)) (env_value (API_KEY env))) eqn:H.
  2:{ rewrite (sync_unauthorized Number_toString pg env r req d) by done.
      intros Hin%failed_query_elem. by apply elem_of_nil in Hin. }
  destruct (isArray (field "data" (body req))) eqn:Hdata.
  2:{ rewrite (sync_not_an_array Number_toString pg env r req d) by done.
      intros Hin%failed_query_elem. by apply elem_of_nil in Hin. }
  destruct (field "data" (body req)) as [| | | | |data|] eqn:Hd; try done.
  destruct (resolved r req) as [t|m] eqn:Ht.
  2:{ rewrite (sync_planned Number_toString pg env r req d data) by done.
      rewrite Ht. intros Hin. by apply elem_of_nil in Hin. }
  rewrite (sync_accepted r req d data t) by done. intros Hin. split.
  - intros Hq.
    apply (run_plan_failure Number_toString pg) in Hin as (before & d1 & -> & Hf & Hr & _);
      [|apply (plan_chunkSize Number_toString) | done].
    exists before. rewrite rolled_back_events, <- app_assoc. done.
  - intros ->. revert Hin. rewrite run_plan_run.
    destruct (connecting pg) as [e|].
    { intros Hin. repeat (apply elem_of_cons in Hin as [Hin|Hin]; [done |]).
      by inversion Hin. }
    assert (Hrolled : ∀ m d1 e1,
              responses e1 = [] → (∀ o, Query ROLLBACK o ∉ e1) →
              Query ROLLBACK (Some msg) ∈ events_of (rolled_back pg m d1 e1) →
              refusal pg ROLLBACK = Some msg ∧
              responses (events_of (rolled_back pg m d1 e1)) = [] ∧
              completion_of (rolled_back pg m d1 e1) = Throw msg ∧
              ∃ before, events_of (rolled_back pg m d1 e1)
                        = before ++ [Query ROLLBACK (Some msg); Release] ∧
                        Query ROLLBACK (Some msg) ∉ before).
    { intros m d1 e1 Hr Hno. rewrite rolled_back_responses, rolled_back_completion by done.
      rewrite rolled_back_events. intros Hin.
      apply elem_of_app in Hin as [Hin|Hin]; [by apply Hno in Hin |].
      destruct (refusal pg ROLLBACK) as [e|].
      - apply elem_of_cons in Hin as [[= ->]|Hin].
        + split; [done |]. split; [done |]. split; [done |]. exists e1. split; [done |].
          apply Hno.
        + apply list_elem_of_singleton in Hin. done.
      - repeat (apply elem_of_cons in Hin as [Hin|Hin]; [done |]). by inversion Hin. }
    destruct (attempt _ _ _) as [[[n|m] d1] e1] eqn:Ha;
      apply attempt_invariant in Ha as (_ & Hin & _).
    + destruct (refusal pg COMMIT) as [e|].
      * apply Hrolled; [by rewrite !responses_app, (inside_responses e1) |].
        intros o Ho. rewrite !elem_of_app in Ho. destruct Ho as [Ho|[Ho|Ho]].
        -- by apply no_query_in_preamble in Ho.
        -- by apply (inside_no_end e1 o Hin) in Ho.
        -- by apply list_elem_of_singleton in Ho.
      * unfold events_of. cbn [snd]. intros Ho. exfalso. rewrite !elem_of_app in Ho.
        destruct Ho as [Ho|[Ho|Ho]].
        -- by apply no_query_in_preamble in Ho.
        -- by apply (inside_no_end e1 (Some msg) Hin) in Ho.
        -- repeat (apply elem_of_cons in Ho as [Ho|Ho]; [done |]). by inversion Ho.
    + apply Hrolled; [by rewrite !responses_app, (inside_responses e1) |].
      intros o Ho. rewrite !elem_of_app in Ho. destruct Ho as [Ho|Ho].
      * by apply no_query_in_preamble in Ho.
      * by apply (inside_no_end e1 o Hin) in Ho.
Qed.

Lemma error_cause (r : revision) (req : request) (d : database)
    (data : list value) (msg : string) :
  field "data" (body req) = Arr data →
  (500, failed msg) ∈ responses (events_of (sync r req d)) →
  failures (events_of (sync r req d)) = [msg] ∨
  failures (events_of (sync r req d)) = [] ∧ ∃ row, row ∈ data ∧ values_of r row = Throw msg.
Proof.
  intros Hd.
  destruct (strict_equals (field "apiKey" (body req)) (env_value (API_KEY env))) eqn:H.
  2:{ rewrite (sync_unauthorized Number_toString pg env r req d) by done.
      intros Hin. by apply list_elem_of_singleton in Hin. }
  destruct (resolved r req) as [t|m] eqn:Ht.
  2:{ rewrite (sync_planned Number_toString pg env r req d data) by done.
      rewrite Ht. intros Hin. by apply elem_of_nil in Hin. }
  rewrite (sync_accepted r req d data t) by done. rewrite run_plan_run.
  destruct (connecting pg) as [e|]; [by inversion 1 |].
  destruct (attempt _ _ _) as [[outcome d1] e1] eqn:Ha.
  destruct (attempt_invariant _ _ _ _ _ _ _ _ Ha) as (_ & Hin & _).
  pose proof (inside_responses _ Hin) as He1.
  apply attempt_prefix in Ha as (rowss & _ & _ & _ & Hr);
    [|apply (plan_chunkSize Number_toString)].
  assert (Hrolled : ∀ m d1 e1,
            responses e1 = [] →
            (500, failed msg) ∈ responses (events_of (rolled_back pg m d1 e1)) →
            m = msg ∧ failures (events_of (rolled_back pg m d1 e1)) = failures e1).
  { intros m d2 e2 Hr2. rewrite rolled_back_responses, rolled_back_events by done.
    destruct (refusal pg ROLLBACK); [by inversion 1 |].
    intros Hresp. apply list_elem_of_singleton in Hresp. injection Hresp as ->.
    split; [done |]. rewrite failures_app. apply app_nil_r. }
  destruct outcome as [n|m].
  - destruct Hr as (_ & Hf & _). destruct (refusal pg COMMIT) as [e|].
    + intros Hresp. apply Hrolled in Hresp as [-> ->]; [|by rewrite !responses_app, He1].
      left. by rewrite !failures_app, Hf.
    + unfold events_of. cbn [snd]. rewrite !responses_app, He1. intros Hresp.
      by apply list_elem_of_singleton in Hresp.
  - intros Hresp. apply Hrolled in Hresp as [-> ->]; [|by rewrite !responses_app, He1].
    rewrite failures_app.
    destruct Hr as [(before & q' & -> & Hb & _)|(Hf & row & Hrow & Hv)].
    + left. by rewrite failures_app, Hb.
    + right. rewrite Hf. split; [done |]. by exists row.
Qed.

(** X15. A 500 answer has one of two causes, and carries its message:
    the one statement that failed, or, no statement having failed, a
    record of the request whose values could not be built (a null
    record, or a field without a string conversion). *)
Theorem server_error_has_a_cause (r : revision) (req : request) (d : database)
    (data : list value) (msg : string) :
  field "data" (body req) = Arr data →
  (500, failed msg) ∈ responses (events_of (sync r req d)) →
  failures (events_of (sync r req d)) = [msg] ∨
  failures (events_of (sync r req d)) = [] ∧ ∃ row, row ∈ data ∧ values_of r row = Throw msg.
Proof. apply error_cause. Qed.

(** X16. For a snapshot of the data model, every record an object whose
    fields are strings, numbers, booleans or null, a 500 answer always
    comes from the database: one statement failed, and the answer
    carries its message. *)
Theorem model_snapshots_fail_only_in_the_database (r : revision) (req : request)
    (d : database) (data : list value) (msg : string) :
  field "data" (body req) = Arr data →
  Forall (λ row, ∃ properties,
            row = Obj properties ∧ Forall (λ kv, Spec.scalar kv.2 = true) properties) data →
  (500, failed msg) ∈ responses (events_of (sync r req d)) →
  failures (events_of (sync r req d)) = [msg].
Proof.
  intros Hd Hdata Hresp.
  destruct (error_cause r req d data msg Hd Hresp) as [Hf|(_ & row & Hrow & Hv)]; [done |].
  apply (proj1 (Forall_forall _ _) Hdata) in Hrow as (properties & -> & Hp).
  destruct (model_record_builds Number_toString r properties Hp) as [vs Hvs].
  by rewrite Hvs in Hv.
Qed.

(** *** The tables *)

Lemma plan_clearing (r : revision) (req : request) (t : string) (n : nat) :
  clears r req = true →
  ∃ before m after,
    clearing (plan_of r req t n) = Some (before, m, after) ∧
    [clear_statement (plan_of r req t n) m] = cleared_with r req t.
Proof.
  intros Hc. unfold cleared_with. rewrite Hc.
  destruct r; cbn in *; try (by eexists _, _, _). rewrite Hc. by eexists _, _, _.
Qed.

Lemma names_its_table (r : revision) (req : request) (d : database) (data : list value)
    (t : string) :
  strict_equals (field "apiKey" (body req)) (env_value (API_KEY env)) = true →
  field "data" (body req) = Arr data →
  resolved r req = Normal t →
  Forall (λ q, table_of q = None ∨ table_of q = Some t) (statements (events_of (sync r req d))).
Proof.
  intros H Hdata Ht. destruct (connecting pg) as [e|] eqn:Hconn.
  { rewrite (sync_accepted r req d data t) by done. rewrite run_plan_run, Hconn. constructor. }
  destruct (accepted_statements r req d data t H Hdata Ht Hconn)
    as (rowss & _ & _ & Hcases).
  assert (Hsent : ∀ ending : list statement,
            Forall (λ q, table_of q = None ∨ table_of q = Some t) ending →
            Forall (λ q, table_of q = None ∨ table_of q = Some t)
              (BEGIN :: cleared_with r req t
                 ++ (insert_statement (plan_of r req t (length data)) <$> rowss) ++ ending)).
  { intros ending Hending. constructor; [by left |]. rewrite !Forall_app. repeat split.
    - unfold cleared_with. destruct (clears r req); [|constructor].
      constructor; [|constructor]. right. by destruct r.
    - apply Forall_fmap, Forall_forall. intros rows _. by right.
    - done. }
  destruct Hcases as [(-> & _)|[[(-> & _)|[(-> & _)|(-> & _)]] _]].
  - apply Hsent. repeat constructor.
  - repeat constructor.
  - apply Hsent. repeat constructor.
  - apply Hsent. repeat constructor.
Qed.

(** X17. A request names no table but its own in what it sends: every
    statement is BEGIN, COMMIT or ROLLBACK, or names the table of the
    request. And a statement changing only the table that its name
    denotes for the server, every other table holds afterwards what was
    committed before, whatever the request, its revision and its
    outcome. *)
Theorem other_tables_are_untouched (r : revision) (req : request) (d : database)
    (t other : string) :
  Pg.transaction d = None →
  resolved r req = Normal t →
  other ≠ relation pg t →
  committed (database_after (sync r req d)) !! other = committed d !! other ∧
  Forall (λ q, table_of q = None ∨ table_of q = Some t) (statements (events_of (sync r req d))).
Proof.
  intros Hidle Ht Hother.
  destruct (strict_equals (field "apiKey" (body req)) (env_value (API_KEY env))) eqn:H.
  2:{ rewrite (sync_unauthorized Number_toString pg env r req d) by done.
      split; [done | constructor]. }
  destruct (isArray (field "data" (body req))) eqn:Hdata.
  2:{ rewrite (sync_not_an_array Number_toString pg env r req d) by done.
      split; [done | constructor]. }
  destruct (field "data" (body req)) as [| | | | |data|] eqn:Hd; try done.
  split; [|by apply (names_its_table r req d data t)].
  rewrite (sync_accepted r req d data t) by done. rewrite run_plan_run.
  destruct (connecting pg); [done |].
  destruct (attempt _ _ _) as [[[n|msg] d1] e1] eqn:Ha.
  - destruct (refusal pg COMMIT).
    { destruct (attempt_invariant _ _ _ _ _ _ _ _ Ha) as (Hc & _).
      rewrite rolled_back_database. cbn [committed aborted]. by rewrite Hc. }
    destruct (attempt_success Number_toString pg (plan_of r req t (length data))
                (plan_width Number_toString r req t (length data)) data n d d1 e1
                (plan_chunkSize Number_toString r req t (length data)) Ha)
      as (rowss & _ & _ & _ & _ & Hothers & _).
    unfold database_after. cbn [fst snd committed].
    rewrite (Hothers other) by done. unfold current. by rewrite Hidle.
  - destruct (attempt_invariant _ _ _ _ _ _ _ _ Ha) as (Hc & _).
    rewrite rolled_back_database. cbn [committed aborted]. by rewrite Hc.
Qed.


(** X19. An accepted request with an empty [data] array, in a revision
    that clears the table for it, is answered 200 exactly when it gets a
    connection, the table exists and none of its three statements is
    refused; it then empties the table: the statements are BEGIN, the
    clearing statement and COMMIT, with no INSERT, and the answer is 200
    with [insertedCount] 0. *)
Theorem empty_snapshot_empties_the_table (r : revision) (req : request) (d : database)
    (t : string) :
  strict_equals (field "apiKey" (body req)) (env_value (API_KEY env)) = true →
  field "data" (body req) = Arr [] →
  clears r req = true →
  resolved r req = Normal t →
  ((200, succeeded 0) ∈ responses (events_of (sync r req d)) ↔
   connecting pg = None ∧
   Forall (λ q, refusal pg q = None) (BEGIN :: cleared_with r req t ++ [COMMIT]) ∧
   is_Some (current d !! relation pg t)) ∧
  (∀ reply, (200, reply) ∈ responses (events_of (sync r req d)) →
     statements (events_of (sync r req d)) = BEGIN :: cleared_with r req t ++ [COMMIT] ∧
     inserts (events_of (sync r req d)) = [] ∧
     responses (events_of (sync r req d)) = [(200, reply)] ∧
     reply = succeeded 0 ∧
     success reply = true ∧
     insertedCount reply = Some 0 ∧
     committed (database_after (sync r req d)) !! relation pg t = Some []).
Proof.
  intros H Hdata Hc Ht.
  rewrite (sync_accepted r req d [] t) by done. rewrite run_plan_run.
  destruct (connecting pg) as [e|].
  { split; [split; [by inversion 1 | by intros [? _]] | by inversion 1]. }
  rewrite attempt_run, clear_run.
  destruct (plan_clearing r req t (length (@nil value)) Hc) as (before & m & after & -> & <-).
  change (current {| committed := committed d; Pg.transaction := Some (current d) |})
    with (current d).
  change (table (plan_of r req t (length (@nil value)))) with t.
  set (q := clear_statement (plan_of r req t (length (@nil value))) m).
  assert (Hq_insert : is_insert q = false) by (subst q; by destruct m).
  assert (Hrolled : ∀ msg d1 e1,
            Forall inside e1 →
            ∀ reply,
              (200, reply) ∉
                responses (events_of (rolled_back pg msg d1
                  ([Log info (announce (plan_of r req t (length (@nil value)))); Connect]
                   ++ e1)))).
  { intros msg d1 e1 He1 reply.
    rewrite rolled_back_responses by (by rewrite responses_app, (inside_responses e1)).
    destruct (refusal pg ROLLBACK); [by inversion 1 |].
    intros Hin. by apply list_elem_of_singleton in Hin. }
  assert (Hins : Forall inside ((Log info <$> before) ++ Query q None :: (Log info <$> after))).
  { apply Forall_app. split; [apply inside_lines |].
    constructor; [subst q; by destruct m | apply inside_lines]. }
  assert (Hstop : ∀ e, Forall inside (Query BEGIN None
                                      :: (Log info <$> before) ++ [Query q (Some e)])).
  { intros e. constructor; [done |]. apply Forall_app. split; [apply inside_lines |].
    constructor; [subst q; by destruct m | constructor]. }
  destruct (refusal pg BEGIN) as [e|] eqn:Hbegin.
  { assert (Hno := Hrolled e d [Query BEGIN (Some e)] ltac:(by repeat constructor)).
    split; [split; [by intros Hin%Hno |] | by intros reply Hin%Hno].
    intros (_ & Hall & _). apply Forall_cons in Hall as [Hb _]. by rewrite Hbegin in Hb. }
  destruct (refusal pg q) as [e|] eqn:Hq.
  { assert (Hno := Hrolled e {| committed := committed d;
                               Pg.transaction := Some (current d) |} _ (Hstop e)).
    split; [split; [by intros Hin%Hno |] | by intros reply Hin%Hno].
    intros (_ & Hall & _). apply Forall_cons in Hall as [_ Hall].
    apply Forall_cons in Hall as [Hb _]. by rewrite Hq in Hb. }
  destruct (current d !! relation pg t) as [old|] eqn:Hold.
  2:{ assert (Hno := Hrolled (undefined_table (relation pg t))
                       {| committed := committed d; Pg.transaction := Some (current d) |}
                       _ (Hstop (undefined_table (relation pg t)))).
      split; [split; [by intros Hin%Hno |] | by intros reply Hin%Hno].
      intros (_ & _ & [x Hx]). done. }
  cbn [each_chunk for_each_chunk Spec.chunks Spec.chunks_upto length mret io_ret].
  rewrite app_nil_r.
  destruct (refusal pg COMMIT) as [e|] eqn:Hcommit.
  { split; [split |].
    - intros Hin. exfalso. revert Hin.
      rewrite rolled_back_responses.
      + destruct (refusal pg ROLLBACK); [by inversion 1 |].
        intros Hin. by apply list_elem_of_singleton in Hin.
      + rewrite !responses_app, (inside_responses (Query BEGIN None :: _)); [done |].
        by constructor.
    - intros (_ & Hall & _). apply Forall_cons in Hall as [_ Hall].
      apply Forall_cons in Hall as [_ Hall]. apply Forall_cons in Hall as [Hb _].
      by rewrite Hcommit in Hb.
    - intros reply Hin. exfalso. revert Hin.
      rewrite rolled_back_responses.
      + destruct (refusal pg ROLLBACK); [by inversion 1 |].
        intros Hin. by apply list_elem_of_singleton in Hin.
      + rewrite !responses_app, (inside_responses (Query BEGIN None :: _)); [done |].
        by constructor. }
  unfold events_of, database_after. cbn [fst snd committed].
  rewrite !responses_app, (inside_responses (Query BEGIN None :: _)) by (by constructor).
  cbn [responses omap list_omap response_of app]. split.
  - split; [|intros _; by apply list_elem_of_here]. intros _. split; [done |].
    split; [by repeat constructor | by eexists].
  - intros reply Hin. apply list_elem_of_singleton in Hin. injection Hin as ->.
    unfold inserts.
    change (Log info ?a :: Connect :: Query BEGIN None :: ?l)
      with ([Log info a; Connect] ++ Query BEGIN None :: l).
    rewrite statements_app, statements_cons, !statements_app, statements_lines,
      statements_cons, statements_lines.
    cbn [statements omap list_omap statement_of app].
    split; [done |]. split.
    { rewrite filter_cons_False by done.
      rewrite filter_cons_False by (by rewrite Hq_insert).
      by rewrite filter_cons_False by done. }
    split; [done |]. split; [done |]. split; [done |]. split; [done |].
    by rewrite current_store, lookup_insert_eq.
Qed.

(** X20. In the revision with the [truncateFirst] flag, a request whose
    flag is missing or falsy and that is answered 200 leaves in the
    table the rows it had, followed by the rows of the request: the
    sync appends. *)
Theorem without_the_flag_rows_are_appended (req : request) (d : database) (data : list value)
    (t : string) (old : list row) (reply : reply) :
  strict_equals (field "apiKey" (body req)) (env_value (API_KEY env)) = true →
  field "data" (body req) = Arr data →
  truthy (truncateFirst req) = false →
  resolved TruncateFirst req = Normal t →
  current d !! relation pg t = Some old →
  (200, reply) ∈ responses (events_of (sync TruncateFirst req d)) →
  ∃ rows,
    mapM (values_of TruncateFirst) data = Normal rows ∧
    committed (database_after (sync TruncateFirst req d)) !! relation pg t =
      Some (old ++ stored rows).
Proof.
  intros H Hdata Hflag Ht Hold Hreply.
  rewrite (sync_accepted TruncateFirst req d data t) in * by done.
  set (pl := plan_of TruncateFirst req t (length data)) in *.
  destruct (run_plan_succeeded Number_toString pg pl data d reply Hreply)
    as (n & d1 & e1 & Ha & _ & -> & _).
  destruct (attempt_success Number_toString pg pl
              (plan_width Number_toString TruncateFirst req t (length data)) data n d d1 e1
              (plan_chunkSize Number_toString TruncateFirst req t (length data)) Ha)
    as (rowss & _ & Hrows & _ & _ & _ & _ & Happend).
  exists (concat rowss). split; [done |].
  apply Happend; [|done]. subst pl. cbn. by rewrite Hflag.
Qed.

(** X21. In the revision with the [truncateFirst] flag, TRUNCATE is
    sent exactly when the transaction has begun and the flag is truthy in
    the sense of JavaScript: not when it is missing, false, 0, null or
    the empty string, but for any other value, the text "false"
    included. *)
Theorem truncation_follows_truthiness (req : request) (d : database) (data : list value)
    (t : string) :
  strict_equals (field "apiKey" (body req)) (env_value (API_KEY env)) = true →
  field "data" (body req) = Arr data →
  resolved TruncateFirst req = Normal t →
  (TRUNCATE t ∈ statements (events_of (sync TruncateFirst req d)) ↔
   truthy (truncateFirst req) = true ∧ Query BEGIN None ∈ events_of (sync TruncateFirst req d)) ∧
  (Query BEGIN None ∈ events_of (sync TruncateFirst req d) ↔
   connecting pg = None ∧ refusal pg BEGIN = None).
Proof.
  intros H Hdata Ht. split; [|by apply (sync_begun TruncateFirst req d data t)].
  rewrite (sync_begun TruncateFirst req d data t) by done.
  destruct (connecting pg) as [e|] eqn:Hconn.
  { rewrite (sync_accepted TruncateFirst req d data t) by done. rewrite run_plan_run, Hconn.
    split; [by inversion 1 | by intros (_ & ? & _)]. }
  destruct (accepted_statements TruncateFirst req d data t H Hdata Ht Hconn)
    as (rowss & _ & _ & Hcases).
  assert (Hsent : ∀ ending : list statement,
            TRUNCATE t ∉ ending →
            TRUNCATE t ∈ BEGIN :: cleared_with TruncateFirst req t
              ++ (insert_statement (plan_of TruncateFirst req t (length data)) <$> rowss)
              ++ ending ↔
            truthy (truncateFirst req) = true).
  { intros ending Hending. unfold cleared_with, clears. split.
    - destruct (truthy (truncateFirst req)); [done |]. intros Hin.
      apply elem_of_cons in Hin as [Hin|Hin]; [done |].
      rewrite app_nil_l in Hin. apply elem_of_app in Hin as [Hin|Hin]; [|done].
      apply list_elem_of_fmap in Hin as (rows & Hrows & _). done.
    - intros ->. right. by left. }
  assert (Hnot : ∀ l : list statement, Forall (λ q, q = COMMIT ∨ q = ROLLBACK) l →
                                       TRUNCATE t ∉ l).
  { intros l Hl Hin. apply (proj1 (Forall_forall _ _) Hl) in Hin. by destruct Hin. }
  destruct Hcases as [(-> & _ & Hb & _)|[[(-> & _ & [e Hb])|[(-> & Hb)|(-> & _ & Hb & _)]] _]].
  - rewrite Hsent by (apply Hnot; repeat constructor; auto). by intuition.
  - rewrite Hb. split; [|by intros (_ & _ & ?)]. intros Hin.
    repeat (apply elem_of_cons in Hin as [Hin|Hin]; [done |]). by inversion Hin.
  - rewrite Hsent by (apply Hnot; repeat constructor; auto). by intuition.
  - rewrite Hsent by (apply Hnot; repeat constructor; auto). by intuition.
Qed.

Lemma raw_rows (data : list value) (rows : list (list value)) :
  mapM raw_values data = Normal rows →
  rows = (λ row, property row <$> narrow_columns) <$> data.
Proof.
  revert rows. induction data as [|row data IH]; intros rows; cbn; [by intros [= <-] |].
  rewrite raw_values_run.
  destruct row; try done; cbn;
    (destruct (mapM raw_values data) as [rows'|msg]; [|done]); cbn;
    intros [= <-]; by rewrite (IH rows').
Qed.

(** X22. The two revisions that take the fields as they are (the one
    with the flag, when it truncates, and the one that always truncates)
    store a snapshot as the client library sends it, every parameter as
    text or as NULL: after a 200 answer the table holds one row per
    record, in order, with the record's [code], [name], [address] and
    [branch]: a string as it is, untrimmed; a number in the notation of
    [Number::toString]; a boolean as true or false; and null for null
    and for a field the record does not have. *)
Theorem raw_snapshot_is_stored_as_text (r : revision) (req : request) (d : database)
    (data : list value) (t : string) (reply : reply) :
  r = TruncateFirst ∨ r = TruncateAlways →
  strict_equals (field "apiKey" (body req)) (env_value (API_KEY env)) = true →
  field "data" (body req) = Arr data →
  clears r req = true →
  resolved r req = Normal t →
  (200, reply) ∈ responses (events_of (sync r req d)) →
  committed (database_after (sync r req d)) !! relation pg t =
    Some ((λ row, (λ name, prepareValue (property row name)) <$> narrow_columns) <$> data) ∧
  (∀ s, prepareValue (Str s) = Str s) ∧
  (∀ n, prepareValue (Num n) = Str (Number_toString n)) ∧
  prepareValue (Bool true) = Str "true" ∧
  prepareValue (Bool false) = Str "false" ∧
  prepareValue Null = Null ∧
  prepareValue Undefined = Null.
Proof.
  intros Hr H Hdata Hc Ht Hreply. split; [|done].
  rewrite (sync_accepted r req d data t) in * by done.
  set (pl := plan_of r req t (length data)) in *.
  destruct (run_plan_succeeded Number_toString pg pl data d reply Hreply)
    as (n & d1 & e1 & Ha & _ & -> & _).
  destruct (attempt_success Number_toString pg pl
              (plan_width Number_toString r req t (length data)) data n d d1 e1
              (plan_chunkSize Number_toString r req t (length data)) Ha)
    as (rowss & _ & Hrows & _ & _ & _ & Hcleared & _).
  unfold database_after. cbn [fst snd committed].
  destruct (plan_clearing r req t (length data) Hc) as (before & m & after & Hcl & _).
  change (table pl) with t in Hcleared. rewrite Hcleared by (subst pl; rewrite Hcl; by eexists).
  f_equal. assert (Hraw : mapM raw_values data = Normal (concat rowss)).
  { by destruct Hr as [-> | ->]. }
  apply raw_rows in Hraw as ->. unfold Pg.stored. rewrite <- list_fmap_compose.
  apply list_fmap_ext. by intros _ row _.
Qed.


(** *** The lines logged *)

Lemma concat_imap_singleton {A B} (g : nat → A → B) (l : list A) :
  concat (imap (λ k x, [g k x]) l) = imap g l.
Proof.
  revert g. induction l as [|x l IH]; intros g; [done |].
  rewrite !imap_cons. cbn [concat app]. f_equal. apply (IH (g ∘ S)).
Qed.

(** X23. A request of the wide revision that is answered 200 has logged,
    at level info and in this order: the number of records received,
    that the table was cleared, one line for each chunk, numbered from 1
    without gaps and giving the rows of the chunk, and the total. *)
Theorem wide_batches_are_numbered (req : request) (d : database) (data : list value)
    (t : string) (reply : reply) :
  strict_equals (field "apiKey" (body req)) (env_value (API_KEY env)) = true →
  field "data" (body req) = Arr data →
  resolved Wide req = Normal t →
  (200, reply) ∈ responses (events_of (sync Wide req d)) →
  logged (events_of (sync Wide req d)) =
    [(info, "Sync received " +:+ decimal (length data) +:+ " records for table "
            +:+ quote +:+ t +:+ quote);
     (info, "Cleared existing data from table " +:+ quote +:+ t +:+ quote)]
    ++ imap (λ k chunk, (info, "Inserted batch " +:+ decimal (k + 1) +:+ ": "
                               +:+ decimal (length chunk) +:+ " rows"))
         (Spec.chunks 100 data)
    ++ [(info, "Sync complete: inserted " +:+ decimal (length data) +:+ " rows into " +:+ t)].
Proof.
  intros H Hdata Ht Hreply.
  rewrite (sync_accepted Wide req d data t) in * by done.
  set (pl := plan_of Wide req t (length data)) in *.
  destruct (run_plan_succeeded Number_toString pg pl data d reply Hreply)
    as (n & d1 & e1 & Ha & _ & -> & _).
  destruct (attempt_success Number_toString pg pl
              (plan_width Number_toString Wide req t (length data)) data n d d1 e1
              (plan_chunkSize Number_toString Wide req t (length data)) Ha)
    as (_ & _ & _ & -> & _).
  apply attempt_logged in Ha. unfold events_of. cbn [snd].
  rewrite !logged_app, Ha. cbn [logged omap list_omap line_of app fmap list_fmap].
  subst pl. cbn [clearing batch_lines chunkSize Sync.plan_of chunkSize_of announce done_line
                 received complete app fmap list_fmap].
  do 2 f_equal. f_equal.
  rewrite (imap_ext _ (λ k chunk, [(info, "Inserted batch " +:+ decimal (k + 1) +:+ ": "
                                          +:+ decimal (length chunk) +:+ " rows")]))
    by (intros k chunk _; by rewrite Nat.div_mul).
  apply concat_imap_singleton.
Qed.

(** *** One revision through another *)

(** X24. The revision that always truncates [rrc_clients] is the
    revision with the flag, asked with a truthy flag for that table:
    on such a request the two give the same outcome, leave the same
    database and send the same statements and the same response in the
    same order; they differ in what they log only. *)
Theorem flagged_request_is_the_truncating_revision (req : request) (d : database) :
  truthy (truncateFirst req) = true →
  resolved TruncateFirst req = Normal "rrc_clients" →
  completion_of (sync TruncateFirst req d) = completion_of (sync TruncateAlways req d) ∧
  database_after (sync TruncateFirst req d) = database_after (sync TruncateAlways req d) ∧
  quiet (events_of (sync TruncateFirst req d)) = quiet (events_of (sync TruncateAlways req d)).
Proof.
  intros Hflag Ht.
  destruct (strict_equals (field "apiKey" (body req)) (env_value (API_KEY env))) eqn:H.
  2:{ by rewrite !(sync_unauthorized Number_toString pg env _ req d). }
  destruct (isArray (field "data" (body req))) eqn:Hdata.
  2:{ by rewrite !(sync_not_an_array Number_toString pg env _ req d). }
  destruct (field "data" (body req)) as [| | | | |data|] eqn:Hd; try done.
  rewrite (sync_accepted TruncateFirst req d data "rrc_clients") by done.
  rewrite (sync_accepted TruncateAlways req d data "rrc_clients") by done.
  apply run_plan_quiet; try done. cbn. by rewrite Hflag.
Qed.


End Requests.

(** ** These properties at work *)

Section FurtherExamples.
Import JS Pg Http Sync Observe Example.

Lemma server_js_sends_trimmed_strings_witness :
  values_of Number_toString ServerJs record = Normal [Str "1"; Str "Acme"; Str "X"; Str "B"] ∧
  length [Str "1"; Str "Acme"; Str "X"; Str "B"] = 4 ∧
  Forall (λ w, ∃ s, w = Str s ∧ trimmed s) [Str "1"; Str "Acme"; Str "X"; Str "B"].
Proof.
  split; [reflexivity |].
  apply (server_js_sends_trimmed_strings Number_toString record). reflexivity.
Defined.

Lemma wide_strings_are_trimmed_or_null_witness :
  string_column "name" = true ∧
  coerce Number_toString "name" (Str "  Acme  ") = Normal (Str "Acme") ∧
  (Str "Acme" = Null ∨ ∃ s, Str "Acme" = Str s ∧ s ≠ "" ∧ trimmed s).
Proof.
  split; [reflexivity |]. split; [reflexivity |].
  apply (wide_strings_are_trimmed_or_null Number_toString "name" (Str "  Acme  "));
    reflexivity.
Defined.

Lemma date_is_sent_as_received_witness :
  values_of Number_toString Wide dated = Normal dated_values ∧
  wide_columns !! 8 = Some "installationdate" ∧
  dated_values !! 8 = Some (or_null (property dated "installationdate")).
Proof.
  split; [reflexivity |].
  apply (date_is_sent_as_received Number_toString dated dated_values). reflexivity.
Defined.

Lemma unprintable_table_name_is_not_answered_witness :
  ServerJs ≠ TruncateAlways ∧
  strict_equals (field "apiKey" (body unprintable_table)) (env_value (API_KEY env)) = true ∧
  field "data" (body unprintable_table) = Arr [record] ∧
  field "tableName" (body unprintable_table) = Obj [("toString", Null)] ∧
  is_Some (own_property "toString" [("toString", Null)]) ∧
  sync Number_toString unconstrained env ServerJs unprintable_table db =
    (Throw "Cannot convert object to primitive value", db, []) ∧
  app_post Number_toString unconstrained env Express4 ServerJs unprintable_table db =
    (Throw "Cannot convert object to primitive value", db, []) ∧
  app_post Number_toString unconstrained env Express5 ServerJs unprintable_table db =
    (Normal tt, db,
     [Log error "Unhandled error: Cannot convert object to primitive value";
      Respond 500 internal_server_error]).
Proof.
  split; [discriminate |]. split; [reflexivity |]. split; [reflexivity |].
  split; [reflexivity |]. split; [eexists; reflexivity |].
  destruct (unprintable_table_name_is_not_answered Number_toString unconstrained env ServerJs
              unprintable_table db [record] [("toString", Null)])
    as (Hsync & H4 & H5 & _);
    [discriminate | reflexivity | reflexivity | reflexivity | eexists; reflexivity |].
  split; [exact Hsync |]. split; [exact H4 | exact H5].
Defined.

Lemma table_name_is_a_word_or_the_default_witness :
  resolved Number_toString env ServerJs named_table = Normal "clients_2024" ∧
  (Spec.allowed "clients_2024" = true ∨ "clients_2024" = DEFAULT_TABLE env) ∧
  "clients_2024" ≠ "".
Proof.
  split; [reflexivity |].
  apply (table_name_is_a_word_or_the_default Number_toString env ServerJs named_table).
  reflexivity.
Defined.

Lemma statements_of_an_accepted_request_witness :
  strict_equals (field "apiKey" (body one_record)) (env_value (API_KEY env)) = true ∧
  field "data" (body one_record) = Arr [record] ∧
  resolved Number_toString env ServerJs one_record = Normal "rrc_clients" ∧
  connecting lost_connection = None ∧
  (∃ ins : list statement,
     Forall (λ q, ∃ valuePlaceholders values,
                    q = INSERT_INTO "rrc_clients" (columns_of ServerJs) valuePlaceholders values)
       ins ∧
     (statements (events_of (sync Number_toString lost_connection env ServerJs
                               one_record db)) =
        BEGIN :: cleared_with ServerJs one_record "rrc_clients" ++ ins ++ [COMMIT] ∧
      responses (events_of (sync Number_toString lost_connection env ServerJs one_record db)) =
        [(200, succeeded (length [record]))] ∨
      (statements (events_of (sync Number_toString lost_connection env ServerJs
                                one_record db)) = [BEGIN; ROLLBACK] ∨
       statements (events_of (sync Number_toString lost_connection env ServerJs
                                one_record db)) =
         BEGIN :: cleared_with ServerJs one_record "rrc_clients" ++ ins ++ [ROLLBACK] ∨
       statements (events_of (sync Number_toString lost_connection env ServerJs
                                one_record db)) =
         BEGIN :: cleared_with ServerJs one_record "rrc_clients" ++ ins
           ++ [COMMIT; ROLLBACK]) ∧
      ∃ msg, responses (events_of (sync Number_toString lost_connection env ServerJs
                                     one_record db)) =
             match refusal lost_connection ROLLBACK with
             | None => [(500, failed msg)]
             | Some _ => []
             end)) ∧
  (Query COMMIT None ∈
     events_of (sync Number_toString lost_connection env ServerJs one_record db) ↔
   (200, succeeded (length [record])) ∈
     responses (events_of (sync Number_toString lost_connection env ServerJs one_record db))) ∧
  Pg.transaction (database_after (sync Number_toString lost_connection env ServerJs
                                    one_record db)) = None.
Proof.
  split; [reflexivity |]. split; [reflexivity |]. split; [reflexivity |].
  split; [reflexivity |].
  exact (statements_of_an_accepted_request Number_toString lost_connection env ServerJs
           one_record db [record] "rrc_clients" eq_refl eq_refl eq_refl eq_refl).
Defined.

(** The statements of two requests: one that goes through, and one whose
    connection is lost after the BEGIN. *)
Lemma statements_of_two_requests :
  statements (events_of (sync Number_toString unconstrained env ServerJs one_record db)) =
    [BEGIN; DELETE_FROM "rrc_clients";
     INSERT_INTO "rrc_clients" narrow_columns (Spec.placeholders 1 4)
       [Str "1"; Str "Acme"; Str "X"; Str "B"];
     COMMIT] ∧
  statements (events_of (sync Number_toString lost_connection env ServerJs one_record db)) =
    [BEGIN; DELETE_FROM "rrc_clients"; ROLLBACK] ∧
  statements (events_of (sync Number_toString refusing_begin env ServerJs one_record db)) =
    [BEGIN; ROLLBACK] ∧
  statements (events_of (sync Number_toString exhausted_pool env ServerJs one_record db)) = [].
Proof. repeat split; by vm_compute. Qed.

Lemma inserts_are_full_but_the_last_witness :
  field "data" (body many_records) = Arr (replicate 1234 record) ∧
  (200, succeeded 1234) ∈
    responses (events_of (sync Number_toString unconstrained env ServerJs many_records db)) ∧
  rows_of <$> inserts (events_of (sync Number_toString unconstrained env ServerJs
                                    many_records db)) = [500; 500; 234].
Proof.
  split; [reflexivity |]. split; [vm_compute; constructor |].
  destruct (inserts_are_full_but_the_last Number_toString unconstrained env ServerJs
              many_records db (replicate 1234 record)) as [_ Hsizes]; [reflexivity |].
  rewrite (Hsizes (succeeded 1234)) by (vm_compute; constructor). by vm_compute.
Defined.

Lemma nothing_is_sent_after_a_failure_witness :
  Query refused_insert (Some code_is_null) ∈
    events_of (sync Number_toString lost_at_rollback env TruncateAlways codeless_record db) ∧
  refused_insert ≠ ROLLBACK ∧
  ∃ before,
    events_of (sync Number_toString lost_at_rollback env TruncateAlways codeless_record db) =
      before ++ Query refused_insert (Some code_is_null)
             :: Query ROLLBACK (refusal lost_at_rollback ROLLBACK)
             :: match refusal lost_at_rollback ROLLBACK with
                | None => [Log error ("Sync failed: " +:+ code_is_null);
                           Respond 500 (failed code_is_null); Release]
                | Some _ => [Release]
                end ∧
    failures before = [] ∧ responses before = [].
Proof.
  split; [vm_compute; repeat constructor |]. split; [discriminate |].
  apply (nothing_is_sent_after_a_failure Number_toString lost_at_rollback env TruncateAlways
           codeless_record db refused_insert code_is_null);
    [vm_compute; repeat constructor | discriminate].
Defined.

(** The two ends of a failed request: the constraint of the table refuses
    the INSERT, and the ROLLBACK is accepted, or the connection is lost
    before it. *)
Lemma two_ends_of_a_failure :
  events_of (sync Number_toString code_not_null env TruncateAlways codeless_record db) =
    [Log info (received TruncateAlways 2 "rrc_clients"); Connect; Query BEGIN None;
     Query (TRUNCATE "rrc_clients") None; Query refused_insert (Some code_is_null);
     Query ROLLBACK None; Log error ("Sync failed: " +:+ code_is_null);
     Respond 500 (failed code_is_null); Release] ∧
  events_of (sync Number_toString lost_at_rollback env TruncateAlways codeless_record db) =
    [Log info (received TruncateAlways 2 "rrc_clients"); Connect; Query BEGIN None;
     Query (TRUNCATE "rrc_clients") None; Query refused_insert (Some code_is_null);
     Query ROLLBACK (Some connection_lost); Release].
Proof. split; by vm_compute. Qed.

Lemma server_error_has_a_cause_witness :
  field "data" (body codeless_record) = Arr [record; codeless] ∧
  (500, failed code_is_null) ∈
    responses (events_of (sync Number_toString code_not_null env TruncateAlways
                            codeless_record db)) ∧
  (failures (events_of (sync Number_toString code_not_null env TruncateAlways
                          codeless_record db)) = [code_is_null] ∨
   failures (events_of (sync Number_toString code_not_null env TruncateAlways
                          codeless_record db)) = [] ∧
   ∃ row, row ∈ [record; codeless] ∧
          values_of Number_toString TruncateAlways row = Throw code_is_null).
Proof.
  split; [reflexivity |]. split; [vm_compute; constructor |].
  apply (server_error_has_a_cause Number_toString code_not_null env TruncateAlways
           codeless_record db [record; codeless] code_is_null);
    [reflexivity | vm_compute; constructor].
Defined.

Lemma model_snapshots_fail_only_in_the_database_witness :
  field "data" (body codeless_record) = Arr [record; codeless] ∧
  Forall (λ row, ∃ properties,
            row = Obj properties ∧ Forall (λ kv, Spec.scalar kv.2 = true) properties)
    [record; codeless] ∧
  (500, failed code_is_null) ∈
    responses (events_of (sync Number_toString code_not_null env TruncateAlways
                            codeless_record db)) ∧
  failures (events_of (sync Number_toString code_not_null env TruncateAlways
                         codeless_record db)) = [code_is_null].
Proof.
  assert (Hmodel : Forall (λ row, ∃ properties,
                     row = Obj properties ∧ Forall (λ kv, Spec.scalar kv.2 = true) properties)
                     [record; codeless]).
  { repeat constructor; eexists; (split; [reflexivity | repeat constructor]). }
  split; [reflexivity |]. split; [exact Hmodel |]. split; [vm_compute; constructor |].
  apply (model_snapshots_fail_only_in_the_database Number_toString code_not_null env
           TruncateAlways codeless_record db [record; codeless] code_is_null);
    [reflexivity | exact Hmodel | vm_compute; constructor].
Defined.

Lemma other_tables_are_untouched_witness :
  Pg.transaction two_tables = None ∧
  resolved Number_toString env ServerJs capital_table = Normal "RRC_Clients" ∧
  "invoices" ≠ relation unconstrained "RRC_Clients" ∧
  committed (database_after (sync Number_toString unconstrained env ServerJs capital_table
                               two_tables)) !! "invoices" =
    committed two_tables !! "invoices" ∧
  Forall (λ q, table_of q = None ∨ table_of q = Some "RRC_Clients")
    (statements (events_of (sync Number_toString unconstrained env ServerJs capital_table
                              two_tables))).
Proof.
  split; [reflexivity |]. split; [reflexivity |]. split; [by vm_compute |].
  apply (other_tables_are_untouched Number_toString unconstrained env ServerJs capital_table
           two_tables "RRC_Clients" "invoices"); [reflexivity | reflexivity | by vm_compute].
Defined.

(** A name in capitals denotes the table in lower case, which is the one
    replaced. *)
Lemma capitals_are_folded :
  relation unconstrained "RRC_Clients" = "rrc_clients" ∧
  "rrc_clients" ≠ "RRC_Clients" ∧
  committed (database_after (sync Number_toString unconstrained env ServerJs capital_table
                               two_tables)) !! "rrc_clients" =
    Some [[Str "1"; Str "Acme"; Str "X"; Str "B"]].
Proof. split; [reflexivity |]. split; [discriminate | by vm_compute]. Qed.

Lemma empty_snapshot_empties_the_table_witness :
  strict_equals (field "apiKey" (body empty_snapshot)) (env_value (API_KEY env)) = true ∧
  field "data" (body empty_snapshot) = Arr [] ∧
  clears ServerJs empty_snapshot = true ∧
  resolved Number_toString env ServerJs empty_snapshot = Normal "rrc_clients" ∧
  (200, succeeded 0) ∈
    responses (events_of (sync Number_toString unconstrained env ServerJs empty_snapshot db)) ∧
  statements (events_of (sync Number_toString unconstrained env ServerJs empty_snapshot db)) =
    BEGIN :: cleared_with ServerJs empty_snapshot "rrc_clients" ++ [COMMIT] ∧
  inserts (events_of (sync Number_toString unconstrained env ServerJs empty_snapshot db)) = [] ∧
  insertedCount (succeeded 0) = Some 0 ∧
  committed (database_after (sync Number_toString unconstrained env ServerJs
                               empty_snapshot db)) !! "rrc_clients" = Some [].
Proof.
  split; [reflexivity |]. split; [reflexivity |]. split; [reflexivity |].
  split; [reflexivity |].
  destruct (empty_snapshot_empties_the_table Number_toString unconstrained env ServerJs
              empty_snapshot db "rrc_clients") as [Hwhen Hthen];
    [reflexivity | reflexivity | reflexivity | reflexivity |].
  assert (Hok : (200, succeeded 0) ∈
            responses (events_of (sync Number_toString unconstrained env ServerJs
                                    empty_snapshot db))).
  { apply Hwhen. split; [reflexivity |]. split; [by repeat constructor |].
    eexists. by vm_compute. }
  destruct (Hthen (succeeded 0) Hok) as (Hst & Hins & _ & _ & _ & Hcount & Htable).
  split; [exact Hok |]. split; [exact Hst |]. split; [exact Hins |].
  split; [exact Hcount | exact Htable].
Defined.

Lemma without_the_flag_rows_are_appended_witness :
  strict_equals (field "apiKey" (body one_record)) (env_value (API_KEY env)) = true ∧
  field "data" (body one_record) = Arr [record] ∧
  truthy (truncateFirst one_record) = false ∧
  resolved Number_toString env TruncateFirst one_record = Normal "rrc_clients" ∧
  current db !! relation unconstrained "rrc_clients" =
    Some [[Str "0"; Str "Old"; Str "Y"; Str "C"]] ∧
  (200, succeeded 1) ∈
    responses (events_of (sync Number_toString unconstrained env TruncateFirst
                            one_record db)) ∧
  ∃ rows,
    mapM (values_of Number_toString TruncateFirst) [record] = Normal rows ∧
    committed (database_after (sync Number_toString unconstrained env TruncateFirst
                                 one_record db)) !! relation unconstrained "rrc_clients" =
      Some ([[Str "0"; Str "Old"; Str "Y"; Str "C"]] ++ stored Number_toString rows).
Proof.
  split; [reflexivity |]. split; [reflexivity |]. split; [reflexivity |].
  split; [reflexivity |]. split; [by vm_compute |]. split; [vm_compute; constructor |].
  apply (without_the_flag_rows_are_appended Number_toString unconstrained env one_record db
           [record] "rrc_clients" [[Str "0"; Str "Old"; Str "Y"; Str "C"]] (succeeded 1));
    [reflexivity | reflexivity | reflexivity | reflexivity | by vm_compute
     | vm_compute; constructor].
Defined.

Lemma truncation_follows_truthiness_witness :
  strict_equals (field "apiKey" (body flag_as_text)) (env_value (API_KEY env)) = true ∧
  field "data" (body flag_as_text) = Arr [record] ∧
  resolved Number_toString env TruncateFirst flag_as_text = Normal "rrc_clients" ∧
  truncateFirst flag_as_text = Str "false" ∧
  TRUNCATE "rrc_clients" ∈
    statements (events_of (sync Number_toString unconstrained env TruncateFirst
                             flag_as_text db)).
Proof.
  split; [reflexivity |]. split; [reflexivity |]. split; [reflexivity |].
  split; [reflexivity |].
  destruct (truncation_follows_truthiness Number_toString unconstrained env flag_as_text db
              [record] "rrc_clients") as [Hsent Hbegun];
    [reflexivity | reflexivity | reflexivity |].
  apply Hsent. split; [reflexivity |]. apply Hbegun. split; reflexivity.
Defined.

(** A truthy flag is not enough: when the BEGIN is refused, or no
    connection is to be had, nothing is truncated. *)
Lemma truncation_needs_a_transaction :
  truthy (truncateFirst flag_as_text) = true ∧
  statements (events_of (sync Number_toString refusing_begin env TruncateFirst
                           flag_as_text db)) = [BEGIN; ROLLBACK] ∧
  statements (events_of (sync Number_toString exhausted_pool env TruncateFirst
                           flag_as_text db)) = [].
Proof. repeat split; by vm_compute. Qed.

Lemma raw_snapshot_is_stored_as_text_witness :
  (TruncateAlways = TruncateFirst ∨ TruncateAlways = TruncateAlways) ∧
  strict_equals (field "apiKey" (body mixed_records)) (env_value (API_KEY env)) = true ∧
  field "data" (body mixed_records) = Arr [mixed_record; Str "row"] ∧
  clears TruncateAlways mixed_records = true ∧
  resolved Number_toString env TruncateAlways mixed_records = Normal "rrc_clients" ∧
  (200, succeeded 2) ∈
    responses (events_of (sync Number_toString unconstrained env TruncateAlways
                            mixed_records db)) ∧
  committed (database_after (sync Number_toString unconstrained env TruncateAlways
                               mixed_records db)) !! "rrc_clients" =
    Some [[Str "7"; Str "  Acme  "; Null; Str "true"]; [Null; Null; Null; Null]].
Proof.
  split; [by right |]. split; [reflexivity |]. split; [reflexivity |].
  split; [reflexivity |]. split; [reflexivity |]. split; [vm_compute; constructor |].
  destruct (raw_snapshot_is_stored_as_text Number_toString unconstrained env
              TruncateAlways mixed_records db [mixed_record; Str "row"] "rrc_clients"
              (succeeded 2)) as [Htable _];
    [by right | reflexivity | reflexivity | reflexivity | reflexivity
     | vm_compute; constructor |].
  etransitivity; [exact Htable |]. by vm_compute.
Defined.

Lemma wide_batches_are_numbered_witness :
  strict_equals (field "apiKey" (body one_record)) (env_value (API_KEY env)) = true ∧
  field "data" (body one_record) = Arr [record] ∧
  resolved Number_toString env Wide one_record = Normal "rrc_clients" ∧
  (200, succeeded 1) ∈
    responses (events_of (sync Number_toString unconstrained env Wide one_record db)) ∧
  logged (events_of (sync Number_toString unconstrained env Wide one_record db)) =
    [(info, "Sync received 1 records for table " +:+ quote +:+ "rrc_clients" +:+ quote);
     (info, "Cleared existing data from table " +:+ quote +:+ "rrc_clients" +:+ quote);
     (info, "Inserted batch 1: 1 rows");
     (info, "Sync complete: inserted 1 rows into rrc_clients")].
Proof.
  split; [reflexivity |]. split; [reflexivity |]. split; [reflexivity |].
  split; [vm_compute; constructor |].
  rewrite (wide_batches_are_numbered Number_toString unconstrained env one_record db
             [record] "rrc_clients" (succeeded 1));
    [reflexivity | reflexivity | reflexivity | reflexivity | vm_compute; constructor].
Defined.

Lemma rejected_exactly_when_key_differs_witness :
  field "apiKey" (body wrong_key) = Str "Secret" ∧
  env_value (API_KEY env) = Str "secret" ∧
  (401, invalid_api_key) ∈
    responses (events_of (sync Number_toString unconstrained env Wide wrong_key db)).
Proof.
  split; [reflexivity |]. split; [reflexivity |].
  apply (rejected_exactly_when_key_differs Number_toString unconstrained env Wide wrong_key db).
  discriminate.
Defined.


Lemma rebuilt_record_gives_the_same_values_witness :
  values_of Number_toString ServerJs record = Normal [Str "1"; Str "Acme"; Str "X"; Str "B"] ∧
  values_of Number_toString ServerJs
    (Obj [("code", Str "1"); ("name", Str "Acme"); ("address", Str "X"); ("branch", Str "B")])
    = Normal [Str "1"; Str "Acme"; Str "X"; Str "B"].
Proof.
  split; [reflexivity |].
  apply (rebuilt_record_gives_the_same_values Number_toString ServerJs record
           [Str "1"; Str "Acme"; Str "X"; Str "B"]). reflexivity.
Defined.

Lemma flagged_request_is_the_truncating_revision_witness :
  truthy (truncateFirst one_record_truncating) = true ∧
  resolved Number_toString env TruncateFirst one_record_truncating = Normal "rrc_clients" ∧
  completion_of (sync Number_toString unconstrained env TruncateFirst
                   one_record_truncating db) =
    completion_of (sync Number_toString unconstrained env TruncateAlways
                     one_record_truncating db) ∧
  database_after (sync Number_toString unconstrained env TruncateFirst
                    one_record_truncating db) =
    database_after (sync Number_toString unconstrained env TruncateAlways
                      one_record_truncating db) ∧
  quiet (events_of (sync Number_toString unconstrained env TruncateFirst
                      one_record_truncating db)) =
    quiet (events_of (sync Number_toString unconstrained env TruncateAlways
                        one_record_truncating db)).
Proof.
  split; [reflexivity |]. split; [reflexivity |].
  apply (flagged_request_is_the_truncating_revision Number_toString unconstrained env
           one_record_truncating db); reflexivity.
Defined.

End FurtherExamples.
